(** * TopDialogManager: ranking store, snapshot codec and sync scheduler

    A shallow embedding of [td/telegram/TopDialogManager.cpp].

    Conventions of the embedding:
    - a C++ [double] (ratings, rating timestamps, clock readings) is a real
      number; rounding, infinities and NaN are not modelled;
    - the actor's member variables are the record [State]; every handler is a
      function from the state before to the state after and the list of
      [Effect]s it issued (log lines, key-value writes, network queries,
      closures sent to other actors, timer operations), in program order;
    - values read from the environment during a handler (clocks, the
      key-value store, the option store, the contacts oracle) are the
      record [Env];
    - declarations that live in headers outside this translation unit
      (constants, [operator<] of [TopDialog], the primitive storers and
      parsers) are fields of [Config] or are modelled from the specification,
      each marked as such. *)

From Stdlib Require Import String Reals Lra ZArith Lia Bool List Sorted.
Import ListNotations.

Set Implicit Arguments.

(** * Part I: definitions *)

(** ** Real-number comparisons as booleans *)

Definition Rltb (a b : R) : bool := if Rlt_dec a b then true else false.
Definition Rleb (a b : R) : bool := if Rle_dec a b then true else false.

(** ** Data model *)

(** [enum class TopDialogCategory]; the array [by_category_] has one slot per
    value, so [static_cast<size_t>(category) < by_category_.size()] always
    holds for the six values below. *)
Inductive TopDialogCategory : Type :=
| Correspondent | BotPM | BotInline | Group | Channel | Call.

Definition TopDialogCategory_eqb (a b : TopDialogCategory) : bool :=
  match a, b with
  | Correspondent, Correspondent | BotPM, BotPM | BotInline, BotInline
  | Group, Group | Channel, Channel | Call, Call => true
  | _, _ => false
  end.

(** The slots of [by_category_] in index order. *)
Definition all_categories : list TopDialogCategory :=
  [Correspondent; BotPM; BotInline; Group; Channel; Call].

Definition top_dialog_category_name (category : TopDialogCategory) : string :=
  match category with
  | Correspondent => "correspondent"
  | BotPM => "bot_pm"
  | BotInline => "bot_inline"
  | Group => "group"
  | Channel => "channel"
  | Call => "call"
  end.

(** Modelled from the spec: [DialogType] and [DialogId] are declared in
    td/telegram/DialogId.h, which is not part of this translation unit.  The
    specification describes an entity reference as an opaque,
    equality-comparable identifier that carries a discriminated kind
    (user / chat / channel / other). *)
Inductive DialogType : Type :=
| DT_None | DT_User | DT_Chat | DT_Channel | DT_SecretChat.

Record DialogId : Type := mkDialogId { get_type : DialogType; get_id : Z }.

Definition UserId : Type := Z.
Definition get_user_id (d : DialogId) : UserId := get_id d.

Definition DialogType_eqb (a b : DialogType) : bool :=
  match a, b with
  | DT_None, DT_None | DT_User, DT_User | DT_Chat, DT_Chat
  | DT_Channel, DT_Channel | DT_SecretChat, DT_SecretChat => true
  | _, _ => false
  end.

Definition DialogId_eqb (a b : DialogId) : bool :=
  DialogType_eqb (get_type a) (get_type b) && Z.eqb (get_id a) (get_id b).

(** [struct TopDialog { DialogId dialog_id; double rating = 0; }] *)
Record TopDialog : Type := mkTopDialog { dialog_id : DialogId; rating : R }.

(** [struct TopDialogs { bool is_dirty; double rating_timestamp;
    std::vector<TopDialog> dialogs; }] *)
Record TopDialogs : Type := mkTopDialogs {
  is_dirty : bool;
  rating_timestamp : R;
  dialogs : list TopDialog
}.

Inductive SyncState : Type := SyncNone | SyncPending | SyncOk.

Definition SyncState_eqb (a b : SyncState) : bool :=
  match a, b with
  | SyncNone, SyncNone | SyncPending, SyncPending | SyncOk, SyncOk => true
  | _, _ => false
  end.

(** Modelled from the spec: [Timestamp] is declared in td/utils/Time.h, which
    is not part of this translation unit.  The specification gives
    [last_remote_sync] and [first_unsynced_change] as optional instants: a
    default-constructed [Timestamp()] is the unset value, it converts to
    [false], and a deadline is in the past when [now >= deadline]. *)
Definition Timestamp : Type := option R.

Definition Timestamp_at (t : Timestamp) : R :=
  match t with Some x => x | None => 0%R end.

Definition Timestamp_bool (t : Timestamp) : bool :=
  match t with Some _ => true | None => false end.

(** [Timestamp::relax]: keep the earlier of two deadlines, ignoring an unset
    argument. *)
Definition Timestamp_relax (self timeout : Timestamp) : Timestamp :=
  match timeout, self with
  | None, _ => self
  | Some t, None => Some t
  | Some t, Some s => if Rltb t s then Some t else Some s
  end.

(** [struct GetTopDialogsQuery]; the promise is named by a number. *)
Definition PromiseId : Type := nat.

Record GetTopDialogsQuery : Type := mkQuery {
  query_category : TopDialogCategory;
  query_limit : nat;
  query_promise : PromiseId
}.

(** The member variables of [TopDialogManager]. *)
Record State : Type := mkState {
  is_active : bool;
  was_first_sync : bool;
  db_sync_state : SyncState;
  first_unsync_change : Timestamp;
  server_sync_state : SyncState;
  last_server_sync : Timestamp;
  pending_get_top_dialogs : list GetTopDialogsQuery;
  by_category : TopDialogCategory -> TopDialogs;
  rating_e_decay : R
}.

Definition set_is_active (st : State) (b : bool) : State :=
  mkState b (was_first_sync st) (db_sync_state st) (first_unsync_change st)
    (server_sync_state st) (last_server_sync st) (pending_get_top_dialogs st)
    (by_category st) (rating_e_decay st).

Definition set_was_first_sync (st : State) (b : bool) : State :=
  mkState (is_active st) b (db_sync_state st) (first_unsync_change st)
    (server_sync_state st) (last_server_sync st) (pending_get_top_dialogs st)
    (by_category st) (rating_e_decay st).

Definition set_db_sync_state (st : State) (s : SyncState) : State :=
  mkState (is_active st) (was_first_sync st) s (first_unsync_change st)
    (server_sync_state st) (last_server_sync st) (pending_get_top_dialogs st)
    (by_category st) (rating_e_decay st).

Definition set_first_unsync_change (st : State) (t : Timestamp) : State :=
  mkState (is_active st) (was_first_sync st) (db_sync_state st) t
    (server_sync_state st) (last_server_sync st) (pending_get_top_dialogs st)
    (by_category st) (rating_e_decay st).

Definition set_server_sync_state (st : State) (s : SyncState) : State :=
  mkState (is_active st) (was_first_sync st) (db_sync_state st)
    (first_unsync_change st) s (last_server_sync st)
    (pending_get_top_dialogs st) (by_category st) (rating_e_decay st).

Definition set_last_server_sync (st : State) (t : Timestamp) : State :=
  mkState (is_active st) (was_first_sync st) (db_sync_state st)
    (first_unsync_change st) (server_sync_state st) t
    (pending_get_top_dialogs st) (by_category st) (rating_e_decay st).

Definition set_pending_get_top_dialogs (st : State)
    (q : list GetTopDialogsQuery) : State :=
  mkState (is_active st) (was_first_sync st) (db_sync_state st)
    (first_unsync_change st) (server_sync_state st) (last_server_sync st) q
    (by_category st) (rating_e_decay st).

Definition set_by_category (st : State)
    (f : TopDialogCategory -> TopDialogs) : State :=
  mkState (is_active st) (was_first_sync st) (db_sync_state st)
    (first_unsync_change st) (server_sync_state st) (last_server_sync st)
    (pending_get_top_dialogs st) f (rating_e_decay st).

Definition set_rating_e_decay (st : State) (d : R) : State :=
  mkState (is_active st) (was_first_sync st) (db_sync_state st)
    (first_unsync_change st) (server_sync_state st) (last_server_sync st)
    (pending_get_top_dialogs st) (by_category st) d.

(** Assignment to one slot, [by_category_[pos] = top_dialogs]. *)
Definition update_category (st : State) (category : TopDialogCategory)
    (top_dialogs : TopDialogs) : State :=
  set_by_category st
    (fun c => if TopDialogCategory_eqb c category then top_dialogs
              else by_category st c).

(** Declarations of TopDialogManager.h, which is not part of this translation
    unit: the three constants, and [operator<] of [TopDialog], which
    [on_dialog_used] applies as [*next < *it]. *)
Record Config : Type := mkConfig {
  MAX_TOP_DIALOGS_LIMIT : nat;
  SERVER_SYNC_DELAY : R;
  DB_SYNC_DELAY : R;
  top_dialog_lt : TopDialog -> TopDialog -> bool
}.

(** Modelled from the spec: [operator<] of [TopDialog] (TopDialogManager.h).
    The specification orders entries "higher rating first" and lets an updated
    entry pass "any strictly-smaller-or-equal predecessor": the predecessor
    stays in front only when its rating is strictly higher. *)
Definition top_dialog_lt_by_rating (a b : TopDialog) : bool :=
  Rltb (rating b) (rating a).

(** ** Snapshot fields *)

(** Modelled from the spec: the primitive storers and parsers of
    td/utils/tl_helpers.h are not part of this translation unit.  A stored
    snapshot is kept at the granularity of its fields: a float64, an entry
    count, an entity reference. *)
Inductive Field : Type :=
| F_double (x : R)
| F_count (n : nat)
| F_dialog_id (d : DialogId).

(** ** Environment and effects *)

(** What a handler reads from outside the manager while it runs. *)
Record Env : Type := mkEnv {
  Time_now : R;                      (* Timestamp::now() *)
  Time_now_cached : R;               (* Time::now_cached() *)
  server_time_cached : R;            (* G()->server_time_cached() *)
  Clocks_system : R;                 (* Clocks::system() *)
  use_chat_info_db : bool;           (* G()->parameters().use_chat_info_db *)
  option_rating_e_decay : option Z;  (* shared option "rating_e_decay" *)
  pmc_top_dialogs_ts : option Z;     (* to_integer<uint32> of "top_dialogs_ts",
                                        [None] when the value is empty *)
  pmc_get : string -> list Field;    (* binlog_pmc->get(key); [[]] is empty *)
  is_user_deleted : UserId -> bool;  (* contacts_manager_->is_user_deleted *)
  get_my_id : UserId                 (* contacts_manager_->get_my_id *)
}.

Inductive LogLine : Type :=
| LogUpdateRating (category : TopDialogCategory) (d : DialogId) (delta : R)
| LogRemoveRating (category : TopDialogCategory) (d : DialogId)
| LogSendGetTopPeers
| LogGetTopPeersFailed
| LogGetTopPeersReturned
| LogSaveTopChats
| LogWakeupIn (wakeup : R)
| LogWakeupNever.

Definition InputPeer : Type := Z.

Inductive Effect : Type :=
| Log (line : LogLine)
| PmcSet (key : string) (value : list Field)
| PmcSetTopDialogsTs (system : R)
| PmcEraseByPrefix (prefix : string)
| SendResetTopPeerRating (category : TopDialogCategory) (peer : InputPeer)
| SendGetTopPeers (ids : list Z)
| LoadDialogs (dialog_ids : list DialogId) (limit : nat) (promise : PromiseId)
| PromiseSetError (promise : PromiseId) (code : Z)
| OnGetUsers
| OnGetChats
| WaitFirstSync
| SetTimeoutAt (wakeup : R)
| CancelTimeout.

(** The result of a handler that may end in a fatal check. *)
Inductive Outcome (A : Type) : Type :=
| Done (a : A)
| Fatal.
Arguments Fatal {A}.

(** ** Decay function *)

(** [TopDialogManager::rating_add]; [rating_e_decay] is the member
    [rating_e_decay_]. *)
Definition rating_add (rating_e_decay : R) (now rating_timestamp : R) : R :=
  exp ((now - rating_timestamp) / rating_e_decay).

(** [TopDialogManager::current_rating_add] *)
Definition current_rating_add (env : Env) (st : State)
    (rating_timestamp : R) : R :=
  rating_add (rating_e_decay st) (server_time_cached env) rating_timestamp.

(** The body of the outer loop of [normalize_rating] for one slot. *)
Definition normalize_top_dialogs (env : Env) (st : State)
    (top_dialogs : TopDialogs) : TopDialogs :=
  let div_by := current_rating_add env st (rating_timestamp top_dialogs) in
  mkTopDialogs true (server_time_cached env)
    (map (fun dialog =>
            mkTopDialog (dialog_id dialog) (rating dialog / div_by))
         (dialogs top_dialogs)).

(** [TopDialogManager::normalize_rating] *)
Definition normalize_rating (env : Env) (st : State) : State :=
  set_db_sync_state
    (set_by_category st
       (fun c => normalize_top_dialogs env st (by_category st c)))
    SyncNone.

(** ** Snapshot codec *)

(** The [store] and [parse] overloads of this file are templates over the
    storer and the parser.  A storer appends to a sequence of tokens (bytes in
    the running program), a parser consumes a prefix of one or fails.  The
    overloads for [double], [DialogId] and the element count of a vector come
    from headers outside this translation unit and form the interface
    below. *)
Definition ParserM (Tok A : Type) : Type := list Tok -> option (A * list Tok).

Definition parser_ret {Tok A : Type} (a : A) : ParserM Tok A :=
  fun input => Some (a, input).

Definition parser_bind {Tok A B : Type} (m : ParserM Tok A)
    (k : A -> ParserM Tok B) : ParserM Tok B :=
  fun input =>
    match m input with
    | Some (a, rest) => k a rest
    | None => None
    end.

Declare Scope parser_scope.
Delimit Scope parser_scope with parser.
Notation "x <- m ;; k" := (parser_bind m (fun x => k))
  (at level 61, m at next level, right associativity) : parser_scope.

Class Primitives (Tok : Type) : Type := {
  store_double : R -> list Tok;
  parse_double : ParserM Tok R;
  store_dialog_id : DialogId -> list Tok;
  parse_dialog_id : ParserM Tok DialogId;
  store_count : nat -> list Tok;
  parse_count : ParserM Tok nat
}.

(** Each primitive parser reads back what its storer wrote and leaves the
    rest of the input. *)
Class PrimitivesRoundTrip (Tok : Type) (prim : Primitives Tok) : Prop := {
  parse_store_double : forall x rest,
    parse_double (store_double x ++ rest) = Some (x, rest);
  parse_store_dialog_id : forall d rest,
    parse_dialog_id (store_dialog_id d ++ rest) = Some (d, rest);
  parse_store_count : forall n rest,
    parse_count (store_count n ++ rest) = Some (n, rest)
}.

Section Codec.
Context {Tok : Type} {prim : Primitives Tok}.
Local Open Scope parser_scope.

(** [store(const TopDialogManager::TopDialog &, T &storer)] *)
Definition store_TopDialog (top_dialog : TopDialog) : list Tok :=
  store_dialog_id (dialog_id top_dialog) ++ store_double (rating top_dialog).

(** [parse(TopDialogManager::TopDialog &, T &parser)] *)
Definition parse_TopDialog : ParserM Tok TopDialog :=
  d <- parse_dialog_id ;;
  r <- parse_double ;;
  parser_ret (mkTopDialog d r).

(** Modelled from the spec: [td::store] and [td::parse] for [vector<T>]
    (td/utils/tl_helpers.h) are not part of this translation unit; the
    specification gives the layout as the entry count followed by each
    entry in order. *)
Definition store_vector {A : Type} (store_elem : A -> list Tok)
    (vec : list A) : list Tok :=
  store_count (length vec) ++ flat_map store_elem vec.

Fixpoint parse_elements {A : Type} (parse_elem : ParserM Tok A) (n : nat)
    : ParserM Tok (list A) :=
  match n with
  | O => parser_ret []
  | S n' =>
      x <- parse_elem ;;
      xs <- parse_elements parse_elem n' ;;
      parser_ret (x :: xs)
  end.

Definition parse_vector {A : Type} (parse_elem : ParserM Tok A)
    : ParserM Tok (list A) :=
  n <- parse_count ;;
  parse_elements parse_elem n.

(** [store(const TopDialogManager::TopDialogs &, T &storer)] *)
Definition store_TopDialogs (top_dialogs : TopDialogs) : list Tok :=
  store_double (rating_timestamp top_dialogs)
    ++ store_vector store_TopDialog (dialogs top_dialogs).

(** [parse(TopDialogManager::TopDialogs &, T &parser)]: parses into an
    existing object, whose [is_dirty] it does not touch. *)
Definition parse_TopDialogs (top_dialogs : TopDialogs)
    : ParserM Tok TopDialogs :=
  ts <- parse_double ;;
  ds <- parse_vector parse_TopDialog ;;
  parser_ret (mkTopDialogs (is_dirty top_dialogs) ts ds).

(** Modelled from the spec: [log_event_store] and [log_event_parse]
    (td/telegram/logevent/LogEvent.h) are not part of this translation
    unit.  The stored value is the encoding of the object; decoding rejects
    truncated or malformed input, and input with data left over, with an
    error status ([None]). *)
Definition log_event_store (top_dialogs : TopDialogs) : list Tok :=
  store_TopDialogs top_dialogs.

Definition log_event_parse (top_dialogs : TopDialogs) (value : list Tok)
    : option TopDialogs :=
  match parse_TopDialogs top_dialogs value with
  | Some (parsed, []) => Some parsed
  | _ => None
  end.
End Codec.

(** The field-level token stream used for the values kept in the key-value
    store. *)
#[export] Instance FieldPrimitives : Primitives Field := {
  store_double x := [F_double x];
  parse_double input :=
    match input with F_double x :: rest => Some (x, rest) | _ => None end;
  store_dialog_id d := [F_dialog_id d];
  parse_dialog_id input :=
    match input with F_dialog_id d :: rest => Some (d, rest) | _ => None end;
  store_count n := [F_count n];
  parse_count input :=
    match input with F_count n :: rest => Some (n, rest) | _ => None end
}.

(** ** Ranking store *)

(** [std::find_if(dialogs.begin(), dialogs.end(), ... dialog_id == id)].  The
    iterator it returns is a position in the vector: the elements before it
    (nearest first), the element it points to, the elements after it.  [None]
    is [dialogs.end()]. *)
Fixpoint find_if (id : DialogId) (rev_before : list TopDialog)
    (v : list TopDialog)
    : option (list TopDialog * TopDialog * list TopDialog) :=
  match v with
  | [] => None
  | x :: after =>
      if DialogId_eqb (dialog_id x) id then Some (rev_before, x, after)
      else find_if id (x :: rev_before) after
  end.

(** The [while] loop of [on_dialog_used].  [rev_before] is empty exactly when
    [it == dialogs.begin()]; its head is [*std::prev(it)].  Swapping [*next]
    and [*it] and stepping [it] back moves the predecessor behind the
    updated entry. *)
Fixpoint bubble_up (cfg : Config) (rev_before : list TopDialog)
    (it : TopDialog) (after : list TopDialog) : list TopDialog :=
  match rev_before with
  | [] => it :: after
  | next :: rev_before' =>
      if top_dialog_lt cfg next it then rev rev_before ++ it :: after
      else bubble_up cfg rev_before' it (next :: after)
  end.

(** Lines 101-120 of [on_dialog_used]: the update of one slot.  An entry
    pushed for a new identifier starts at the default rating, 0. *)
Definition use_dialog (cfg : Config) (rating_e_decay : R)
    (top_dialogs : TopDialogs) (id : DialogId) (date : Z) : TopDialogs :=
  let '(rev_before, it, after) :=
    match find_if id [] (dialogs top_dialogs) with
    | Some position => position
    | None => (rev (dialogs top_dialogs), mkTopDialog id 0, [])
    end in
  let delta :=
    rating_add rating_e_decay (IZR date) (rating_timestamp top_dialogs) in
  let it := mkTopDialog (dialog_id it) (rating it + delta) in
  mkTopDialogs true (rating_timestamp top_dialogs)
    (bubble_up cfg rev_before it after).

(** [if (!first_unsync_change_) first_unsync_change_ = now_cached()] *)
Definition stamp_first_unsync_change (env : Env) (st : State) : State :=
  if Timestamp_bool (first_unsync_change st) then st
  else set_first_unsync_change st (Some (Time_now_cached env)).

(** [dialogs.erase(it)] at the position found by [find_if]. *)
Definition erase (position : list TopDialog * TopDialog * list TopDialog)
    : list TopDialog :=
  let '(rev_before, _, after) := position in rev rev_before ++ after.

(** ** Query service *)

(** [std::min({query.limit, MAX_TOP_DIALOGS_LIMIT, dialogs.size()})] *)
Definition top_dialogs_limit (cfg : Config) (st : State)
    (query : GetTopDialogsQuery) : nat :=
  Nat.min (query_limit query)
    (Nat.min (MAX_TOP_DIALOGS_LIMIT cfg)
       (length (dialogs (by_category st (query_category query))))).

(** [TopDialogManager::do_get_top_dialogs]: the snapshot of identifiers and
    the limit are captured by the promise handed to [load_dialogs]. *)
Definition do_get_top_dialogs (cfg : Config) (st : State)
    (query : GetTopDialogsQuery) : Effect :=
  LoadDialogs
    (map dialog_id (dialogs (by_category st (query_category query))))
    (top_dialogs_limit cfg st query)
    (query_promise query).

(** The two [continue] tests of the promise's loop. *)
Definition skip_dialog (env : Env) (d : DialogId) : bool :=
  match get_type d with
  | DT_User =>
      is_user_deleted env (get_user_id d)
      || Z.eqb (get_my_id env) (get_user_id d)
  | _ => false
  end.

(** The [for] loop of the promise created in [do_get_top_dialogs]; [result]
    is the vector built so far. *)
Fixpoint collect_top_dialogs (env : Env) (limit : nat)
    (dialog_ids result : list DialogId) : list DialogId :=
  match dialog_ids with
  | [] => result
  | d :: rest =>
      if skip_dialog env d then collect_top_dialogs env limit rest result
      else
        let result := result ++ [d] in
        if Nat.eqb (length result) limit then result
        else collect_top_dialogs env limit rest result
  end.

(** The value the promise of a query is set to: [env] is read when
    [load_dialogs] completes, the state when the query was drained. *)
Definition get_top_dialogs_result (cfg : Config) (env : Env) (st : State)
    (query : GetTopDialogsQuery) : list DialogId :=
  collect_top_dialogs env (top_dialogs_limit cfg st query)
    (map dialog_id (dialogs (by_category st (query_category query)))) [].

(** ** Durable store keys *)

(** [PSTRING() << "top_dialogs#" << top_dialog_category_name(category)] *)
Definition top_dialogs_key (category : TopDialogCategory) : string :=
  String.append "top_dialogs#" (top_dialog_category_name category).

(** ** Remote sync client *)

(** [telegram_api::TopPeerCategory] and the two conversions. *)
Inductive TopPeerCategory : Type :=
| topPeerCategoryCorrespondents
| topPeerCategoryBotsPM
| topPeerCategoryBotsInline
| topPeerCategoryGroups
| topPeerCategoryChannels
| topPeerCategoryPhoneCalls.

Definition top_dialog_category_from_telegram_api (category : TopPeerCategory)
    : TopDialogCategory :=
  match category with
  | topPeerCategoryCorrespondents => Correspondent
  | topPeerCategoryBotsPM => BotPM
  | topPeerCategoryBotsInline => BotInline
  | topPeerCategoryGroups => Group
  | topPeerCategoryChannels => Channel
  | topPeerCategoryPhoneCalls => Call
  end.

Definition top_dialog_category_as_telegram_api (category : TopDialogCategory)
    : TopPeerCategory :=
  match category with
  | Correspondent => topPeerCategoryCorrespondents
  | BotPM => topPeerCategoryBotsPM
  | BotInline => topPeerCategoryBotsInline
  | Group => topPeerCategoryGroups
  | Channel => topPeerCategoryChannels
  | Call => topPeerCategoryPhoneCalls
  end.

(** [telegram_api::topPeer] and [telegram_api::topPeerCategoryPeers], with
    the peer already converted by [DialogId(top_peer->peer_)]. *)
Record TopPeer : Type := mkTopPeer { peer_ : DialogId; rating_ : R }.

Record TopPeerCategoryPeers : Type := mkTopPeerCategoryPeers {
  category_ : TopPeerCategory;
  peers_ : list TopPeer
}.

(** What [fetch_result<contacts_getTopPeers>] yields. *)
Inductive FetchResult : Type :=
| FetchError
| TopPeersNotModified
| TopPeers (categories_ : list TopPeerCategoryPeers).

(** The identifiers [do_get_top_peers] hashes, for one slot. *)
Definition top_peer_ids (top_dialogs : TopDialogs) : list Z :=
  flat_map
    (fun top_dialog =>
       match get_type (dialog_id top_dialog) with
       | DT_Channel | DT_User | DT_Chat => [get_id (dialog_id top_dialog)]
       | _ => []
       end)
    (dialogs top_dialogs).

(** [TopDialogManager::do_get_top_peers]; the query is identified by the
    list of identifiers its hash is computed from. *)
Definition do_get_top_peers (st : State) : list Effect :=
  [Log LogSendGetTopPeers;
   SendGetTopPeers
     (flat_map (fun c => top_peer_ids (by_category st c)) all_categories)].

(** The body of the loop over [top_peers->categories_] in [on_result]. *)
Definition replace_category (st : State) (category : TopPeerCategoryPeers)
    : State :=
  let dialog_category :=
    top_dialog_category_from_telegram_api (category_ category) in
  update_category st dialog_category
    (mkTopDialogs true
       (rating_timestamp (by_category st dialog_category))
       (map (fun top_peer =>
               mkTopDialog (peer_ top_peer) (rating_ top_peer))
            (peers_ category))).

(** ** Sync scheduler *)

(** The loop of [do_save_top_dialogs] over the slots [cs]. *)
Fixpoint save_categories (cs : list TopDialogCategory) (st : State)
    : State * list Effect :=
  match cs with
  | [] => (st, [])
  | c :: cs' =>
      let top_dialogs := by_category st c in
      if negb (is_dirty top_dialogs) then save_categories cs' st
      else
        let top_dialogs :=
          mkTopDialogs false (rating_timestamp top_dialogs)
            (dialogs top_dialogs) in
        let '(st', effects) :=
          save_categories cs' (update_category st c top_dialogs) in
        (st', PmcSet (top_dialogs_key c) (log_event_store top_dialogs)
                :: effects)
  end.

(** [TopDialogManager::do_save_top_dialogs] *)
Definition do_save_top_dialogs (st : State) : State * list Effect :=
  let '(st, effects) := save_categories all_categories st in
  (set_first_unsync_change (set_db_sync_state st SyncOk) None,
   Log LogSaveTopChats :: effects).

(** [Timestamp::is_in_past] *)
Definition is_in_past (env : Env) (t : Timestamp) : bool :=
  Rleb (Timestamp_at t) (Time_now_cached env).

(** [loop], "server sync", first [if]: the deadline of the remote state, and
    the demotion when it has passed. *)
Definition loop_server_timeout (cfg : Config) (env : Env) (st : State)
    : State * Timestamp :=
  match server_sync_state st with
  | SyncOk =>
      let server_sync_timeout :=
        Some (Timestamp_at (last_server_sync st) + SERVER_SYNC_DELAY cfg)%R in
      if is_in_past env server_sync_timeout
      then (set_server_sync_state st SyncNone, server_sync_timeout)
      else (st, server_sync_timeout)
  | _ => (st, None)
  end.

(** [loop], "server sync", second [if]: relax the wake-up or start a fetch.
    Returns the state, [wakeup_timeout] and the effects. *)
Definition loop_server_sync (st : State) (server_sync_timeout : Timestamp)
    : State * Timestamp * list Effect :=
  match server_sync_state st with
  | SyncOk => (st, Timestamp_relax None server_sync_timeout, [])
  | SyncNone =>
      if was_first_sync st
      then (set_server_sync_state st SyncPending, None, do_get_top_peers st)
      else (st, None, [])
  | SyncPending => (st, None, [])
  end.

(** [loop], "db sync", first [if]: the debounce deadline. *)
Definition loop_db_timeout (cfg : Config) (env : Env) (st : State)
    : State * Timestamp :=
  match db_sync_state st with
  | SyncOk =>
      if Timestamp_bool (first_unsync_change st) then
        let db_sync_timeout :=
          Some (Timestamp_at (first_unsync_change st) + DB_SYNC_DELAY cfg)%R in
        if is_in_past env db_sync_timeout
        then (set_db_sync_state st SyncNone, db_sync_timeout)
        else (st, db_sync_timeout)
      else (st, None)
  | _ => (st, None)
  end.

(** [loop], "db sync", second [if]: relax the wake-up or flush. *)
Definition loop_db_sync (st : State) (wakeup_timeout db_sync_timeout : Timestamp)
    : State * Timestamp * list Effect :=
  match db_sync_state st with
  | SyncOk => (st, Timestamp_relax wakeup_timeout db_sync_timeout, [])
  | SyncNone =>
      match server_sync_state st with
      | SyncOk =>
          let '(st', effects) := do_save_top_dialogs st in
          (st', wakeup_timeout, effects)
      | _ => (st, wakeup_timeout, [])
      end
  | SyncPending => (st, wakeup_timeout, [])
  end.

(** [loop], the final [if]: arm or cancel the timer. *)
Definition loop_timer (env : Env) (wakeup_timeout : Timestamp) : list Effect :=
  match wakeup_timeout with
  | Some wakeup => [Log (LogWakeupIn (wakeup - Time_now env)); SetTimeoutAt wakeup]
  | None => [Log LogWakeupNever; CancelTimeout]
  end.

(** [TopDialogManager::loop] *)
Definition loop (cfg : Config) (env : Env) (st : State)
    : State * list Effect :=
  if negb (is_active st) then (st, [])
  else
    let effects_queries :=
      map (do_get_top_dialogs cfg st) (pending_get_top_dialogs st) in
    let st := set_pending_get_top_dialogs st [] in
    let '(st, server_sync_timeout) := loop_server_timeout cfg env st in
    let '(st, wakeup_timeout, effects_server) :=
      loop_server_sync st server_sync_timeout in
    let '(st, db_sync_timeout) := loop_db_timeout cfg env st in
    let '(st, wakeup_timeout, effects_db) :=
      loop_db_sync st wakeup_timeout db_sync_timeout in
    (st, effects_queries ++ effects_server ++ effects_db
           ++ loop_timer env wakeup_timeout).

(** ** Handlers *)

(** [TopDialogManager::on_dialog_used] *)
Definition on_dialog_used (cfg : Config) (env : Env) (st : State)
    (category : TopDialogCategory) (id : DialogId) (date : Z)
    : State * list Effect :=
  if negb (is_active st) then (st, [])
  else
    let top_dialogs := by_category st category in
    let delta :=
      rating_add (rating_e_decay st) (IZR date)
        (rating_timestamp top_dialogs) in
    let st :=
      update_category st category
        (use_dialog cfg (rating_e_decay st) top_dialogs id date) in
    let st := stamp_first_unsync_change env st in
    let '(st, effects) := loop cfg env st in
    (st, Log (LogUpdateRating category id delta) :: effects).

(** Lines 155-159 of [remove_dialog]: the update made once the entry is
    found, up to the call of [loop]. *)
Definition erase_dialog (env : Env) (st : State)
    (category : TopDialogCategory)
    (it : list TopDialog * TopDialog * list TopDialog) : State :=
  let top_dialogs := by_category st category in
  stamp_first_unsync_change env
    (update_category st category
       (mkTopDialogs true (rating_timestamp top_dialogs) (erase it))).

(** [TopDialogManager::remove_dialog]; [input_peer = None] is [nullptr]. *)
Definition remove_dialog (cfg : Config) (env : Env) (st : State)
    (category : TopDialogCategory) (id : DialogId)
    (input_peer : option InputPeer) : State * list Effect :=
  if negb (is_active st) then (st, [])
  else
    let top_dialogs := by_category st category in
    let effects_reset :=
      match input_peer with
      | Some p => [SendResetTopPeerRating category p]
      | None => []
      end in
    match find_if id [] (dialogs top_dialogs) with
    | None => (st, Log (LogRemoveRating category id) :: effects_reset)
    | Some it =>
        let '(st, effects) := loop cfg env (erase_dialog env st category it) in
        (st, Log (LogRemoveRating category id) :: effects_reset ++ effects)
    end.

(** [TopDialogManager::get_top_dialogs] *)
Definition get_top_dialogs (cfg : Config) (env : Env) (st : State)
    (category : TopDialogCategory) (limit : nat) (promise : PromiseId)
    : State * list Effect :=
  if negb (is_active st) then (st, [PromiseSetError promise 400])
  else
    loop cfg env
      (set_pending_get_top_dialogs st
         (pending_get_top_dialogs st ++ [mkQuery category limit promise])).

(** [TopDialogManager::update_rating_e_decay] *)
Definition update_rating_e_decay (env : Env) (st : State) : State :=
  if negb (is_active st) then st
  else
    match option_rating_e_decay env with
    | Some value => set_rating_e_decay st (IZR value)
    | None => st
    end.

(** [TopDialogManager::on_result]; the [SCOPE_EXIT] guard runs [loop] on
    every path that leaves the function after the link-token test. *)
Definition on_result (cfg : Config) (env : Env) (st : State)
    (link_token : Z) (r_top_peers : FetchResult) : State * list Effect :=
  if Z.eqb link_token 1 then (st, [])
  else
    let st := normalize_rating env st in
    let st := set_last_server_sync st (Some (Time_now env)) in
    let st := set_server_sync_state st SyncOk in
    let '(st, effects) :=
      match r_top_peers with
      | FetchError => (st, [Log LogGetTopPeersFailed])
      | TopPeersNotModified => (st, [Log LogGetTopPeersReturned])
      | TopPeers categories =>
          (set_db_sync_state (fold_left replace_category categories st)
             SyncNone,
           [Log LogGetTopPeersReturned; OnGetUsers; OnGetChats])
      end in
    let '(st, effects_loop) := loop cfg env st in
    (st, PmcSetTopDialogsTs (Clocks_system env) :: effects ++ effects_loop).

(** The loop of [start_up] over the slots [cs].  [Status::ensure] (declared
    in td/utils/Status.h) is a [const] member returning [void]: it cannot
    repair [top_dialogs], and it is the library's fatal check, which ends the
    process when the status is an error. *)
Fixpoint load_categories (env : Env) (cs : list TopDialogCategory)
    (st : State) : Outcome State :=
  match cs with
  | [] => Done st
  | c :: cs' =>
      let value := pmc_get env (top_dialogs_key c) in
      let top_dialogs := by_category st c in
      let top_dialogs :=
        mkTopDialogs false (rating_timestamp top_dialogs)
          (dialogs top_dialogs) in
      let st := update_category st c top_dialogs in
      match value with
      | [] => load_categories env cs' st
      | _ =>
          match log_event_parse top_dialogs value with
          | Some parsed => load_categories env cs' (update_category st c parsed)
          | None => Fatal
          end
      end
  end.

(** [TopDialogManager::start_up] *)
Definition start_up (cfg : Config) (env : Env) (st : State)
    : Outcome (State * list Effect) :=
  if negb (use_chat_info_db env)
  then Done (set_is_active st false, [PmcEraseByPrefix "top_dialogs"])
  else
    let st := set_is_active st true in
    let st :=
      match pmc_top_dialogs_ts env with
      | Some ts =>
          let st :=
            set_last_server_sync st
              (Some (Time_now_cached env + (IZR ts - Clocks_system env))%R) in
          if is_in_past env (last_server_sync st)
          then set_server_sync_state st SyncOk
          else st
      | None => st
      end in
    let st := update_rating_e_decay env st in
    match load_categories env all_categories st with
    | Fatal => Fatal
    | Done st =>
        let st := normalize_rating env st in
        let st := set_db_sync_state st SyncOk in
        let '(st, effects) := loop cfg env st in
        Done (st, WaitFirstSync :: effects)
    end.

(** [TopDialogManager::on_first_sync] *)
Definition on_first_sync (cfg : Config) (env : Env) (st : State)
    : State * list Effect :=
  loop cfg env (set_was_first_sync st true).

(** ** Observations and properties of states *)

(** What the ranking of one slot consists of, apart from the dirty flag. *)
Definition entries (st : State) (c : TopDialogCategory)
    : R * list TopDialog :=
  (rating_timestamp (by_category st c), dialogs (by_category st c)).

(** Every adjacent pair has the earlier rating at least as high as the
    later one. *)
Definition descending (v : list TopDialog) : Prop :=
  Sorted (fun a b => (rating b <= rating a)%R) v.

(** Every adjacent pair has the earlier rating strictly higher than the
    later one. *)
Definition strictly_descending (v : list TopDialog) : Prop :=
  Sorted (fun a b => (rating b < rating a)%R) v.

(** What [on_dialog_used] relies on from [operator<]: an entry that compares
    less has a rating at least as high, one that does not has a rating at
    most as high. *)
Definition orders_by_rating (cfg : Config) : Prop :=
  forall a b,
    (top_dialog_lt cfg a b = true -> (rating b <= rating a)%R)
    /\ (top_dialog_lt cfg a b = false -> (rating a <= rating b)%R).

(** [a] may stand before [b]. *)
Definition rating_ge (a b : TopDialog) : Prop := (rating b <= rating a)%R.

(** The members [loop] never assigns agree in [st] and [st']. *)
Definition same_members (st st' : State) : Prop :=
  is_active st' = is_active st
  /\ was_first_sync st' = was_first_sync st
  /\ rating_e_decay st' = rating_e_decay st
  /\ last_server_sync st' = last_server_sync st.

(** The durable flush, [do_save_top_dialogs], ran: its log line is among the
    effects. *)
Definition flush_ran (effects : list Effect) : Prop :=
  In (Log LogSaveTopChats) effects.

(** The effects of the other parts of [loop] are not those of a flush. *)
Definition not_flush_effect (e : Effect) : Prop :=
  e <> Log LogSaveTopChats /\ forall key value, e <> PmcSet key value.

(** One call of [on_dialog_used]: the environment it runs in and its
    arguments. *)
Record UsageEvent : Type := mkUsageEvent {
  usage_env : Env;
  usage_dialog : DialogId;
  usage_date : Z
}.

(** The states observed after each of a sequence of [on_dialog_used] calls
    on one category. *)
Fixpoint record_usages (cfg : Config) (st : State)
    (category : TopDialogCategory) (events : list UsageEvent) : list State :=
  match events with
  | [] => []
  | e :: events' =>
      let st' :=
        fst (on_dialog_used cfg (usage_env e) st category (usage_dialog e)
               (usage_date e)) in
      st' :: record_usages cfg st' category events'
  end.

(** ** Example values *)

(** Example values for the constants of TopDialogManager.h. *)
Definition example_config : Config :=
  mkConfig 30 86400 5 top_dialog_lt_by_rating.

Definition example_env : Env :=
  mkEnv 1000 1000 1000 1000 true None None (fun _ => []) (fun _ => false) 0%Z.

Definition empty_top_dialogs : TopDialogs := mkTopDialogs false 0 [].

(** An active manager with empty rankings, remote state [remote]. *)
Definition example_state (remote : SyncState) : State :=
  mkState true true SyncOk None remote (Some 1000%R) []
    (fun _ => empty_top_dialogs) 241920.

Definition user (id : Z) : DialogId := mkDialogId DT_User id.
Definition chat (id : Z) : DialogId := mkDialogId DT_Chat id.

(** Two entities used at the same instant. *)
Definition tied_usages : list UsageEvent :=
  [mkUsageEvent example_env (user 1) 1000;
   mkUsageEvent example_env (user 2) 1000].

(** An active manager whose remote state is [Ok] and fresh, with unsaved
    data: one entry in [Group]. *)
Definition unsaved_state : State :=
  mkState true true SyncNone (Some 990%R) SyncOk (Some 1000%R) []
    (fun c =>
       match c with
       | Group => mkTopDialogs true 0 [mkTopDialog (chat 7) 2]
       | _ => empty_top_dialogs
       end)
    241920.

(** The entities the promise's loop does not skip. *)
Definition keep_dialog (env : Env) (d : DialogId) : bool :=
  negb (skip_dialog env d).

(** An active manager with three ranked entries in [Group]. *)
Definition ranked_state : State :=
  mkState true true SyncOk None SyncOk (Some 1000%R) []
    (fun c =>
       match c with
       | Group =>
           mkTopDialogs false 0
             [mkTopDialog (user 1) 5; mkTopDialog (chat 7) 3;
              mkTopDialog (user 2) 1]
       | _ => empty_top_dialogs
       end)
    241920.

(** An oracle that reports every identifier deleted and 7 as the own
    identity. *)
Definition all_deleted_env : Env :=
  mkEnv 1000 1000 1000 1000 true None None (fun _ => []) (fun _ => true) 7%Z.

(** A ranking with a zero, a large and a small rating. *)
Definition sample_top_dialogs : TopDialogs :=
  mkTopDialogs false 1500000000
    [mkTopDialog (user 1) 179769313486231570000;
     mkTopDialog (chat 7) (/ 179769313486231570000);
     mkTopDialog (user 2) 0].

(** The state [on_result] hands to [loop] when the response carries no new
    content (an error, or "not modified"). *)
Definition synced_without_content (env : Env) (st : State) : State :=
  set_server_sync_state
    (set_last_server_sync (normalize_rating env st) (Some (Time_now env)))
    SyncOk.

(** The entries of a slot after [normalize_rating]. *)
Definition normalized_dialogs (env : Env) (st : State)
    (c : TopDialogCategory) : list TopDialog :=
  map (fun dialog =>
         mkTopDialog (dialog_id dialog)
           (rating dialog
            / current_rating_add env st
                (rating_timestamp (by_category st c))))
      (dialogs (by_category st c)).

(** The environment a thousand seconds after [example_env]. *)
Definition later_env : Env :=
  mkEnv 2000 2000 2000 2000 true None None (fun _ => []) (fun _ => false) 0%Z.

(** The value the store holds for a category. *)
Definition stored (env : Env) (c : TopDialogCategory) : list Field :=
  pmc_get env (top_dialogs_key c).

(** What decoding a stored value yields, apart from the dirty flag of the
    object decoded into. *)
Definition decode_snapshot (value : list Field)
    : option (R * list TopDialog) :=
  match log_event_parse empty_top_dialogs value with
  | Some parsed => Some (rating_timestamp parsed, dialogs parsed)
  | None => None
  end.

(** The ranking [start_up] loads for a category: the decoded snapshot, or
    what the slot held when no value is stored. *)
Definition loaded_entries (env : Env) (st : State) (c : TopDialogCategory)
    : R * list TopDialog :=
  match stored env c with
  | [] => entries st c
  | value =>
      match decode_snapshot value with
      | Some loaded => loaded
      | None => entries st c
      end
  end.

(** The decay constant after [update_rating_e_decay] on an active manager. *)
Definition startup_decay (env : Env) (st : State) : R :=
  match option_rating_e_decay env with
  | Some value => IZR value
  | None => rating_e_decay st
  end.

(** A ranking rescaled from its timestamp to the server time. *)
Definition rescaled (decay : R) (env : Env) (loaded : R * list TopDialog)
    : R * list TopDialog :=
  (server_time_cached env,
   map (fun dialog =>
          mkTopDialog (dialog_id dialog)
            (rating dialog
             / rating_add decay (server_time_cached env) (fst loaded)))
       (snd loaded)).

(** A manager as constructed, before [start_up]. *)
Definition fresh_state : State :=
  mkState false false SyncNone None SyncNone None []
    (fun _ => empty_top_dialogs) 241920.

(** A store that holds a complete snapshot for [Correspondent] and, for
    [Group], a snapshot that announces three entries and ends there. *)
Definition truncated_env : Env :=
  mkEnv 1000 1000 1000 1000 true None None
    (fun key =>
       if String.eqb key (top_dialogs_key Correspondent)
       then log_event_store sample_top_dialogs
       else if String.eqb key (top_dialogs_key Group)
            then [F_double 0; F_count 3]
            else [])
    (fun _ => false) 0%Z.

(** An active manager with two ranked users in [Group], ratings 5 and 3. *)
Definition two_users_state : State :=
  mkState true true SyncOk None SyncOk (Some 1000%R) []
    (fun c =>
       match c with
       | Group =>
           mkTopDialogs false 0
             [mkTopDialog (user 1) 5; mkTopDialog (user 2) 3]
       | _ => empty_top_dialogs
       end)
    241920.

(** The contents of the key-value store after a list of effects: a [PmcSet]
    overwrites one key, an erase by prefix empties the keys under the
    prefix, nothing else touches the ranking values. *)
Fixpoint store_after (effects : list Effect) (pmc : string -> list Field)
    : string -> list Field :=
  match effects with
  | [] => pmc
  | PmcSet key value :: effects' =>
      store_after effects'
        (fun k => if String.eqb k key then value else pmc k)
  | PmcEraseByPrefix prefix :: effects' =>
      store_after effects'
        (fun k => if String.prefix prefix k then [] else pmc k)
  | _ :: effects' => store_after effects' pmc
  end.

(** The write [do_save_top_dialogs] makes for a slot. *)
Definition snapshot_write (st : State) (c : TopDialogCategory) : Effect :=
  PmcSet (top_dialogs_key c) (log_event_store (by_category st c)).

(** The slots of [cs] that are dirty in [st]. *)
Definition dirty_categories (st : State) (cs : list TopDialogCategory)
    : list TopDialogCategory :=
  filter (fun c => is_dirty (by_category st c)) cs.

(** The effects that are a fetch of the top peers. *)
Definition is_fetch (e : Effect) : bool :=
  match e with
  | SendGetTopPeers _ => true
  | _ => false
  end.

(** The identifiers a fetch issued in state [st] is computed from. *)
Definition fetch_ids (st : State) : list Z :=
  flat_map (fun c => top_peer_ids (by_category st c)) all_categories.

(** A fetch is due: the first sync has been seen, and the remote state is
    [None], or [Ok] with its deadline passed. *)
Definition fetch_due (cfg : Config) (env : Env) (st : State) : Prop :=
  was_first_sync st = true
  /\ (server_sync_state st = SyncNone
      \/ (server_sync_state st = SyncOk
          /\ (Timestamp_at (last_server_sync st) + SERVER_SYNC_DELAY cfg
              <= Time_now_cached env)%R)).

(** The remote state is [Ok] and its deadline lies ahead. *)
Definition server_fresh (cfg : Config) (env : Env) (st : State) : Prop :=
  server_sync_state st = SyncOk
  /\ (Time_now_cached env
      < Timestamp_at (last_server_sync st) + SERVER_SYNC_DELAY cfg)%R.

(** The durable state asks for a flush: it is [None], or [Ok] with a first
    unsaved change whose debounce delay has passed. *)
Definition flush_due (cfg : Config) (env : Env) (st : State) : Prop :=
  db_sync_state st = SyncNone
  \/ (db_sync_state st = SyncOk
      /\ exists t,
           first_unsync_change st = Some t
           /\ (t + DB_SYNC_DELAY cfg <= Time_now_cached env)%R).

(** The part of [loop] an effect comes from. *)
Inductive EffectKind : Type :=
| QueryEffect | FetchEffect | StoreEffect | TimerEffect | OtherEffect.

Definition effect_kind (e : Effect) : EffectKind :=
  match e with
  | LoadDialogs _ _ _ => QueryEffect
  | Log LogSendGetTopPeers | SendGetTopPeers _ => FetchEffect
  | Log LogSaveTopChats | PmcSet _ _ => StoreEffect
  | Log (LogWakeupIn _) | Log LogWakeupNever
  | SetTimeoutAt _ | CancelTimeout => TimerEffect
  | _ => OtherEffect
  end.

(** An active manager whose remote state is fresh and whose first unsaved
    change is two seconds old. *)
Definition debounced_state : State :=
  mkState true true SyncOk (Some 998%R) SyncOk (Some 1000%R) []
    (fun c =>
       match c with
       | Group => mkTopDialogs true 0 [mkTopDialog (chat 7) 2]
       | _ => empty_top_dialogs
       end)
    241920.

(** The entry of a response that decides a category: the last one whose
    category converts to it. *)
Definition response_for (categories : list TopPeerCategoryPeers)
    (c : TopDialogCategory) : option TopPeerCategoryPeers :=
  find
    (fun category =>
       TopDialogCategory_eqb
         (top_dialog_category_from_telegram_api (category_ category)) c)
    (rev categories).

(** The entries built from the peers of a response. *)
Definition peers_as_dialogs (category : TopPeerCategoryPeers)
    : list TopDialog :=
  map (fun top_peer => mkTopDialog (peer_ top_peer) (rating_ top_peer))
      (peers_ category).

(** A response that empties [Group] and gives [Channel] one entry. *)
Definition sample_response : list TopPeerCategoryPeers :=
  [mkTopPeerCategoryPeers topPeerCategoryGroups [];
   mkTopPeerCategoryPeers topPeerCategoryChannels
     [mkTopPeer (mkDialogId DT_Channel 42) 8]].

(** * Part II: theorems *)

(** ** Basic facts *)

Lemma Rltb_true (a b : R) : Rltb a b = true <-> (a < b)%R.
Proof. unfold Rltb; destruct (Rlt_dec a b); split; intros; easy. Qed.

Lemma Rltb_false (a b : R) : Rltb a b = false <-> (b <= a)%R.
Proof.
  unfold Rltb; destruct (Rlt_dec a b); split; intros; try easy; lra.
Qed.

Lemma Rleb_true (a b : R) : Rleb a b = true <-> (a <= b)%R.
Proof. unfold Rleb; destruct (Rle_dec a b); split; intros; easy. Qed.

Lemma Rleb_false (a b : R) : Rleb a b = false <-> (b < a)%R.
Proof.
  unfold Rleb; destruct (Rle_dec a b); split; intros; try easy; lra.
Qed.

(** Decide the real comparisons left in the goal by [lra]. *)
Ltac real_cases :=
  repeat match goal with
         | |- context [Rltb ?a ?b] =>
             first [ replace (Rltb a b) with true
                       by (symmetry; apply Rltb_true; lra)
                   | replace (Rltb a b) with false
                       by (symmetry; apply Rltb_false; lra) ]
         | |- context [Rleb ?a ?b] =>
             first [ replace (Rleb a b) with true
                       by (symmetry; apply Rleb_true; lra)
                   | replace (Rleb a b) with false
                       by (symmetry; apply Rleb_false; lra) ]
         end.

Lemma TopDialogCategory_eqb_eq (a b : TopDialogCategory) :
  TopDialogCategory_eqb a b = true <-> a = b.
Proof. destruct a, b; simpl; split; intros; congruence. Qed.

Lemma TopDialogCategory_eqb_refl (a : TopDialogCategory) :
  TopDialogCategory_eqb a a = true.
Proof. now destruct a. Qed.

Lemma TopDialogCategory_eqb_neq (a b : TopDialogCategory) :
  a <> b -> TopDialogCategory_eqb a b = false.
Proof. destruct a, b; simpl; intros; congruence. Qed.

Lemma all_categories_complete (c : TopDialogCategory) : In c all_categories.
Proof. destruct c; simpl; tauto. Qed.

Lemma DialogType_eqb_eq (a b : DialogType) :
  DialogType_eqb a b = true <-> a = b.
Proof. destruct a, b; simpl; split; intros; congruence. Qed.

Lemma DialogId_eqb_eq (a b : DialogId) : DialogId_eqb a b = true <-> a = b.
Proof.
  destruct a as [ta ia], b as [tb ib]; unfold DialogId_eqb; simpl.
  rewrite andb_true_iff, DialogType_eqb_eq, Z.eqb_eq.
  split; [intros [-> ->]; reflexivity | intros H; inversion H; auto].
Qed.

Lemma DialogId_eqb_refl (a : DialogId) : DialogId_eqb a a = true.
Proof. now apply DialogId_eqb_eq. Qed.

Lemma update_category_same (st : State) (c : TopDialogCategory)
    (top_dialogs : TopDialogs) :
  by_category (update_category st c top_dialogs) c = top_dialogs.
Proof. simpl. now rewrite TopDialogCategory_eqb_refl. Qed.

Lemma update_category_other (st : State) (c c' : TopDialogCategory)
    (top_dialogs : TopDialogs) :
  c' <> c -> by_category (update_category st c top_dialogs) c' = by_category st c'.
Proof. intros H. simpl. now rewrite TopDialogCategory_eqb_neq. Qed.

(** ** Decay function *)

Section Decay.
Local Open Scope R_scope.

Lemma rating_add_pos (d now ts : R) : 0 < rating_add d now ts.
Proof. apply exp_pos. Qed.

Lemma rating_add_same (d ts : R) : rating_add d ts ts = 1.
Proof.
  unfold rating_add. replace ((ts - ts) / d) with 0.
  - apply exp_0.
  - unfold Rdiv. rewrite Rminus_diag. now rewrite Rmult_0_l.
Qed.

Lemma rating_add_increasing (d ts t1 t2 : R) :
  0 < d -> t1 < t2 -> rating_add d t1 ts < rating_add d t2 ts.
Proof.
  intros Hd Ht. unfold rating_add. apply exp_increasing.
  apply Rmult_lt_compat_r; [now apply Rinv_0_lt_compat | lra].
Qed.



End Decay.

(** ** Scheduler: what [loop] leaves alone *)

Lemma save_categories_entries (cs : list TopDialogCategory) (st : State)
    (c : TopDialogCategory) :
  entries (fst (save_categories cs st)) c = entries st c.
Proof.
  revert st. induction cs as [|a cs IH]; intros st; simpl; [reflexivity |].
  destruct (is_dirty (by_category st a)); simpl; [| apply IH].
  match goal with
  | |- context [save_categories cs ?s] =>
      specialize (IH s); destruct (save_categories cs s) as [st' effs]
  end.
  simpl in *. rewrite IH. unfold entries. simpl.
  destruct (TopDialogCategory_eqb c a) eqn:E; [| reflexivity].
  apply TopDialogCategory_eqb_eq in E. now subst.
Qed.

Lemma do_save_top_dialogs_entries (st : State) (c : TopDialogCategory) :
  entries (fst (do_save_top_dialogs st)) c = entries st c.
Proof.
  unfold do_save_top_dialogs.
  pose proof (save_categories_entries all_categories st c) as H.
  destruct (save_categories all_categories st) as [st' effs]. exact H.
Qed.

Lemma loop_server_timeout_by_category cfg env st :
  by_category (fst (loop_server_timeout cfg env st)) = by_category st.
Proof.
  unfold loop_server_timeout.
  destruct (server_sync_state st); try reflexivity.
  now destruct (is_in_past env _).
Qed.

Lemma loop_server_sync_by_category st t :
  by_category (fst (fst (loop_server_sync st t))) = by_category st.
Proof.
  unfold loop_server_sync.
  destruct (server_sync_state st); try reflexivity.
  now destruct (was_first_sync st).
Qed.

Lemma loop_db_timeout_by_category cfg env st :
  by_category (fst (loop_db_timeout cfg env st)) = by_category st.
Proof.
  unfold loop_db_timeout.
  destruct (db_sync_state st); try reflexivity.
  destruct (Timestamp_bool _); try reflexivity.
  now destruct (is_in_past env _).
Qed.

Lemma loop_db_sync_entries st w t c :
  entries (fst (fst (loop_db_sync st w t))) c = entries st c.
Proof.
  unfold loop_db_sync.
  destruct (db_sync_state st); try reflexivity.
  destruct (server_sync_state st); try reflexivity.
  pose proof (do_save_top_dialogs_entries st c) as H.
  destruct (do_save_top_dialogs st) as [st' effs]. exact H.
Qed.

(** [loop] changes neither a rating timestamp nor an entry list. *)
Lemma loop_entries cfg env st c :
  entries (fst (loop cfg env st)) c = entries st c.
Proof.
  unfold loop. destruct (is_active st); simpl; [| reflexivity].
  pose proof (loop_server_timeout_by_category cfg env
                (set_pending_get_top_dialogs st [])) as H1.
  destruct (loop_server_timeout cfg env _) as [st1 t1]. simpl in H1.
  pose proof (loop_server_sync_by_category st1 t1) as H2.
  destruct (loop_server_sync st1 t1) as [[st2 w2] e2]. simpl in H2.
  pose proof (loop_db_timeout_by_category cfg env st2) as H3.
  destruct (loop_db_timeout cfg env st2) as [st3 t3]. simpl in H3.
  pose proof (loop_db_sync_entries st3 w2 t3 c) as H4.
  destruct (loop_db_sync st3 w2 t3) as [[st4 w4] e4]. simpl in *.
  rewrite H4. unfold entries. now rewrite H3, H2, H1.
Qed.

Lemma loop_dialogs cfg env st c :
  dialogs (by_category (fst (loop cfg env st)) c) = dialogs (by_category st c).
Proof. exact (f_equal snd (loop_entries cfg env st c)). Qed.

Lemma loop_rating_timestamp cfg env st c :
  rating_timestamp (by_category (fst (loop cfg env st)) c)
  = rating_timestamp (by_category st c).
Proof. exact (f_equal fst (loop_entries cfg env st c)). Qed.

(** ** Ranking store: positions *)

Lemma find_if_some id rev_before v rev_before' x after :
  find_if id rev_before v = Some (rev_before', x, after) ->
  exists before,
    v = before ++ x :: after
    /\ rev_before' = rev before ++ rev_before
    /\ dialog_id x = id
    /\ Forall (fun y => dialog_id y <> id) before.
Proof.
  revert rev_before. induction v as [|y v IH]; intros rb H; simpl in H.
  - discriminate.
  - destruct (DialogId_eqb (dialog_id y) id) eqn:E.
    + inversion H; subst. exists []. apply DialogId_eqb_eq in E. auto.
    + apply IH in H. destruct H as (before & -> & -> & Hid & Hall).
      exists (y :: before). simpl. rewrite <- app_assoc. simpl.
      repeat split; auto. constructor; auto.
      intros Hy. apply DialogId_eqb_eq in Hy. congruence.
Qed.

Lemma find_if_none id rev_before v :
  find_if id rev_before v = None ->
  Forall (fun y => dialog_id y <> id) v.
Proof.
  revert rev_before. induction v as [|y v IH]; intros rb H; simpl in H.
  - constructor.
  - destruct (DialogId_eqb (dialog_id y) id) eqn:E; [discriminate |].
    constructor; [| eauto].
    intros Hy. apply DialogId_eqb_eq in Hy. congruence.
Qed.

(** ** Ranking store: order *)

Section Order.
Local Open Scope R_scope.

Lemma rating_ge_trans : Relations_1.Transitive rating_ge.
Proof. intros a b c Hab Hbc. unfold rating_ge in *. lra. Qed.

Lemma descending_strongly v : descending v <-> StronglySorted rating_ge v.
Proof.
  split.
  - apply Sorted_StronglySorted, rating_ge_trans.
  - apply StronglySorted_Sorted.
Qed.

Lemma StronglySorted_app (l1 l2 : list TopDialog) :
  StronglySorted rating_ge (l1 ++ l2) <->
  StronglySorted rating_ge l1 /\ StronglySorted rating_ge l2
  /\ (forall a b, In a l1 -> In b l2 -> rating_ge a b).
Proof.
  induction l1 as [|x l1 IH]; simpl.
  - split.
    + intros H. repeat split; auto. constructor. intros a b [].
    + tauto.
  - split.
    + intros H. apply StronglySorted_inv in H. destruct H as [H Hx].
      apply IH in H. destruct H as (H1 & H2 & H12).
      rewrite Forall_app in Hx. destruct Hx as [Hx1 Hx2].
      repeat split; auto.
      * constructor; auto.
      * intros a b [<- | Ha] Hb; [| auto].
        rewrite Forall_forall in Hx2. auto.
    + intros (H1 & H2 & H12). apply StronglySorted_inv in H1.
      destruct H1 as [H1 Hx]. constructor.
      * apply IH. repeat split; auto.
      * apply Forall_app. split; [exact Hx |].
        apply Forall_forall. intros b Hb. apply H12; auto.
Qed.

Variable cfg : Config.
Hypothesis Hlt : orders_by_rating cfg.

(** The loop invariant of the [while] of [on_dialog_used]: the vector
    without [*it] is sorted, and [*it] may stand before everything behind
    it. *)
Lemma bubble_up_sorted rev_before it after :
  StronglySorted rating_ge (rev rev_before ++ after) ->
  Forall (rating_ge it) after ->
  StronglySorted rating_ge (bubble_up cfg rev_before it after).
Proof.
  revert after. induction rev_before as [|next rb IH]; intros after Hs Hit.
  - simpl in *. now constructor.
  - simpl. destruct (top_dialog_lt cfg next it) eqn:E.
    + apply (proj1 (Hlt next it)) in E.
      simpl in Hs. apply StronglySorted_app in Hs.
      destruct Hs as (H1 & H2 & H12).
      apply StronglySorted_app. split; [exact H1 |]. split.
      * now constructor.
      * intros a b Ha [<- | Hb]; [| auto].
        apply StronglySorted_app in H1. destruct H1 as (_ & _ & H1).
        apply in_app_or in Ha. destruct Ha as [Ha | [<- | []]].
        -- specialize (H1 a next Ha (or_introl eq_refl)).
           unfold rating_ge in *. lra.
        -- exact E.
    + apply (proj2 (Hlt next it)) in E. apply IH.
      * simpl in Hs. now rewrite <- app_assoc in Hs.
      * constructor; [exact E | exact Hit].
Qed.

Lemma use_dialog_descending decay top_dialogs id date :
  descending (dialogs top_dialogs) ->
  descending (dialogs (use_dialog cfg decay top_dialogs id date)).
Proof.
  rewrite !descending_strongly. intros Hs. unfold use_dialog.
  pose proof (rating_add_pos decay (IZR date) (rating_timestamp top_dialogs))
    as Hdelta.
  destruct (find_if id [] (dialogs top_dialogs)) as [[[rb x] after]|] eqn:F.
  - apply find_if_some in F. destruct F as (before & Hv & -> & _ & _).
    simpl. rewrite Hv in Hs. apply StronglySorted_app in Hs.
    destruct Hs as (H1 & H2 & H12). apply StronglySorted_inv in H2.
    destruct H2 as [H2 Hx]. apply bubble_up_sorted.
    + rewrite app_nil_r, rev_involutive. apply StronglySorted_app.
      repeat split; auto. intros a b Ha Hb. apply H12; simpl; auto.
    + eapply Forall_impl; [| exact Hx].
      intros a Ha. unfold rating_ge in *. simpl. lra.
  - simpl. apply bubble_up_sorted; [| constructor].
    now rewrite app_nil_r, rev_involutive.
Qed.

Lemma on_dialog_used_dialogs env st category id date c :
  dialogs (by_category (fst (on_dialog_used cfg env st category id date)) c)
  = if is_active st && TopDialogCategory_eqb c category
    then dialogs (use_dialog cfg (rating_e_decay st)
                    (by_category st category) id date)
    else dialogs (by_category st c).
Proof.
  unfold on_dialog_used. destruct (is_active st); simpl; [| reflexivity].
  match goal with
  | |- context [loop cfg env ?s] =>
      pose proof (loop_dialogs cfg env s c) as H;
      destruct (loop cfg env s) as [st' effs]
  end.
  simpl in *. rewrite H. unfold stamp_first_unsync_change.
  destruct (Timestamp_bool _); simpl;
    now destruct (TopDialogCategory_eqb c category).
Qed.

Lemma on_dialog_used_descending env st category id date :
  descending (dialogs (by_category st category)) ->
  descending
    (dialogs
       (by_category (fst (on_dialog_used cfg env st category id date))
          category)).
Proof.
  intros H. rewrite on_dialog_used_dialogs.
  destruct (is_active st && _); [| exact H].
  now apply use_dialog_descending.
Qed.

(** C3, as amended.  Whatever the sequence of [on_dialog_used] calls on a
    category whose entry list is in non-increasing rating order, the list
    is again in non-increasing rating order after every call: each entry's
    rating is at least the rating of the entry behind it. *)
Theorem record_usages_descending st category events :
  descending (dialogs (by_category st category)) ->
  Forall (fun st' => descending (dialogs (by_category st' category)))
    (record_usages cfg st category events).
Proof.
  revert st. induction events as [|e events IH]; intros st H; simpl.
  - constructor.
  - pose proof (on_dialog_used_descending (usage_env e) st category
                  (usage_dialog e) (usage_date e) H) as H'.
    constructor; [exact H' | now apply IH].
Qed.
End Order.

(** ** Scheduler: the members [loop] never assigns *)

Lemma save_categories_members cs st :
  let st' := fst (save_categories cs st) in
  is_active st' = is_active st
  /\ was_first_sync st' = was_first_sync st
  /\ rating_e_decay st' = rating_e_decay st
  /\ server_sync_state st' = server_sync_state st
  /\ last_server_sync st' = last_server_sync st.
Proof.
  revert st. induction cs as [|a cs IH]; intros st; simpl; [tauto |].
  destruct (is_dirty (by_category st a)); simpl; [| apply IH].
  match goal with
  | |- context [save_categories cs ?s] =>
      specialize (IH s); destruct (save_categories cs s) as [st' effs]
  end.
  exact IH.
Qed.

Lemma do_save_top_dialogs_members st :
  let st' := fst (do_save_top_dialogs st) in
  is_active st' = is_active st
  /\ was_first_sync st' = was_first_sync st
  /\ rating_e_decay st' = rating_e_decay st
  /\ server_sync_state st' = server_sync_state st
  /\ last_server_sync st' = last_server_sync st.
Proof.
  unfold do_save_top_dialogs.
  pose proof (save_categories_members all_categories st) as H.
  destruct (save_categories all_categories st) as [st' effs]. exact H.
Qed.

Lemma same_members_refl st : same_members st st.
Proof. unfold same_members; tauto. Qed.

Lemma same_members_trans st1 st2 st3 :
  same_members st1 st2 -> same_members st2 st3 -> same_members st1 st3.
Proof. unfold same_members. intuition congruence. Qed.

Lemma loop_server_timeout_members cfg env st :
  same_members st (fst (loop_server_timeout cfg env st)).
Proof.
  unfold loop_server_timeout.
  destruct (server_sync_state st); try apply same_members_refl.
  destruct (is_in_past env _); simpl; unfold same_members; simpl; tauto.
Qed.

Lemma loop_server_sync_members st t :
  same_members st (fst (fst (loop_server_sync st t))).
Proof.
  unfold loop_server_sync.
  destruct (server_sync_state st); try apply same_members_refl.
  destruct (was_first_sync st) eqn:E; simpl; unfold same_members; simpl;
    tauto.
Qed.

Lemma loop_db_timeout_members cfg env st :
  same_members st (fst (loop_db_timeout cfg env st)).
Proof.
  unfold loop_db_timeout.
  destruct (db_sync_state st); try apply same_members_refl.
  destruct (Timestamp_bool _); try apply same_members_refl.
  destruct (is_in_past env _); simpl; unfold same_members; simpl; tauto.
Qed.

Lemma loop_db_sync_members st w t :
  same_members st (fst (fst (loop_db_sync st w t))).
Proof.
  unfold loop_db_sync.
  destruct (db_sync_state st); try apply same_members_refl.
  destruct (server_sync_state st); try apply same_members_refl.
  pose proof (do_save_top_dialogs_members st) as H.
  destruct (do_save_top_dialogs st) as [st' effs]. simpl in *.
  unfold same_members. tauto.
Qed.

Lemma loop_members cfg env st : same_members st (fst (loop cfg env st)).
Proof.
  unfold loop. destruct (is_active st) eqn:A; simpl;
    [| apply same_members_refl].
  pose proof (loop_server_timeout_members cfg env
                (set_pending_get_top_dialogs st [])) as H1.
  destruct (loop_server_timeout cfg env _) as [st1 t1]. simpl in H1.
  pose proof (loop_server_sync_members st1 t1) as H2.
  destruct (loop_server_sync st1 t1) as [[st2 w2] e2]. simpl in H2.
  pose proof (loop_db_timeout_members cfg env st2) as H3.
  destruct (loop_db_timeout cfg env st2) as [st3 t3]. simpl in H3.
  pose proof (loop_db_sync_members st3 w2 t3) as H4.
  destruct (loop_db_sync st3 w2 t3) as [[st4 w4] e4]. simpl in *.
  assert (H0 : same_members st (set_pending_get_top_dialogs st []))
    by (unfold same_members; simpl; tauto).
  eauto using same_members_trans.
Qed.

Lemma on_dialog_used_members cfg env st category id date :
  let st' := fst (on_dialog_used cfg env st category id date) in
  is_active st' = is_active st /\ rating_e_decay st' = rating_e_decay st.
Proof.
  unfold on_dialog_used. destruct (is_active st) eqn:A; simpl; [| tauto].
  match goal with
  | |- context [loop cfg env ?s] =>
      pose proof (loop_members cfg env s) as H;
      destruct (loop cfg env s) as [st' effs]
  end.
  simpl in *. destruct H as (H1 & _ & H3 & _). rewrite H1, H3.
  unfold stamp_first_unsync_change.
  destruct (Timestamp_bool _); simpl; auto.
Qed.

Lemma on_dialog_used_rating_timestamp cfg env st category id date c :
  rating_timestamp
    (by_category (fst (on_dialog_used cfg env st category id date)) c)
  = rating_timestamp (by_category st c).
Proof.
  unfold on_dialog_used. destruct (is_active st); simpl; [| reflexivity].
  match goal with
  | |- context [loop cfg env ?s] =>
      pose proof (loop_rating_timestamp cfg env s c) as H;
      destruct (loop cfg env s) as [st' effs]
  end.
  simpl in *. rewrite H. unfold stamp_first_unsync_change.
  destruct (Timestamp_bool _); simpl;
    destruct (TopDialogCategory_eqb c category) eqn:E; try reflexivity;
    apply TopDialogCategory_eqb_eq in E; subst; unfold use_dialog;
    now destruct (find_if _ _ _) as [[[? ?] ?]|].
Qed.

(** ** Ranking store: ties *)

Lemma top_dialog_lt_by_rating_orders : orders_by_rating example_config.
Proof.
  intros a b. simpl. unfold top_dialog_lt_by_rating. split; intros H.
  - apply Rltb_true in H. lra.
  - now apply Rltb_false in H.
Qed.

Lemma record_usages_descending_witness :
  orders_by_rating example_config
  /\ descending (dialogs (by_category (example_state SyncOk) Group))
  /\ Forall (fun st' => descending (dialogs (by_category st' Group)))
       (record_usages example_config (example_state SyncOk) Group
          tied_usages).
Proof.
  split; [exact top_dialog_lt_by_rating_orders |].
  split; [constructor |].
  apply (record_usages_descending top_dialog_lt_by_rating_orders).
  constructor.
Defined.

(** The entry list after the two calls of [tied_usages]. *)
Lemma tied_usages_dialogs :
  exists st1 st2 delta,
    record_usages example_config (example_state SyncOk) Group tied_usages
    = [st1; st2]
    /\ dialogs (by_category st2 Group)
       = [mkTopDialog (user 2) (0 + delta); mkTopDialog (user 1) (0 + delta)].
Proof.
  unfold tied_usages, record_usages.
  set (st1 := fst (on_dialog_used example_config example_env
                     (example_state SyncOk) Group (user 1) 1000)).
  set (st2 := fst (on_dialog_used example_config example_env st1 Group
                     (user 2) 1000)).
  exists st1, st2, (rating_add 241920 (IZR 1000) 0).
  split; [reflexivity |].
  assert (D1 : dialogs (by_category st1 Group)
               = [mkTopDialog (user 1)
                    (0 + rating_add 241920 (IZR 1000) 0)]).
  { unfold st1. rewrite on_dialog_used_dialogs. reflexivity. }
  assert (T1 : rating_timestamp (by_category st1 Group) = 0%R).
  { unfold st1. rewrite on_dialog_used_rating_timestamp. reflexivity. }
  destruct (on_dialog_used_members example_config example_env
              (example_state SyncOk) Group (user 1) 1000) as [A1 E1].
  fold st1 in A1, E1. simpl in A1, E1.
  unfold st2. rewrite on_dialog_used_dialogs, A1, E1. simpl.
  unfold use_dialog. rewrite D1, T1. simpl.
  unfold top_dialog_lt_by_rating. simpl.
  real_cases. reflexivity.
Qed.

(** C3, counterexample.  Two entities used at the same instant receive the
    same rating, so the list is not strictly descending after the second
    call. *)
Lemma record_usages_not_strictly_descending :
  ~ Forall (fun st' => strictly_descending (dialogs (by_category st' Group)))
      (record_usages example_config (example_state SyncOk) Group
         tied_usages).
Proof.
  destruct tied_usages_dialogs as (st1 & st2 & delta & -> & D).
  intros H. inversion H as [|? ? _ H2]; subst.
  inversion H2 as [|? ? H3 _]; subst.
  unfold strictly_descending in H3. rewrite D in H3.
  inversion H3 as [|? ? _ Hd]; subst.
  inversion Hd as [|? ? Hlt]; subst. simpl in Hlt. lra.
Qed.

(** ** Scheduler: the durable flush *)

(** Split on the outcome of the [is_in_past] test in the goal. *)
Ltac case_in_past :=
  match goal with
  | |- context [is_in_past ?e ?t] => destruct (is_in_past e t)
  end.

Lemma save_categories_dirty_only_cleared cs st c :
  is_dirty (by_category (fst (save_categories cs st)) c) = true ->
  is_dirty (by_category st c) = true.
Proof.
  revert st. induction cs as [|a cs IH]; intros st; simpl; [auto |].
  destruct (is_dirty (by_category st a)) eqn:D; simpl; [| apply IH].
  match goal with
  | |- context [save_categories cs ?s] =>
      specialize (IH s); destruct (save_categories cs s) as [st' effs]
  end.
  simpl in *. intros H. apply IH in H.
  destruct (TopDialogCategory_eqb c a) eqn:E; [discriminate | exact H].
Qed.

Lemma save_categories_clears cs st c :
  In c cs -> is_dirty (by_category (fst (save_categories cs st)) c) = false.
Proof.
  revert st. induction cs as [|a cs IH]; intros st; simpl; [tauto |].
  intros [-> | Hin].
  - destruct (is_dirty (by_category st c)) eqn:D; simpl.
    + pose proof (save_categories_dirty_only_cleared cs
                    (update_category st c
                       (mkTopDialogs false
                          (rating_timestamp (by_category st c))
                          (dialogs (by_category st c)))) c) as H.
      destruct (save_categories cs _) as [st' effs]. simpl in *.
      rewrite TopDialogCategory_eqb_refl in H.
      destruct (is_dirty (by_category st' c)); [| reflexivity].
      discriminate (H eq_refl).
    + pose proof (save_categories_dirty_only_cleared cs st c) as H.
      destruct (is_dirty (by_category (fst (save_categories cs st)) c));
        [| reflexivity].
      rewrite (H eq_refl) in D. discriminate.
  - destruct (is_dirty (by_category st a)); simpl; [| now apply IH].
    match goal with
    | |- context [save_categories cs ?s] =>
        specialize (IH s Hin); destruct (save_categories cs s) as [st' effs]
    end.
    exact IH.
Qed.

Lemma save_categories_writes cs st c :
  In c cs -> is_dirty (by_category st c) = true ->
  In (PmcSet (top_dialogs_key c)
        (log_event_store
           (mkTopDialogs false (rating_timestamp (by_category st c))
              (dialogs (by_category st c)))))
     (snd (save_categories cs st)).
Proof.
  revert st. induction cs as [|a cs IH]; intros st; simpl; [tauto |].
  intros Hin D.
  destruct (TopDialogCategory_eqb c a) eqn:E.
  - apply TopDialogCategory_eqb_eq in E. subst a. rewrite D. simpl.
    destruct (save_categories cs _) as [st' effs]. simpl. auto.
  - destruct Hin as [-> | Hin]; [now rewrite TopDialogCategory_eqb_refl in E |].
    destruct (is_dirty (by_category st a)); simpl; [| now apply IH].
    match goal with
    | |- context [save_categories cs ?s] =>
        specialize (IH s Hin); destruct (save_categories cs s) as [st' effs]
    end.
    simpl in *. rewrite E in IH. right. now apply IH.
Qed.

Lemma save_categories_sync_members cs st :
  let st' := fst (save_categories cs st) in
  db_sync_state st' = db_sync_state st
  /\ first_unsync_change st' = first_unsync_change st.
Proof.
  revert st. induction cs as [|a cs IH]; intros st; simpl; [tauto |].
  destruct (is_dirty (by_category st a)); simpl; [| apply IH].
  match goal with
  | |- context [save_categories cs ?s] =>
      specialize (IH s); destruct (save_categories cs s) as [st' effs]
  end.
  exact IH.
Qed.

(** What a flush establishes. *)
Lemma do_save_top_dialogs_spec st :
  let st' := fst (do_save_top_dialogs st) in
  let effects := snd (do_save_top_dialogs st) in
  flush_ran effects
  /\ db_sync_state st' = SyncOk
  /\ first_unsync_change st' = None
  /\ server_sync_state st' = server_sync_state st
  /\ (forall c, is_dirty (by_category st' c) = false)
  /\ (forall c, is_dirty (by_category st c) = true ->
        In (PmcSet (top_dialogs_key c)
              (log_event_store
                 (mkTopDialogs false (rating_timestamp (by_category st c))
                    (dialogs (by_category st c)))))
           effects).
Proof.
  unfold do_save_top_dialogs.
  pose proof (save_categories_members all_categories st) as Hm.
  pose proof (fun c => save_categories_clears all_categories st c
                         (all_categories_complete c)) as Hc.
  pose proof (fun c => save_categories_writes all_categories st c
                         (all_categories_complete c)) as Hw.
  destruct (save_categories all_categories st) as [st' effs]. simpl in *.
  unfold flush_ran. simpl. intuition.
Qed.

Lemma loop_queries_not_flush cfg st queries :
  Forall not_flush_effect (map (do_get_top_dialogs cfg st) queries).
Proof.
  apply Forall_forall. intros e He. apply in_map_iff in He.
  destruct He as (q & <- & _). split; [discriminate | intros; discriminate].
Qed.

Lemma loop_server_sync_not_flush st t :
  Forall not_flush_effect (snd (loop_server_sync st t)).
Proof.
  unfold loop_server_sync.
  destruct (server_sync_state st); simpl; try constructor.
  destruct (was_first_sync st); simpl; repeat constructor;
    try discriminate; intros; discriminate.
Qed.

Lemma loop_timer_not_flush env w : Forall not_flush_effect (loop_timer env w).
Proof.
  destruct w; simpl; repeat constructor; try discriminate;
    intros; discriminate.
Qed.

(** The states of the two machines and the dirty data through the first
    three parts of [loop]. *)
Lemma loop_server_timeout_sync cfg env st :
  let st' := fst (loop_server_timeout cfg env st) in
  db_sync_state st' = db_sync_state st
  /\ first_unsync_change st' = first_unsync_change st
  /\ (server_sync_state st' = SyncOk -> server_sync_state st = SyncOk).
Proof.
  unfold loop_server_timeout.
  destruct (server_sync_state st) eqn:E;
    try (simpl; intuition congruence).
  case_in_past; simpl; intuition congruence.
Qed.

Lemma loop_server_sync_sync st t :
  let st' := fst (fst (loop_server_sync st t)) in
  db_sync_state st' = db_sync_state st
  /\ first_unsync_change st' = first_unsync_change st
  /\ (server_sync_state st' = SyncOk -> server_sync_state st = SyncOk).
Proof.
  unfold loop_server_sync.
  destruct (server_sync_state st) eqn:E;
    try (simpl; intuition congruence).
  destruct (was_first_sync st); simpl; intuition congruence.
Qed.

Lemma loop_db_timeout_sync cfg env st :
  let st' := fst (loop_db_timeout cfg env st) in
  server_sync_state st' = server_sync_state st
  /\ first_unsync_change st' = first_unsync_change st.
Proof.
  unfold loop_db_timeout.
  destruct (db_sync_state st); try (simpl; tauto).
  destruct (Timestamp_bool _); try (simpl; tauto).
  case_in_past; simpl; auto.
Qed.

(** The last part of [loop] either leaves the state alone or is a flush
    under a remote state of [Ok]. *)
Lemma loop_db_sync_cases st w t :
  (fst (fst (loop_db_sync st w t)) = st /\ snd (loop_db_sync st w t) = [])
  \/ (server_sync_state st = SyncOk
      /\ db_sync_state st = SyncNone
      /\ fst (fst (loop_db_sync st w t)) = fst (do_save_top_dialogs st)
      /\ snd (loop_db_sync st w t) = snd (do_save_top_dialogs st)).
Proof.
  unfold loop_db_sync.
  destruct (db_sync_state st); simpl; auto.
  destruct (server_sync_state st); simpl; auto.
  right. destruct (do_save_top_dialogs st). simpl. auto.
Qed.

(** [loop] either makes no flush, and then leaves the dirty data and
    [first_unsync_change_] alone, or it flushes a state [st3] that holds the
    same slots as [st], under a remote state of [Ok]. *)
Lemma loop_cases cfg env st :
  let st' := fst (loop cfg env st) in
  let effects := snd (loop cfg env st) in
  (by_category st' = by_category st
   /\ first_unsync_change st' = first_unsync_change st
   /\ Forall not_flush_effect effects)
  \/ (exists st3,
        by_category st3 = by_category st
        /\ server_sync_state st3 = SyncOk
        /\ server_sync_state st = SyncOk
        /\ st' = fst (do_save_top_dialogs st3)
        /\ incl (snd (do_save_top_dialogs st3)) effects).
Proof.
  unfold loop. destruct (is_active st) eqn:A; simpl;
    [| left; repeat split; constructor].
  pose proof (loop_queries_not_flush cfg st (pending_get_top_dialogs st))
    as Q.
  pose proof (loop_server_timeout_by_category cfg env
                (set_pending_get_top_dialogs st [])) as B1.
  pose proof (loop_server_timeout_sync cfg env
                (set_pending_get_top_dialogs st [])) as S1.
  destruct (loop_server_timeout cfg env _) as [st1 t1]. simpl in B1, S1.
  pose proof (loop_server_sync_by_category st1 t1) as B2.
  pose proof (loop_server_sync_sync st1 t1) as S2.
  pose proof (loop_server_sync_not_flush st1 t1) as Q2.
  destruct (loop_server_sync st1 t1) as [[st2 w2] e2]. simpl in B2, S2, Q2.
  pose proof (loop_db_timeout_by_category cfg env st2) as B3.
  pose proof (loop_db_timeout_sync cfg env st2) as S3.
  destruct (loop_db_timeout cfg env st2) as [st3 t3]. simpl in B3, S3.
  pose proof (loop_db_sync_cases st3 w2 t3) as C4.
  destruct (loop_db_sync st3 w2 t3) as [[st4 w4] e4]. simpl in *.
  destruct S1 as (_ & F1 & O1). destruct S2 as (_ & F2 & O2).
  destruct S3 as (O3 & F3).
  destruct C4 as [[-> ->] | (Ok3 & _ & -> & ->)].
  - left. repeat split; try congruence.
    rewrite !Forall_app. repeat split; auto.
    apply loop_timer_not_flush.
  - right. exists st3. repeat split; try congruence.
    + apply O1, O2. congruence.
    + intros e He. apply in_or_app. right. apply in_or_app. right.
      apply in_or_app. now left.
Qed.

Lemma not_flush_effects_no_flush effects :
  Forall not_flush_effect effects ->
  ~ flush_ran effects /\ forall key value, ~ In (PmcSet key value) effects.
Proof.
  intros H. rewrite Forall_forall in H. split.
  - intros F. now destruct (H _ F).
  - intros key value F. destruct (H _ F) as [_ N]. now apply (N key value).
Qed.

(** C9.  Whatever the state [loop] runs in, if it performs the durable flush
    (or writes any ranking snapshot to the store at all), the remote sync
    state is [Ok], before the call and after it, and the call ends with the
    durable state [Ok] and [first_unsync_change_] cleared. *)
Theorem loop_flush_gated cfg env st :
  let st' := fst (loop cfg env st) in
  let effects := snd (loop cfg env st) in
  flush_ran effects \/ (exists key value, In (PmcSet key value) effects) ->
  server_sync_state st = SyncOk
  /\ server_sync_state st' = SyncOk
  /\ db_sync_state st' = SyncOk
  /\ first_unsync_change st' = None.
Proof.
  intros st' effects H.
  destruct (loop_cases cfg env st) as [(_ & _ & N) | (st3 & _ & O3 & O & E & _)].
  - apply not_flush_effects_no_flush in N. destruct N as [N1 N2].
    destruct H as [H | (key & value & H)]; [now apply N1 in H |].
    now apply N2 in H.
  - destruct (do_save_top_dialogs_spec st3) as (_ & D & F & S & _).
    fold st' in E. rewrite E. repeat split; auto. congruence.
Qed.
Lemma loop_flush_gated_witness :
  flush_ran (snd (loop example_config example_env unsaved_state))
  /\ server_sync_state unsaved_state = SyncOk
  /\ db_sync_state (fst (loop example_config example_env unsaved_state))
     = SyncOk.
Proof.
  assert (F : flush_ran (snd (loop example_config example_env unsaved_state))).
  { unfold loop, loop_server_timeout, loop_server_sync, loop_db_timeout,
      loop_db_sync, is_in_past. simpl. real_cases. simpl.
    unfold flush_ran. simpl. auto. }
  split; [exact F |].
  destruct (loop_flush_gated example_config example_env unsaved_state
              (or_introl F)) as (H1 & _ & H3 & _).
  split; [exact H1 | exact H3].
Defined.

(** ** Ranking store: removal *)

Lemma find_if_absent id rev_before v :
  Forall (fun y => dialog_id y <> id) v -> find_if id rev_before v = None.
Proof.
  revert rev_before. induction v as [|y v IH]; intros rb H; simpl.
  - reflexivity.
  - inversion H as [|? ? Hy Hv]; subst.
    destruct (DialogId_eqb (dialog_id y) id) eqn:E.
    + apply DialogId_eqb_eq in E. contradiction.
    + now apply IH.
Qed.

Lemma stamp_first_unsync_change_spec env st :
  by_category (stamp_first_unsync_change env st) = by_category st
  /\ first_unsync_change (stamp_first_unsync_change env st)
     = match first_unsync_change st with
       | Some t => Some t
       | None => Some (Time_now_cached env)
       end.
Proof.
  unfold stamp_first_unsync_change.
  now destruct (first_unsync_change st) eqn:E; simpl; rewrite ?E.
Qed.

(** C8.  On an active manager, [remove_dialog] returns the state unchanged
    when no entry of the category has the given identifier.  When one has,
    the update handed to [loop] takes exactly that entry out, keeping the
    entries before and after it in order, sets the dirty flag of the category
    and stamps [first_unsync_change_] unless it was set; the call returns
    with one entry fewer in that category, the other categories' rankings
    untouched, and the category either still dirty or written to the store
    by the flush that [loop] ran. *)
Theorem remove_dialog_spec cfg env st category id input_peer
    (Hactive : is_active st = true) :
  let top_dialogs := by_category st category in
  let st' := fst (remove_dialog cfg env st category id input_peer) in
  let effects := snd (remove_dialog cfg env st category id input_peer) in
  (Forall (fun x => dialog_id x <> id) (dialogs top_dialogs) -> st' = st)
  /\ (forall x, In x (dialogs top_dialogs) -> dialog_id x = id ->
      exists before y after st_m,
        dialogs top_dialogs = before ++ y :: after
        /\ dialog_id y = id
        /\ Forall (fun z => dialog_id z <> id) before
        /\ st' = fst (loop cfg env st_m)
        /\ dialogs (by_category st_m category) = before ++ after
        /\ is_dirty (by_category st_m category) = true
        /\ first_unsync_change st_m
           = match first_unsync_change st with
             | Some t => Some t
             | None => Some (Time_now_cached env)
             end
        /\ dialogs (by_category st' category) = before ++ after
        /\ S (length (dialogs (by_category st' category)))
           = length (dialogs top_dialogs)
        /\ (forall c, c <> category -> entries st' c = entries st c)
        /\ ((is_dirty (by_category st' category) = true
             /\ first_unsync_change st' = first_unsync_change st_m)
            \/ (flush_ran effects
                /\ In (PmcSet (top_dialogs_key category)
                         (log_event_store
                            (mkTopDialogs false
                               (rating_timestamp top_dialogs)
                               (before ++ after))))
                      effects))).
Proof.
  intros top_dialogs st' effects. subst st' effects.
  unfold remove_dialog. rewrite Hactive. simpl. fold top_dialogs. split.
  - intros H. now rewrite (@find_if_absent id [] _ H).
  - intros x Hin Hid.
    destruct (find_if id [] (dialogs top_dialogs)) as [[[rb y] after]|] eqn:F.
    2:{ apply find_if_none in F. rewrite Forall_forall in F.
        now apply F in Hin. }
    apply find_if_some in F. destruct F as (before & Hv & -> & Hy & Hb).
    set (st_m := erase_dialog env st category (rev before ++ [], y, after)).
    assert (Bm : by_category st_m
                 = by_category
                     (update_category st category
                        (mkTopDialogs true (rating_timestamp top_dialogs)
                           (before ++ after)))).
    { unfold st_m, erase_dialog, erase.
      rewrite (proj1 (stamp_first_unsync_change_spec env _)).
      now rewrite app_nil_r, rev_involutive. }
    assert (Dm : by_category st_m category
                 = mkTopDialogs true (rating_timestamp top_dialogs)
                     (before ++ after)).
    { rewrite Bm. apply update_category_same. }
    pose proof (loop_entries cfg env st_m) as Le.
    pose proof (loop_cases cfg env st_m) as Lc.
    destruct (loop cfg env st_m) as [st' effs] eqn:L. simpl in *.
    exists before, y, after, st_m. rewrite L. simpl.
    assert (Dl : dialogs (by_category st' category) = before ++ after).
    { pose proof (f_equal snd (Le category)) as H. simpl in H.
      now rewrite H, Dm. }
    split; [exact Hv |]. split; [exact Hy |]. split; [exact Hb |].
    split; [reflexivity |].
    split; [now rewrite Dm |]. split; [now rewrite Dm |].
    split.
    { unfold st_m, erase_dialog.
      now rewrite (proj2 (stamp_first_unsync_change_spec env _)). }
    split; [exact Dl |].
    split; [rewrite Dl, Hv, !length_app; simpl; lia |].
    split.
    { intros c Hc. rewrite Le. unfold entries. rewrite Bm. cbv beta.
      now rewrite (TopDialogCategory_eqb_neq Hc). }
    destruct Lc as [(B & Fu & _) | (st3 & B3 & _ & _ & -> & Hincl)].
    + left. rewrite B, Dm. auto.
    + right.
      destruct (do_save_top_dialogs_spec st3) as (Fr & _ & _ & _ & _ & W).
      split.
      * unfold flush_ran. right. apply in_or_app. right. now apply Hincl.
      * right. apply in_or_app. right. apply Hincl.
        specialize (W category). rewrite B3, Dm in W. now apply W.
Qed.

Lemma remove_dialog_spec_witness :
  is_active unsaved_state = true
  /\ dialogs
       (by_category
          (fst (remove_dialog example_config example_env unsaved_state Group
                  (chat 7) None))
          Group)
     = [].
Proof.
  split; [reflexivity |].
  destruct (proj2 (@remove_dialog_spec example_config example_env
                     unsaved_state Group (chat 7) None eq_refl)
              (mkTopDialog (chat 7) 2) (or_introl eq_refl) eq_refl)
    as (before & y & after & st_m & Hv & _ & _ & _ & _ & _ & _ & Hd & _).
  rewrite Hd. simpl in Hv.
  destruct before as [|b before]; simpl in Hv.
  - now inversion Hv.
  - inversion Hv as [[Hb Hnil]]. now destruct before.
Defined.

(** ** Query service *)

Lemma collect_top_dialogs_below env limit dialog_ids result :
  length result < limit ->
  collect_top_dialogs env limit dialog_ids result
  = result
    ++ firstn (limit - length result) (filter (keep_dialog env) dialog_ids).
Proof.
  revert result. induction dialog_ids as [|d rest IH]; intros result Hlen.
  - simpl. now rewrite firstn_nil, app_nil_r.
  - simpl. unfold keep_dialog at 1.
    destruct (skip_dialog env d); simpl; [now apply IH |].
    destruct (Nat.eqb (length (result ++ [d])) limit) eqn:E.
    + apply Nat.eqb_eq in E. rewrite length_app in E. simpl in E.
      replace (limit - length result) with 1 by lia. reflexivity.
    + apply Nat.eqb_neq in E. rewrite length_app in E. simpl in E.
      rewrite IH by (rewrite length_app; simpl; lia).
      rewrite length_app. simpl.
      replace (limit - length result) with (S (limit - (length result + 1)))
        by lia.
      simpl. now rewrite <- app_assoc.
Qed.

Lemma collect_top_dialogs_beyond env limit dialog_ids result :
  limit <= length result ->
  collect_top_dialogs env limit dialog_ids result
  = result ++ filter (keep_dialog env) dialog_ids.
Proof.
  revert result. induction dialog_ids as [|d rest IH]; intros result Hlen.
  - simpl. now rewrite app_nil_r.
  - simpl. unfold keep_dialog at 1.
    destruct (skip_dialog env d); simpl; [now apply IH |].
    destruct (Nat.eqb (length (result ++ [d])) limit) eqn:E.
    + apply Nat.eqb_eq in E. rewrite length_app in E. simpl in E. lia.
    + rewrite IH by (rewrite length_app; simpl; lia).
      now rewrite <- app_assoc.
Qed.

Lemma In_firstn {A : Type} (n : nat) (l : list A) (x : A) :
  In x (firstn n l) -> In x l.
Proof.
  intros H. rewrite <- (firstn_skipn n l). apply in_or_app. now left.
Qed.

(** The value of the promise in closed form. *)
Lemma collect_top_dialogs_spec env limit dialog_ids :
  collect_top_dialogs env limit dialog_ids []
  = match limit with
    | O => filter (keep_dialog env) dialog_ids
    | S _ => firstn limit (filter (keep_dialog env) dialog_ids)
    end.
Proof.
  destruct limit as [|n].
  - now rewrite collect_top_dialogs_beyond by (simpl; lia).
  - rewrite collect_top_dialogs_below by (simpl; lia). simpl.
    reflexivity.
Qed.

Lemma keep_dialog_user env d :
  keep_dialog env d = true -> get_type d = DT_User ->
  is_user_deleted env (get_user_id d) = false
  /\ get_my_id env <> get_user_id d.
Proof.
  unfold keep_dialog, skip_dialog. intros H T. rewrite T in H.
  apply negb_true_iff, orb_false_iff in H. destruct H as [H1 H2].
  split; [exact H1 | now apply Z.eqb_neq].
Qed.

Lemma keep_dialog_not_user env d :
  get_type d <> DT_User -> keep_dialog env d = true.
Proof.
  unfold keep_dialog, skip_dialog. now destruct (get_type d).
Qed.

(** For a positive limit the result of a query holds at most
    [min(limit, MAX_TOP_DIALOGS_LIMIT, dialogs.size())] entities; whatever
    the limit, it holds no user the oracle reports deleted or as the own
    identity, and it is the kept identifiers in the order of the entry
    list. *)
Lemma get_top_dialogs_result_spec cfg env st query :
  let result := get_top_dialogs_result cfg env st query in
  let dialog_ids :=
    map dialog_id (dialogs (by_category st (query_category query))) in
  (0 < top_dialogs_limit cfg st query ->
   length result <= top_dialogs_limit cfg st query)
  /\ (forall d, In d result -> get_type d = DT_User ->
        is_user_deleted env (get_user_id d) = false
        /\ get_my_id env <> get_user_id d)
  /\ (exists n, result = firstn n (filter (keep_dialog env) dialog_ids)).
Proof.
  intros result dialog_ids. subst result. unfold get_top_dialogs_result.
  fold dialog_ids. rewrite collect_top_dialogs_spec.
  destruct (top_dialogs_limit cfg st query) as [|n] eqn:L.
  - split; [lia |]. split.
    + intros d Hd. apply filter_In in Hd. now apply keep_dialog_user.
    + exists (length (filter (keep_dialog env) dialog_ids)).
      now rewrite firstn_all.
  - split; [intros _; apply firstn_le_length |]. split.
    + intros d Hd T. apply In_firstn in Hd. apply filter_In in Hd.
      now apply keep_dialog_user.
    + now exists (S n).
Qed.

(** C5, at the failing input.  A query with limit 0 on a category with three
    entries computes the limit [min(0, 30, 3) = 0], and its promise is set to
    all three entities: the test [result.size() == limit] follows the
    [push_back] and never holds. *)
Theorem get_top_dialogs_zero_limit_returns_all :
  top_dialogs_limit example_config ranked_state (mkQuery Group 0 0) = 0
  /\ get_top_dialogs_result example_config example_env ranked_state
       (mkQuery Group 0 0)
     = [user 1; chat 7; user 2].
Proof. split; reflexivity. Qed.

(** C10.  The two tests of the promise's loop apply to identifiers of type
    [User] only.  An identifier of any other type in the entry list is never
    skipped, whatever the oracle reports: it is in the result unless the
    result was cut at the limit; and when the list holds no identifier of
    type [User], the result is the list itself, cut at the limit. *)
Theorem non_user_dialogs_pass_unfiltered cfg env st query :
  let dialog_ids :=
    map dialog_id (dialogs (by_category st (query_category query))) in
  let limit := top_dialogs_limit cfg st query in
  let result := get_top_dialogs_result cfg env st query in
  (forall d, In d dialog_ids -> get_type d <> DT_User ->
     skip_dialog env d = false
     /\ (In d result \/ length result = limit))
  /\ (Forall (fun d => get_type d <> DT_User) dialog_ids ->
      result = match limit with
               | O => dialog_ids
               | S _ => firstn limit dialog_ids
               end).
Proof.
  intros dialog_ids limit result. subst result limit.
  unfold get_top_dialogs_result. fold dialog_ids.
  rewrite collect_top_dialogs_spec. split.
  - intros d Hin T. pose proof (keep_dialog_not_user env d T) as K.
    split; [unfold keep_dialog in K; now apply negb_true_iff in K |].
    assert (F : In d (filter (keep_dialog env) dialog_ids))
      by (apply filter_In; auto).
    destruct (top_dialogs_limit cfg st query) as [|n]; [now left |].
    destruct (Nat.le_gt_cases (length (filter (keep_dialog env) dialog_ids))
                (S n)) as [Hle | Hgt].
    + left. now rewrite firstn_all2.
    + right. apply firstn_length_le. lia.
  - intros H.
    assert (E : filter (keep_dialog env) dialog_ids = dialog_ids).
    { clear -H. induction dialog_ids as [|d l IH]; [reflexivity |].
      inversion H; subst. simpl. rewrite keep_dialog_not_user by assumption.
      now rewrite IH. }
    now rewrite E.
Qed.

Lemma non_user_dialogs_pass_unfiltered_witness :
  In (chat 7)
    (map dialog_id (dialogs (by_category ranked_state Group)))
  /\ get_type (chat 7) <> DT_User
  /\ is_user_deleted all_deleted_env 7%Z = true
  /\ get_my_id all_deleted_env = 7%Z
  /\ skip_dialog all_deleted_env (chat 7) = false
  /\ (In (chat 7)
        (get_top_dialogs_result example_config all_deleted_env ranked_state
           (mkQuery Group 10 0))
      \/ length
           (get_top_dialogs_result example_config all_deleted_env
              ranked_state (mkQuery Group 10 0))
         = top_dialogs_limit example_config ranked_state
             (mkQuery Group 10 0)).
Proof.
  assert (Hin : In (chat 7)
                  (map dialog_id (dialogs (by_category ranked_state Group))))
    by (simpl; auto).
  assert (T : get_type (chat 7) <> DT_User) by discriminate.
  split; [exact Hin |]. split; [exact T |].
  split; [reflexivity |]. split; [reflexivity |].
  exact (proj1 (non_user_dialogs_pass_unfiltered example_config
                  all_deleted_env ranked_state (mkQuery Group 10 0))
           (chat 7) Hin T).
Defined.

(** ** Snapshot codec *)

Section CodecRoundTrip.
Context {Tok : Type} (prim : Primitives Tok)
        (laws : PrimitivesRoundTrip prim).

Lemma parse_store_TopDialog top_dialog rest :
  parse_TopDialog (store_TopDialog top_dialog ++ rest)
  = Some (top_dialog, rest).
Proof.
  unfold parse_TopDialog, store_TopDialog, parser_bind, parser_ret.
  rewrite <- app_assoc, parse_store_dialog_id, parse_store_double.
  now destruct top_dialog.
Qed.

Lemma parse_store_elements vec rest :
  parse_elements parse_TopDialog (length vec)
    (flat_map store_TopDialog vec ++ rest)
  = Some (vec, rest).
Proof.
  induction vec as [|x vec IH]; simpl; [reflexivity |].
  unfold parser_bind at 1.
  rewrite <- app_assoc, parse_store_TopDialog.
  unfold parser_bind at 1. rewrite IH. reflexivity.
Qed.

Lemma parse_store_TopDialogs top_dialogs target rest :
  parse_TopDialogs target (store_TopDialogs top_dialogs ++ rest)
  = Some (mkTopDialogs (is_dirty target) (rating_timestamp top_dialogs)
            (dialogs top_dialogs),
          rest).
Proof.
  unfold parse_TopDialogs, store_TopDialogs, parse_vector, store_vector.
  unfold parser_bind at 1. rewrite <- app_assoc, parse_store_double.
  unfold parser_bind at 1. unfold parser_bind at 1.
  rewrite <- app_assoc, parse_store_count, parse_store_elements.
  reflexivity.
Qed.

(** C7.  With primitive parsers that read back what the primitive storers
    wrote, decoding the encoding of a ranking yields its rating timestamp
    and its entry list, for every timestamp, every number of entries and
    every rating; the dirty flag, which is not encoded, is that of the
    object decoded into, so decoding into an object with the same flag
    yields an equal ranking. *)
Theorem snapshot_round_trip (top_dialogs target : TopDialogs) :
  log_event_parse target (log_event_store top_dialogs)
  = Some (mkTopDialogs (is_dirty target) (rating_timestamp top_dialogs)
            (dialogs top_dialogs))
  /\ (is_dirty target = is_dirty top_dialogs ->
      log_event_parse target (log_event_store top_dialogs)
      = Some top_dialogs).
Proof.
  assert (H : log_event_parse target (log_event_store top_dialogs)
              = Some (mkTopDialogs (is_dirty target)
                        (rating_timestamp top_dialogs)
                        (dialogs top_dialogs))).
  { unfold log_event_parse, log_event_store.
    rewrite <- (app_nil_r (store_TopDialogs top_dialogs)).
    now rewrite parse_store_TopDialogs. }
  split; [exact H |].
  intros D. rewrite H, D. now destruct top_dialogs.
Qed.
End CodecRoundTrip.

#[export] Instance FieldPrimitivesRoundTrip :
  PrimitivesRoundTrip FieldPrimitives.
Proof. split; reflexivity. Qed.

Lemma snapshot_round_trip_witness :
  PrimitivesRoundTrip FieldPrimitives
  /\ log_event_parse empty_top_dialogs (log_event_store sample_top_dialogs)
     = Some sample_top_dialogs
  /\ log_event_parse sample_top_dialogs (log_event_store empty_top_dialogs)
     = Some empty_top_dialogs.
Proof.
  split; [exact FieldPrimitivesRoundTrip |]. split.
  - exact (proj2 (snapshot_round_trip FieldPrimitivesRoundTrip
                    sample_top_dialogs empty_top_dialogs) eq_refl).
  - exact (proj2 (snapshot_round_trip FieldPrimitivesRoundTrip
                    empty_top_dialogs sample_top_dialogs) eq_refl).
Defined.

(** ** Remote sync client: responses without content *)

(** With a remote state of [Ok] whose deadline has not passed and a durable
    state of [None], [loop] flushes. *)
Lemma loop_flushes cfg env st :
  is_active st = true ->
  server_sync_state st = SyncOk ->
  db_sync_state st = SyncNone ->
  (Time_now_cached env
   < Timestamp_at (last_server_sync st) + SERVER_SYNC_DELAY cfg)%R ->
  server_sync_state (fst (loop cfg env st)) = SyncOk
  /\ db_sync_state (fst (loop cfg env st)) = SyncOk
  /\ first_unsync_change (fst (loop cfg env st)) = None
  /\ (forall c, is_dirty (by_category (fst (loop cfg env st)) c) = false)
  /\ flush_ran (snd (loop cfg env st)).
Proof.
  intros A S D T. apply Rleb_false in T.
  unfold loop, loop_server_timeout, loop_server_sync, loop_db_timeout.
  rewrite A. simpl. rewrite S. unfold is_in_past. simpl. rewrite T. simpl.
  rewrite S. simpl. rewrite D. unfold loop_db_sync. simpl. rewrite D, S.
  pose proof (do_save_top_dialogs_spec (set_pending_get_top_dialogs st []))
    as H.
  destruct (do_save_top_dialogs (set_pending_get_top_dialogs st []))
    as [st' effs].
  simpl in *. destruct H as (F & H1 & H2 & H3 & H4 & _).
  repeat split; auto; try congruence.
  unfold flush_ran. apply in_or_app. right. apply in_or_app. now left.
Qed.

Lemma on_result_without_content cfg env st link_token r_top_peers :
  link_token <> 1%Z ->
  r_top_peers = FetchError \/ r_top_peers = TopPeersNotModified ->
  fst (on_result cfg env st link_token r_top_peers)
  = fst (loop cfg env (synced_without_content env st)).
Proof.
  intros L R. unfold on_result. apply Z.eqb_neq in L. rewrite L.
  fold (synced_without_content env st).
  destruct R as [-> | ->];
    now destruct (loop cfg env (synced_without_content env st)).
Qed.

(** What a response without content does to the state. *)
Lemma on_result_without_content_spec cfg env st link_token r_top_peers :
  link_token <> 1%Z ->
  r_top_peers = FetchError \/ r_top_peers = TopPeersNotModified ->
  let st' := fst (on_result cfg env st link_token r_top_peers) in
  (forall c,
      entries st' c = (server_time_cached env, normalized_dialogs env st c))
  /\ (forall c,
        map dialog_id (dialogs (by_category st' c))
        = map dialog_id (dialogs (by_category st c)))
  /\ last_server_sync st' = Some (Time_now env)
  /\ (is_active st = true ->
      (Time_now_cached env < Time_now env + SERVER_SYNC_DELAY cfg)%R ->
      server_sync_state st' = SyncOk
      /\ db_sync_state st' = SyncOk
      /\ first_unsync_change st' = None
      /\ (forall c, is_dirty (by_category st' c) = false)).
Proof.
  intros L R st'. subst st'. rewrite (on_result_without_content _ _ _ L R).
  assert (E : forall c,
             entries (fst (loop cfg env (synced_without_content env st))) c
             = (server_time_cached env, normalized_dialogs env st c)).
  { intros c. rewrite loop_entries. reflexivity. }
  split; [exact E |]. split.
  - intros c. pose proof (f_equal snd (E c)) as H. simpl in H. rewrite H.
    unfold normalized_dialogs. rewrite map_map. reflexivity.
  - split.
    + destruct (loop_members cfg env (synced_without_content env st))
        as (_ & _ & _ & H). rewrite H. reflexivity.
    + intros A T.
      destruct (@loop_flushes cfg env (synced_without_content env st))
        as (H1 & H2 & H3 & H4 & _); auto.
Qed.

(** C1, as amended.  A "not modified" response to the fetch (link token other
    than 1) rescales every category: its rating timestamp becomes the server
    time and each rating is divided by [rating_add(server time, old
    timestamp)], the entities and their order staying as they were;
    [last_server_sync_] becomes the current time.  On an active manager
    whose new sync deadline lies ahead, the call ends with the remote state
    [Ok] and, every category having been marked dirty and the durable state
    reset to [None], with the flush done: durable state [Ok], no dirty flag
    set, [first_unsync_change_] cleared. *)
Theorem on_result_not_modified cfg env st link_token
    (Htoken : link_token <> 1%Z) :
  let st' := fst (on_result cfg env st link_token TopPeersNotModified) in
  (forall c,
      entries st' c = (server_time_cached env, normalized_dialogs env st c))
  /\ (forall c,
        map dialog_id (dialogs (by_category st' c))
        = map dialog_id (dialogs (by_category st c)))
  /\ last_server_sync st' = Some (Time_now env)
  /\ (is_active st = true ->
      (Time_now_cached env < Time_now env + SERVER_SYNC_DELAY cfg)%R ->
      server_sync_state st' = SyncOk
      /\ db_sync_state st' = SyncOk
      /\ first_unsync_change st' = None
      /\ (forall c, is_dirty (by_category st' c) = false)).
Proof.
  apply on_result_without_content_spec; auto.
Qed.

Lemma on_result_not_modified_witness :
  0%Z <> 1%Z
  /\ is_active ranked_state = true
  /\ (Time_now_cached later_env
      < Time_now later_env + SERVER_SYNC_DELAY example_config)%R
  /\ entries
       (fst (on_result example_config later_env ranked_state 0
               TopPeersNotModified))
       Group
     = (2000%R, normalized_dialogs later_env ranked_state Group)
  /\ server_sync_state
       (fst (on_result example_config later_env ranked_state 0
               TopPeersNotModified))
     = SyncOk.
Proof.
  assert (Htoken : 0%Z <> 1%Z) by discriminate.
  assert (T : (Time_now_cached later_env
               < Time_now later_env + SERVER_SYNC_DELAY example_config)%R)
    by (simpl; lra).
  destruct (@on_result_not_modified example_config later_env ranked_state 0
              Htoken) as (E & _ & _ & S).
  split; [exact Htoken |]. split; [reflexivity |]. split; [exact T |].
  split; [exact (E Group) |]. exact (proj1 (S eq_refl T)).
Defined.

Lemma one_lt_rating_add_2000 : (1 < rating_add 241920 2000 0)%R.
Proof.
  rewrite <- (rating_add_same 241920 0).
  apply rating_add_increasing; lra.
Qed.

(** C1, counterexample.  After a "not modified" response the rating
    timestamp of [Group] is the server time, 2000, where it was 0, and its
    first rating is no longer 5. *)
Lemma on_result_not_modified_changes_ranking :
  rating_timestamp
    (by_category
       (fst (on_result example_config later_env ranked_state 0
               TopPeersNotModified))
       Group)
  <> rating_timestamp (by_category ranked_state Group)
  /\ dialogs
       (by_category
          (fst (on_result example_config later_env ranked_state 0
                  TopPeersNotModified))
          Group)
     <> dialogs (by_category ranked_state Group).
Proof.
  assert (Htoken : 0%Z <> 1%Z) by discriminate.
  destruct (@on_result_without_content_spec example_config later_env
              ranked_state 0 TopPeersNotModified Htoken (or_intror eq_refl))
    as (E & _).
  specialize (E Group). unfold entries in E. simpl. inversion E as [[Ets Eds]].
  split.
  - rewrite Ets. simpl. lra.
  - rewrite Eds. unfold normalized_dialogs, current_rating_add. simpl.
    intros H. inversion H as [H5].
    pose proof one_lt_rating_add_2000 as G.
    assert (N : (rating_add 241920 2000 0 <> 0)%R) by lra.
    apply (f_equal (fun x => (x * rating_add 241920 2000 0)%R)) in H5.
    unfold Rdiv in H5. rewrite Rmult_assoc, Rinv_l in H5 by exact N. lra.
Qed.

(** C2, as amended.  When the fetch fails (link token other than 1), the
    failure is logged and the response is otherwise handled like one without
    changes: every category is rescaled, entities and order staying as they
    were, [last_server_sync_] becomes the current time, and on an active
    manager whose new sync deadline lies ahead the call ends with the remote
    state [Ok], the durable state [Ok] after the flush, no dirty flag set and
    [first_unsync_change_] cleared. *)
Theorem on_result_fetch_error cfg env st link_token
    (Htoken : link_token <> 1%Z) :
  let st' := fst (on_result cfg env st link_token FetchError) in
  let effects := snd (on_result cfg env st link_token FetchError) in
  In (Log LogGetTopPeersFailed) effects
  /\ (forall c,
        entries st' c = (server_time_cached env, normalized_dialogs env st c))
  /\ (forall c,
        map dialog_id (dialogs (by_category st' c))
        = map dialog_id (dialogs (by_category st c)))
  /\ last_server_sync st' = Some (Time_now env)
  /\ (is_active st = true ->
      (Time_now_cached env < Time_now env + SERVER_SYNC_DELAY cfg)%R ->
      server_sync_state st' = SyncOk
      /\ db_sync_state st' = SyncOk
      /\ first_unsync_change st' = None
      /\ (forall c, is_dirty (by_category st' c) = false)).
Proof.
  split.
  - unfold on_result. apply Z.eqb_neq in Htoken. rewrite Htoken.
    destruct (loop cfg env _) as [st' effs]. simpl. auto.
  - apply on_result_without_content_spec; auto.
Qed.

Lemma on_result_fetch_error_witness :
  0%Z <> 1%Z
  /\ is_active (example_state SyncPending) = true
  /\ (Time_now_cached later_env
      < Time_now later_env + SERVER_SYNC_DELAY example_config)%R
  /\ last_server_sync
       (fst (on_result example_config later_env (example_state SyncPending)
               0 FetchError))
     = Some 2000%R
  /\ db_sync_state
       (fst (on_result example_config later_env (example_state SyncPending)
               0 FetchError))
     = SyncOk.
Proof.
  assert (Htoken : 0%Z <> 1%Z) by discriminate.
  assert (T : (Time_now_cached later_env
               < Time_now later_env + SERVER_SYNC_DELAY example_config)%R)
    by (simpl; lra).
  destruct (@on_result_fetch_error example_config later_env
              (example_state SyncPending) 0 Htoken)
    as (_ & _ & _ & L & S).
  split; [exact Htoken |]. split; [reflexivity |]. split; [exact T |].
  split; [exact L |]. exact (proj1 (proj2 (S eq_refl T))).
Defined.

(** C2, counterexample.  A failed fetch received in remote state [Pending]
    leaves the remote state [Ok] and moves [last_server_sync_] from 1000 to
    2000. *)
Lemma on_result_fetch_error_changes_sync_state :
  server_sync_state
    (fst (on_result example_config later_env (example_state SyncPending) 0
            FetchError))
  <> server_sync_state (example_state SyncPending)
  /\ last_server_sync
       (fst (on_result example_config later_env (example_state SyncPending)
               0 FetchError))
     <> last_server_sync (example_state SyncPending).
Proof.
  assert (Htoken : 0%Z <> 1%Z) by discriminate.
  destruct (@on_result_without_content_spec example_config later_env
              (example_state SyncPending) 0 FetchError Htoken
              (or_introl eq_refl))
    as (_ & _ & L & S).
  destruct S as (S & _); [reflexivity | simpl; lra |].
  simpl. rewrite S, L. split; [discriminate |].
  simpl. intros H. inversion H. lra.
Qed.

(** ** Start-up *)

Lemma log_event_parse_target (target : TopDialogs) (value : list Field) :
  log_event_parse target value
  = match decode_snapshot value with
    | Some (ts, ds) => Some (mkTopDialogs (is_dirty target) ts ds)
    | None => None
    end.
Proof.
  unfold decode_snapshot, log_event_parse, parse_TopDialogs, parser_bind,
    parser_ret.
  destruct (parse_double value) as [[ts rest]|]; [| reflexivity].
  destruct (parse_vector parse_TopDialog rest) as [[ds rest']|];
    [| reflexivity].
  now destruct rest'.
Qed.

Lemma load_categories_fatal env cs st c :
  In c cs -> stored env c <> [] -> decode_snapshot (stored env c) = None ->
  load_categories env cs st = Fatal.
Proof.
  intros Hin Hne Hbad. revert st.
  induction cs as [|a cs IH]; intros st; [destruct Hin |].
  simpl. fold (stored env a).
  destruct (stored env a) as [|f value] eqn:Sa.
  - destruct Hin as [-> | Hin]; [congruence | now apply IH].
  - rewrite log_event_parse_target.
    destruct (decode_snapshot (f :: value)) as [[ts ds]|] eqn:Da;
      [| reflexivity].
    destruct Hin as [-> | Hin]; [| now apply IH].
    rewrite Sa in Hbad. congruence.
Qed.

Lemma load_categories_done env cs st :
  NoDup cs ->
  (forall c, In c cs ->
     stored env c = [] \/ decode_snapshot (stored env c) <> None) ->
  exists st',
    load_categories env cs st = Done st'
    /\ st' = set_by_category st (by_category st')
    /\ (forall c, In c cs -> entries st' c = loaded_entries env st c)
    /\ (forall c, ~ In c cs -> by_category st' c = by_category st c).
Proof.
  intros Hnd. revert st.
  induction Hnd as [|a cs Ha Hnd IH]; intros st Hok.
  - exists st. simpl. repeat split; try tauto. now destruct st.
  - simpl. fold (stored env a).
    assert (Hok' : forall c, In c cs ->
                     stored env c = [] \/ decode_snapshot (stored env c) <> None)
      by (intros c Hc; apply Hok; now right).
    destruct (stored env a) as [|f value] eqn:Sa.
    + destruct (IH (update_category st a
                      (mkTopDialogs false
                         (rating_timestamp (by_category st a))
                         (dialogs (by_category st a)))) Hok')
        as (st' & L & M & E & O).
      exists st'. split; [exact L |]. split; [rewrite M at 1; reflexivity |].
      split.
      * intros c [<- | Hc].
        -- unfold entries. rewrite (O a Ha), update_category_same.
           unfold loaded_entries. now rewrite Sa.
        -- rewrite (E c Hc). unfold loaded_entries, entries.
           assert (c <> a) by (intros ->; contradiction).
           now rewrite update_category_other.
      * intros c Hc. rewrite O by (intros H; apply Hc; now right).
        apply update_category_other. intros ->. apply Hc. now left.
    + rewrite log_event_parse_target.
      destruct (decode_snapshot (f :: value)) as [[ts ds]|] eqn:Da.
      2:{ destruct (Hok a (or_introl eq_refl)) as [H | H]; congruence. }
      match goal with
      | |- context [load_categories env cs ?s] =>
          destruct (IH s Hok') as (st' & L & M & E & O)
      end.
      exists st'. split; [exact L |]. split; [rewrite M at 1; reflexivity |].
      split.
      * intros c [<- | Hc].
        -- unfold entries. rewrite (O a Ha), update_category_same.
           unfold loaded_entries. now rewrite Sa, Da.
        -- rewrite (E c Hc). unfold loaded_entries, entries.
           assert (c <> a) by (intros ->; contradiction).
           now rewrite !update_category_other.
      * intros c Hc. rewrite O by (intros H; apply Hc; now right).
        assert (c <> a) by (intros ->; apply Hc; now left).
        now rewrite !update_category_other.
Qed.

Lemma all_categories_NoDup : NoDup all_categories.
Proof.
  unfold all_categories.
  repeat (constructor; [simpl; intuition discriminate |]). constructor.
Qed.

Lemma loaded_entries_ext env st st' c :
  by_category st' = by_category st ->
  loaded_entries env st' c = loaded_entries env st c.
Proof. intros H. unfold loaded_entries, entries. now rewrite H. Qed.

(** C4, as amended.  With the chat info database in use: when the value
    stored for some category is not empty and fails to decode, [start_up]
    ends in the fatal check and produces no state; when every stored value
    is empty or decodes, [start_up] completes with the manager active, and
    each category holds, rescaled to the server time, its decoded snapshot,
    or what the slot held before when no value is stored for it. *)
Theorem start_up_spec cfg env st (Hdb : use_chat_info_db env = true) :
  ((exists c, stored env c <> [] /\ decode_snapshot (stored env c) = None) ->
   start_up cfg env st = Fatal)
  /\ ((forall c,
         stored env c = [] \/ decode_snapshot (stored env c) <> None) ->
      exists st' effects,
        start_up cfg env st = Done (st', effects)
        /\ is_active st' = true
        /\ forall c,
             entries st' c
             = rescaled (startup_decay env st) env (loaded_entries env st c)).
Proof.
  unfold start_up. rewrite Hdb. cbn [negb].
  match goal with
  | |- context [update_rating_e_decay env ?s] => set (st2 := s)
  end.
  assert (A2 : is_active st2 = true
               /\ by_category st2 = by_category st
               /\ rating_e_decay st2 = rating_e_decay st).
  { unfold st2. destruct (pmc_top_dialogs_ts env); [| simpl; auto].
    match goal with
    | |- context [if ?b then _ else _] => destruct b
    end; simpl; auto. }
  destruct A2 as (Act2 & By2 & De2).
  set (st3 := update_rating_e_decay env st2).
  assert (A3 : is_active st3 = true
               /\ by_category st3 = by_category st
               /\ rating_e_decay st3 = startup_decay env st).
  { unfold st3, update_rating_e_decay, startup_decay. rewrite Act2. simpl.
    destruct (option_rating_e_decay env); simpl; auto. }
  destruct A3 as (Act3 & By3 & De3).
  split.
  - intros (c & Hne & Hbad).
    now rewrite (@load_categories_fatal env all_categories st3 c
                   (all_categories_complete c) Hne Hbad).
  - intros Hok.
    destruct (@load_categories_done env all_categories st3
                all_categories_NoDup (fun c _ => Hok c))
      as (st4 & L & M & E & _).
    rewrite L.
    set (st5 := set_db_sync_state (normalize_rating env st4) SyncOk).
    pose proof (loop_entries cfg env st5) as Le.
    pose proof (loop_members cfg env st5) as Lm.
    destruct (loop cfg env st5) as [st' effects]. simpl in Le, Lm.
    exists st', (WaitFirstSync :: effects). split; [reflexivity |].
    destruct Lm as (Act & _).
    assert (Act4 : is_active st4 = true) by (rewrite M; exact Act3).
    assert (De4 : rating_e_decay st4 = startup_decay env st)
      by (rewrite M; exact De3).
    split; [rewrite Act; exact Act4 |].
    intros c. rewrite Le.
    pose proof (E c (all_categories_complete c)) as Ec.
    rewrite (@loaded_entries_ext env st st3 c By3) in Ec.
    rewrite <- Ec. unfold entries, rescaled, st5. simpl.
    unfold current_rating_add. now rewrite De4.
Qed.

Lemma start_up_spec_witness :
  use_chat_info_db example_env = true
  /\ (forall c,
        stored example_env c = []
        \/ decode_snapshot (stored example_env c) <> None)
  /\ exists st' effects,
       start_up example_config example_env fresh_state = Done (st', effects)
       /\ is_active st' = true
       /\ forall c,
            entries st' c
            = rescaled (startup_decay example_env fresh_state) example_env
                (loaded_entries example_env fresh_state c).
Proof.
  assert (Hok : forall c,
             stored example_env c = []
             \/ decode_snapshot (stored example_env c) <> None)
    by (intros c; now left).
  split; [reflexivity |]. split; [exact Hok |].
  exact (proj2 (@start_up_spec example_config example_env fresh_state
                  eq_refl) Hok).
Defined.

(** C4, counterexample.  The store holds a complete snapshot for
    [Correspondent] and a truncated one for [Group]: decoding the latter
    fails, and [start_up] ends in the fatal check instead of completing with
    [Group] empty and [Correspondent] loaded. *)
Lemma start_up_truncated_snapshot_is_fatal :
  log_event_parse empty_top_dialogs (stored truncated_env Correspondent)
  = Some sample_top_dialogs
  /\ log_event_parse empty_top_dialogs (stored truncated_env Group) = None
  /\ start_up example_config truncated_env fresh_state = Fatal.
Proof. repeat split. Qed.

(** * Part III: further properties of the code *)

(** ** Categories and keys *)

(** X1.  The two conversions between [TopDialogCategory] and the
    [telegram_api] category are inverse to each other. *)
Theorem top_dialog_category_api_round_trip :
  (forall category,
      top_dialog_category_from_telegram_api
        (top_dialog_category_as_telegram_api category)
      = category)
  /\ (forall category,
        top_dialog_category_as_telegram_api
          (top_dialog_category_from_telegram_api category)
        = category).
Proof. split; intros []; reflexivity. Qed.

(** X2.  The six categories have six different store keys; each starts with
    the prefix that [start_up] erases when the database is not in use, and
    none is the key of the sync time. *)
Theorem top_dialogs_key_distinct (c1 c2 : TopDialogCategory) :
  (top_dialogs_key c1 = top_dialogs_key c2 -> c1 = c2)
  /\ String.prefix "top_dialogs" (top_dialogs_key c1) = true
  /\ top_dialogs_key c1 <> "top_dialogs_ts"%string.
Proof.
  split; [| split].
  - destruct c1, c2; intros H; try reflexivity; discriminate H.
  - now destruct c1.
  - destruct c1; discriminate.
Qed.

(** ** The inactive manager *)

(** X3.  On a manager that is not active every entry point leaves the state
    as it is: a usage event, a removal, an option update and a scheduler
    pass do nothing at all (no reset query is sent either), the first-sync
    signal only records itself, and a query fails its promise with error
    400. *)
Theorem inactive_manager_is_inert cfg env st
    (Hinactive : is_active st = false) :
  (forall category id date,
      on_dialog_used cfg env st category id date = (st, []))
  /\ (forall category id input_peer,
        remove_dialog cfg env st category id input_peer = (st, []))
  /\ (forall category limit promise,
        get_top_dialogs cfg env st category limit promise
        = (st, [PromiseSetError promise 400]))
  /\ update_rating_e_decay env st = st
  /\ loop cfg env st = (st, [])
  /\ on_first_sync cfg env st = (set_was_first_sync st true, []).
Proof.
  unfold on_dialog_used, remove_dialog, get_top_dialogs,
    update_rating_e_decay, on_first_sync, loop.
  simpl. rewrite Hinactive. simpl. repeat split.
Qed.

Lemma inactive_manager_is_inert_witness :
  is_active fresh_state = false
  /\ on_dialog_used example_config example_env fresh_state Group (user 1)
       1000
     = (fresh_state, [])
  /\ get_top_dialogs example_config example_env fresh_state Group 10 3
     = (fresh_state, [PromiseSetError 3 400]).
Proof.
  destruct (@inactive_manager_is_inert example_config example_env
              fresh_state eq_refl) as (H1 & _ & H3 & _).
  split; [reflexivity |]. split; [apply H1 | apply H3].
Defined.

(** ** Ranking store: what a usage event changes *)

Lemma bubble_up_shape cfg rev_before it after :
  exists l1 l2,
    bubble_up cfg rev_before it after = l1 ++ it :: l2
    /\ l1 ++ l2 = rev rev_before ++ after.
Proof.
  revert after. induction rev_before as [|next rb IH]; intros after.
  - exists [], after. auto.
  - simpl. destruct (top_dialog_lt cfg next it).
    + exists (rev rb ++ [next]), after. auto.
    + destruct (IH (next :: after)) as (l1 & l2 & H1 & H2).
      exists l1, l2. split; [exact H1 |]. rewrite H2.
      now rewrite <- app_assoc.
Qed.

(** The entry list after [use_dialog]: the entry of [id], found at its first
    occurrence or created with rating 0, has its rating raised by the decay
    increment and stands somewhere among the other entries, which keep their
    order. *)
Lemma use_dialog_shape cfg decay top_dialogs id date :
  exists before after r l1 l2,
    ((dialogs top_dialogs = before ++ mkTopDialog id r :: after
      /\ Forall (fun y => dialog_id y <> id) before)
     \/ (dialogs top_dialogs = before /\ after = [] /\ r = 0%R
         /\ Forall (fun y => dialog_id y <> id) before))
    /\ dialogs (use_dialog cfg decay top_dialogs id date)
       = l1
         ++ mkTopDialog id
              (r + rating_add decay (IZR date) (rating_timestamp top_dialogs))
         :: l2
    /\ l1 ++ l2 = before ++ after.
Proof.
  unfold use_dialog.
  destruct (find_if id [] (dialogs top_dialogs)) as [[[rb x] after]|] eqn:F.
  - apply find_if_some in F. destruct F as (before & Hv & -> & Hx & Hb).
    destruct (bubble_up_shape cfg (rev before ++ [])
                (mkTopDialog (dialog_id x)
                   (rating x
                    + rating_add decay (IZR date)
                        (rating_timestamp top_dialogs)))
                after) as (l1 & l2 & H1 & H2).
    exists before, after, (rating x), l1, l2. simpl.
    rewrite app_nil_r, rev_involutive in H2. subst id.
    split; [left; split; [| exact Hb] | split; [exact H1 | exact H2]].
    rewrite Hv. now destruct x.
  - apply find_if_none in F.
    destruct (bubble_up_shape cfg (rev (dialogs top_dialogs))
                (mkTopDialog id
                   (0 + rating_add decay (IZR date)
                          (rating_timestamp top_dialogs)))
                []) as (l1 & l2 & H1 & H2).
    exists (dialogs top_dialogs), [], 0%R, l1, l2. simpl.
    rewrite rev_involutive in H2.
    split; [right; auto | split; [exact H1 | exact H2]].
Qed.

Lemma on_dialog_used_other_category cfg env st category id date c :
  c <> category ->
  entries (fst (on_dialog_used cfg env st category id date)) c = entries st c.
Proof.
  intros Hc. unfold entries.
  rewrite on_dialog_used_rating_timestamp, on_dialog_used_dialogs.
  rewrite (TopDialogCategory_eqb_neq Hc). now rewrite andb_false_r.
Qed.

(** X4.  On an active manager a usage event changes one rating of one
    category: the entry of the entity, taken at its first occurrence or
    created with rating 0, gets [rating_add(date, rating_timestamp)] added
    and is placed among the other entries of the category, which keep their
    ratings and their order; the rating timestamp and the rankings of the
    other categories stay as they were. *)
Theorem on_dialog_used_raises_one_rating cfg env st category id date
    (Hactive : is_active st = true) :
  let st' := fst (on_dialog_used cfg env st category id date) in
  let top_dialogs := by_category st category in
  let delta :=
    rating_add (rating_e_decay st) (IZR date)
      (rating_timestamp top_dialogs) in
  (exists before after r l1 l2,
      ((dialogs top_dialogs = before ++ mkTopDialog id r :: after
        /\ Forall (fun y => dialog_id y <> id) before)
       \/ (dialogs top_dialogs = before /\ after = [] /\ r = 0%R
           /\ Forall (fun y => dialog_id y <> id) before))
      /\ dialogs (by_category st' category)
         = l1 ++ mkTopDialog id (r + delta) :: l2
      /\ l1 ++ l2 = before ++ after)
  /\ rating_timestamp (by_category st' category)
     = rating_timestamp top_dialogs
  /\ (forall c, c <> category -> entries st' c = entries st c).
Proof.
  intros st' top_dialogs delta. subst st' delta. split; [| split].
  - rewrite on_dialog_used_dialogs, Hactive, TopDialogCategory_eqb_refl.
    simpl. apply use_dialog_shape.
  - apply on_dialog_used_rating_timestamp.
  - intros c Hc. now apply on_dialog_used_other_category.
Qed.

Lemma on_dialog_used_raises_one_rating_witness :
  is_active two_users_state = true
  /\ rating_timestamp
       (by_category
          (fst (on_dialog_used example_config example_env two_users_state
                  Group (user 2) 1000))
          Group)
     = 0%R
  /\ entries
       (fst (on_dialog_used example_config example_env two_users_state
               Group (user 2) 1000))
       Channel
     = entries two_users_state Channel.
Proof.
  destruct (@on_dialog_used_raises_one_rating example_config example_env
              two_users_state Group (user 2) 1000 eq_refl) as (_ & H2 & H3).
  split; [reflexivity |]. split; [exact H2 |]. apply H3. discriminate.
Defined.

(** X5.  A usage event keeps the entities of a category unique, and on an
    active manager the entities of the category afterwards are those it had
    before together with the one used. *)
Theorem on_dialog_used_keeps_entities_unique cfg env st category id date
    (Hunique : NoDup (map dialog_id (dialogs (by_category st category)))) :
  let st' := fst (on_dialog_used cfg env st category id date) in
  NoDup (map dialog_id (dialogs (by_category st' category)))
  /\ (is_active st = true ->
      forall d,
        In d (map dialog_id (dialogs (by_category st' category)))
        <-> d = id \/ In d (map dialog_id (dialogs (by_category st category)))).
Proof.
  intros st'. subst st'. rewrite on_dialog_used_dialogs.
  rewrite TopDialogCategory_eqb_refl, andb_true_r.
  destruct (is_active st); [| split; [exact Hunique | discriminate]].
  destruct (use_dialog_shape cfg (rating_e_decay st)
              (by_category st category) id date)
    as (before & after & r & l1 & l2 & Hold & -> & H12).
  assert (Hids : map dialog_id l1 ++ map dialog_id l2
                 = map dialog_id before ++ map dialog_id after)
    by (rewrite <- !map_app; now f_equal).
  assert (Hrest : NoDup (map dialog_id before ++ map dialog_id after)
                  /\ ~ In id (map dialog_id before ++ map dialog_id after)
                  /\ forall d,
                       d = id \/ In d (map dialog_id before
                                       ++ map dialog_id after)
                       <-> d = id
                           \/ In d (map dialog_id
                                      (dialogs (by_category st category)))).
  { destruct Hold as [[Hv Hb] | (Hv & -> & _ & Hb)]; rewrite Hv in *.
    - rewrite map_app in Hunique. simpl in Hunique.
      apply NoDup_remove in Hunique. destruct Hunique as [Hn Hi].
      split; [exact Hn |]. split; [exact Hi |].
      intros d. rewrite map_app. simpl. rewrite !in_app_iff. simpl.
      intuition congruence.
    - simpl. rewrite app_nil_r. split; [exact Hunique |]. split.
      + intros Hin. apply in_map_iff in Hin. destruct Hin as (y & Hy & Hin).
        rewrite Forall_forall in Hb. now apply (Hb y Hin).
      + tauto. }
  destruct Hrest as (Hn & Hi & Hset). rewrite <- Hids in Hn, Hi, Hset.
  rewrite map_app. simpl. split.
  - apply (NoDup_Add (Add_app id (map dialog_id l1) (map dialog_id l2))).
    auto.
  - intros _ d. pose proof (Hset d) as Hd.
    rewrite in_app_iff in Hd |- *. simpl. intuition congruence.
Qed.

Lemma on_dialog_used_keeps_entities_unique_witness :
  NoDup (map dialog_id (dialogs (by_category two_users_state Group)))
  /\ NoDup
       (map dialog_id
          (dialogs
             (by_category
                (fst (on_dialog_used example_config example_env
                        two_users_state Group (user 2) 1000))
                Group))).
Proof.
  assert (H : NoDup (map dialog_id
                       (dialogs (by_category two_users_state Group)))).
  { simpl. repeat constructor; simpl; intuition discriminate. }
  split; [exact H |].
  exact (proj1 (@on_dialog_used_keeps_entities_unique example_config
                  example_env two_users_state Group (user 2) 1000 H)).
Defined.

Lemma find_if_first id rev_before before x after :
  Forall (fun y => dialog_id y <> id) before ->
  dialog_id x = id ->
  find_if id rev_before (before ++ x :: after)
  = Some (rev before ++ rev_before, x, after).
Proof.
  revert rev_before. induction before as [|y before IH]; intros rb Hb Hx.
  - simpl. apply DialogId_eqb_eq in Hx. now rewrite Hx.
  - inversion Hb as [|? ? Hy Hb']; subst. simpl.
    destruct (DialogId_eqb (dialog_id y) (dialog_id x)) eqn:E.
    + apply DialogId_eqb_eq in E. contradiction.
    + rewrite IH by auto. now rewrite <- app_assoc.
Qed.

Lemma bubble_up_to_front cfg rev_before it after :
  orders_by_rating cfg ->
  Forall (fun y => (rating y < rating it)%R) rev_before ->
  bubble_up cfg rev_before it after = it :: rev rev_before ++ after.
Proof.
  intros Hlt. revert after.
  induction rev_before as [|next rb IH]; intros after Hall; [reflexivity |].
  inversion Hall as [|? ? Hnext Hrb]; subst. simpl.
  destruct (top_dialog_lt cfg next it) eqn:E.
  - apply (proj1 (Hlt next it)) in E. lra.
  - rewrite IH by assumption. now rewrite <- app_assoc.
Qed.

(** X6.  When the rating an entity reaches by a usage event is strictly
    higher than the rating of every entry in front of it, the entity becomes
    the first entry of its category and the others follow in their old
    order. *)
Theorem on_dialog_used_moves_to_front cfg env st category id date
    before after r
    (Hlt : orders_by_rating cfg)
    (Hactive : is_active st = true)
    (Hold :
       (dialogs (by_category st category)
        = before ++ mkTopDialog id r :: after
        /\ Forall (fun y => dialog_id y <> id) before)
       \/ (dialogs (by_category st category) = before /\ after = []
           /\ r = 0%R /\ Forall (fun y => dialog_id y <> id) before))
    (Hhigher :
       Forall
         (fun y =>
            (rating y
             < r + rating_add (rating_e_decay st) (IZR date)
                     (rating_timestamp (by_category st category)))%R)
         before) :
  dialogs
    (by_category (fst (on_dialog_used cfg env st category id date)) category)
  = mkTopDialog id
      (r + rating_add (rating_e_decay st) (IZR date)
             (rating_timestamp (by_category st category)))
    :: before ++ after.
Proof.
  rewrite on_dialog_used_dialogs, Hactive, TopDialogCategory_eqb_refl. simpl.
  unfold use_dialog.
  assert (Hrev : forall it,
             Forall (fun y => (rating y < rating it)%R) before ->
             Forall (fun y => (rating y < rating it)%R) (rev before)).
  { intros it H. apply Forall_forall. intros y Hy. apply in_rev in Hy.
    rewrite Forall_forall in H. auto. }
  destruct Hold as [[Hv Hb] | (Hv & -> & -> & Hb)]; rewrite Hv.
  - rewrite (@find_if_first id [] before (mkTopDialog id r) after Hb eq_refl).
    simpl. rewrite app_nil_r.
    rewrite bubble_up_to_front; auto. now rewrite rev_involutive.
  - rewrite (@find_if_absent id [] before Hb). simpl.
    rewrite bubble_up_to_front; auto. now rewrite rev_involutive.
Qed.

Lemma one_lt_two_lt_decay_step :
  (2 < rating_add 241920 (IZR 241920) 0)%R.
Proof.
  unfold rating_add.
  replace ((IZR 241920 - 0) / 241920)%R with 1%R by lra.
  pose proof (exp_ineq1 1). lra.
Qed.

Lemma on_dialog_used_moves_to_front_witness :
  orders_by_rating example_config
  /\ is_active two_users_state = true
  /\ dialogs
       (by_category
          (fst (on_dialog_used example_config example_env two_users_state
                  Group (user 2) 241920))
          Group)
     = [mkTopDialog (user 2) (3 + rating_add 241920 (IZR 241920) 0);
        mkTopDialog (user 1) 5].
Proof.
  split; [exact top_dialog_lt_by_rating_orders |]. split; [reflexivity |].
  apply (@on_dialog_used_moves_to_front example_config example_env
           two_users_state Group (user 2) 241920
           [mkTopDialog (user 1) 5] [] 3
           top_dialog_lt_by_rating_orders eq_refl).
  - left. split; [reflexivity |].
    repeat constructor. discriminate.
  - repeat constructor. simpl.
    pose proof one_lt_two_lt_decay_step. lra.
Defined.

(** ** Ranking store: removal under unique entities *)

Lemma remove_dialog_dialogs cfg env st category id input_peer c :
  dialogs
    (by_category (fst (remove_dialog cfg env st category id input_peer)) c)
  = if is_active st && TopDialogCategory_eqb c category
    then match find_if id [] (dialogs (by_category st category)) with
         | Some it => erase it
         | None => dialogs (by_category st category)
         end
    else dialogs (by_category st c).
Proof.
  unfold remove_dialog. destruct (is_active st); simpl; [| reflexivity].
  destruct (find_if id [] (dialogs (by_category st category)))
    as [it|] eqn:F; simpl.
  - pose proof (loop_dialogs cfg env (erase_dialog env st category it) c)
      as H.
    destruct (loop cfg env (erase_dialog env st category it)) as [st' effs].
    simpl in *. rewrite H. unfold erase_dialog.
    rewrite (proj1 (stamp_first_unsync_change_spec env _)). simpl.
    now destruct (TopDialogCategory_eqb c category).
  - destruct (TopDialogCategory_eqb c category) eqn:E; [| reflexivity].
    apply TopDialogCategory_eqb_eq in E. now subst.
Qed.

Lemma remove_dialog_is_active cfg env st category id input_peer :
  is_active (fst (remove_dialog cfg env st category id input_peer))
  = is_active st.
Proof.
  unfold remove_dialog. destruct (is_active st) eqn:A; simpl; [| exact A].
  destruct (find_if id [] (dialogs (by_category st category)))
    as [it|]; simpl; [| exact A].
  pose proof (loop_members cfg env (erase_dialog env st category it)) as H.
  destruct (loop cfg env (erase_dialog env st category it)) as [st' effs].
  simpl in *. destruct H as (H & _). rewrite H. unfold erase_dialog.
  unfold stamp_first_unsync_change.
  destruct (Timestamp_bool _); simpl; exact A.
Qed.

(** X7.  When the entities of a category are unique, removing an entity on
    an active manager leaves no entry of it in the category; the remaining
    entities are still unique, a list in non-increasing rating order stays
    so, and removing the entity a second time returns the state
    unchanged. *)
Theorem remove_dialog_removes_entity cfg env st category id input_peer
    (Hactive : is_active st = true)
    (Hunique : NoDup (map dialog_id (dialogs (by_category st category)))) :
  let st' := fst (remove_dialog cfg env st category id input_peer) in
  Forall (fun y => dialog_id y <> id) (dialogs (by_category st' category))
  /\ NoDup (map dialog_id (dialogs (by_category st' category)))
  /\ (descending (dialogs (by_category st category)) ->
      descending (dialogs (by_category st' category)))
  /\ (forall env' input_peer',
        fst (remove_dialog cfg env' st' category id input_peer') = st').
Proof.
  intros st'.
  assert (Habsent :
            Forall (fun y => dialog_id y <> id)
              (dialogs (by_category st' category))
            /\ NoDup (map dialog_id (dialogs (by_category st' category)))
            /\ (descending (dialogs (by_category st category)) ->
                descending (dialogs (by_category st' category)))).
  { subst st'. rewrite remove_dialog_dialogs, Hactive,
      TopDialogCategory_eqb_refl. simpl.
    destruct (find_if id [] (dialogs (by_category st category)))
      as [[[rb x] after]|] eqn:F.
    - apply find_if_some in F. destruct F as (before & Hv & -> & Hx & Hb).
      simpl. rewrite app_nil_r, rev_involutive. rewrite Hv in *.
      rewrite map_app in Hunique. simpl in Hunique.
      pose proof (NoDup_remove _ _ _ Hunique) as [Hn Hi].
      rewrite <- map_app in Hn, Hi. split; [| split; [exact Hn |]].
      + apply Forall_forall. intros y Hy Heq. apply Hi.
        rewrite <- Heq, <- Hx in *. rewrite Hx.
        apply in_map_iff. exists y. split; [congruence | exact Hy].
      + rewrite !descending_strongly, !StronglySorted_app.
        intros (H1 & H2 & H12). apply StronglySorted_inv in H2.
        destruct H2 as [H2 _]. repeat split; auto.
        intros a b Ha Hb'. apply H12; simpl; auto.
    - apply find_if_none in F. auto. }
  destruct Habsent as (Hgone & Hn & Hd).
  split; [exact Hgone |]. split; [exact Hn |]. split; [exact Hd |].
  intros env' input_peer'. unfold remove_dialog at 1.
  assert (A : is_active st' = true)
    by (subst st'; now rewrite remove_dialog_is_active).
  rewrite A. simpl. now rewrite (@find_if_absent id [] _ Hgone).
Qed.

Lemma remove_dialog_removes_entity_witness :
  is_active two_users_state = true
  /\ NoDup (map dialog_id (dialogs (by_category two_users_state Group)))
  /\ Forall (fun y => dialog_id y <> user 1)
       (dialogs
          (by_category
             (fst (remove_dialog example_config example_env two_users_state
                     Group (user 1) None))
             Group)).
Proof.
  assert (H : NoDup (map dialog_id
                       (dialogs (by_category two_users_state Group)))).
  { simpl. repeat constructor; simpl; intuition discriminate. }
  split; [reflexivity |]. split; [exact H |].
  exact (proj1 (@remove_dialog_removes_entity example_config example_env
                  two_users_state Group (user 1) None eq_refl H)).
Defined.

(** ** Rescaling *)







(** ** Durable flush: what is written *)

Lemma log_event_store_ignores_dirty (top_dialogs : TopDialogs) (b : bool) :
  @log_event_store Field _
    (mkTopDialogs b (rating_timestamp top_dialogs) (dialogs top_dialogs))
  = log_event_store top_dialogs.
Proof. reflexivity. Qed.

Lemma save_categories_effects cs st :
  NoDup cs ->
  snd (save_categories cs st)
  = map (snapshot_write st) (dirty_categories st cs).
Proof.
  intros Hnd. revert st. induction Hnd as [|a cs Ha Hnd IH]; intros st.
  - reflexivity.
  - simpl. destruct (is_dirty (by_category st a)) eqn:D; simpl.
    + match goal with
      | |- context [save_categories cs ?s] =>
          specialize (IH s); destruct (save_categories cs s) as [st' effs]
      end.
      simpl in *. unfold snapshot_write at 1.
      rewrite <- (log_event_store_ignores_dirty (by_category st a) false).
      f_equal. rewrite IH. unfold dirty_categories.
      assert (E : forall c, In c cs ->
                    by_category
                      (update_category st a
                         (mkTopDialogs false
                            (rating_timestamp (by_category st a))
                            (dialogs (by_category st a)))) c
                    = by_category st c).
      { intros c Hc. apply update_category_other. intros ->. contradiction. }
      rewrite (filter_ext_in _ (fun c => is_dirty (by_category st c))).
      * apply map_ext_in. intros c Hc. apply filter_In in Hc.
        unfold snapshot_write. now rewrite (E c (proj1 Hc)).
      * intros c Hc. now rewrite (E c Hc).
    + apply IH.
Qed.

Lemma do_save_top_dialogs_effects st :
  snd (do_save_top_dialogs st)
  = Log LogSaveTopChats
    :: map (snapshot_write st) (dirty_categories st all_categories).
Proof.
  unfold do_save_top_dialogs.
  pose proof (save_categories_effects st all_categories_NoDup) as E.
  destruct (save_categories all_categories st) as [s' effs]. simpl in *.
  now rewrite E.
Qed.

(** X10.  The durable flush writes one value for every dirty category and
    for no other, in the order of the categories, under the category's key,
    holding the encoding of the category's ranking; it leaves every ranking
    as it was and no dirty flag set, so a second flush writes nothing. *)
Theorem do_save_top_dialogs_writes_dirty_categories st :
  snd (do_save_top_dialogs st)
  = Log LogSaveTopChats
    :: map (snapshot_write st) (dirty_categories st all_categories)
  /\ (forall c, entries (fst (do_save_top_dialogs st)) c = entries st c)
  /\ (forall c, is_dirty (by_category (fst (do_save_top_dialogs st)) c)
                = false)
  /\ snd (do_save_top_dialogs (fst (do_save_top_dialogs st)))
     = [Log LogSaveTopChats].
Proof.
  pose proof do_save_top_dialogs_effects as H.
  destruct (do_save_top_dialogs_spec st) as (_ & _ & _ & _ & Hclean & _).
  split; [apply H |]. split; [apply do_save_top_dialogs_entries |].
  split; [exact Hclean |].
  rewrite H. f_equal. unfold dirty_categories.
  rewrite (filter_ext _ (fun _ => false)) by (intros c; apply Hclean).
  reflexivity.
Qed.

(** ** Durable flush: what the store holds afterwards *)

Lemma top_dialogs_key_eqb (c1 c2 : TopDialogCategory) :
  String.eqb (top_dialogs_key c1) (top_dialogs_key c2)
  = TopDialogCategory_eqb c1 c2.
Proof. destruct c1, c2; reflexivity. Qed.

Lemma existsb_filter_category (f : TopDialogCategory -> bool) c cs :
  existsb (TopDialogCategory_eqb c) (filter f cs)
  = f c && existsb (TopDialogCategory_eqb c) cs.
Proof.
  induction cs as [|a cs IH]; simpl; [now rewrite andb_false_r |].
  destruct (f a) eqn:Fa; simpl; rewrite IH.
  - destruct (TopDialogCategory_eqb c a) eqn:E; simpl.
    + apply TopDialogCategory_eqb_eq in E. subst. now rewrite Fa.
    + reflexivity.
  - destruct (TopDialogCategory_eqb c a) eqn:E; simpl; [| reflexivity].
    apply TopDialogCategory_eqb_eq in E. subst. now rewrite Fa.
Qed.

Lemma store_after_snapshot_writes st cs pmc c :
  store_after (map (snapshot_write st) cs) pmc (top_dialogs_key c)
  = if existsb (TopDialogCategory_eqb c) cs
    then log_event_store (by_category st c)
    else pmc (top_dialogs_key c).
Proof.
  revert pmc. induction cs as [|a cs IH]; intros pmc; [reflexivity |].
  simpl. rewrite IH, top_dialogs_key_eqb.
  destruct (existsb (TopDialogCategory_eqb c) cs);
    [now rewrite orb_true_r |].
  rewrite orb_false_r.
  destruct (TopDialogCategory_eqb c a) eqn:E; [| reflexivity].
  apply TopDialogCategory_eqb_eq in E. now subst.
Qed.

Lemma decode_snapshot_store (top_dialogs : TopDialogs) :
  decode_snapshot (log_event_store top_dialogs)
  = Some (rating_timestamp top_dialogs, dialogs top_dialogs).
Proof.
  unfold decode_snapshot, log_event_parse, log_event_store.
  rewrite <- (app_nil_r (store_TopDialogs top_dialogs)).
  now rewrite (parse_store_TopDialogs FieldPrimitivesRoundTrip).
Qed.

(** X11.  After a durable flush the store holds, under the key of every
    category that was dirty, a value that is not empty and decodes to the
    rating timestamp and the entry list of that category, so that a later
    [start_up] reading this store loads exactly that ranking; the value
    under the key of a category that was not dirty is left alone. *)
Theorem do_save_top_dialogs_store st pmc c :
  let store := store_after (snd (do_save_top_dialogs st)) pmc in
  (is_dirty (by_category st c) = true ->
   store (top_dialogs_key c) <> []
   /\ decode_snapshot (store (top_dialogs_key c)) = Some (entries st c)
   /\ (forall env st0,
         (forall key, pmc_get env key = store key) ->
         loaded_entries env st0 c = entries st c))
  /\ (is_dirty (by_category st c) = false ->
      store (top_dialogs_key c) = pmc (top_dialogs_key c)).
Proof.
  intros store.
  assert (E : store (top_dialogs_key c)
              = if is_dirty (by_category st c)
                then log_event_store (by_category st c)
                else pmc (top_dialogs_key c)).
  { subst store.
    rewrite do_save_top_dialogs_effects. cbn [store_after].
    rewrite store_after_snapshot_writes. unfold dirty_categories.
    rewrite existsb_filter_category.
    replace (existsb (TopDialogCategory_eqb c) all_categories) with true
      by (now destruct c).
    now rewrite andb_true_r. }
  split; intros D; rewrite D in E; [| exact E].
  assert (Hne : store (top_dialogs_key c) <> [])
    by (rewrite E; discriminate).
  assert (Hdec : decode_snapshot (store (top_dialogs_key c))
                 = Some (entries st c))
    by (rewrite E; apply decode_snapshot_store).
  split; [exact Hne |]. split; [exact Hdec |].
  intros env st0 Hget. unfold loaded_entries, stored. rewrite Hget.
  destruct (store (top_dialogs_key c)) as [|f value] eqn:S;
    [now elim Hne |].
  now rewrite Hdec.
Qed.

Lemma do_save_top_dialogs_store_witness :
  is_dirty (by_category unsaved_state Group) = true
  /\ decode_snapshot
       (store_after (snd (do_save_top_dialogs unsaved_state))
          (fun _ => []) (top_dialogs_key Group))
     = Some (entries unsaved_state Group).
Proof.
  split; [reflexivity |].
  exact (proj1 (proj2 (proj1 (do_save_top_dialogs_store unsaved_state
                                (fun _ => []) Group) eq_refl))).
Defined.

(** ** Scheduler: the parts of [loop] *)

Lemma save_categories_frame cs st :
  fst (save_categories cs st)
  = set_by_category st (by_category (fst (save_categories cs st))).
Proof.
  revert st. induction cs as [|a cs IH]; intros st; simpl.
  - now destruct st.
  - destruct (is_dirty (by_category st a)); simpl; [| apply IH].
    match goal with
    | |- context [save_categories cs ?s] =>
        specialize (IH s); destruct (save_categories cs s) as [st' effs]
    end.
    simpl in *. rewrite IH at 1. reflexivity.
Qed.

Lemma do_save_top_dialogs_frame st :
  fst (do_save_top_dialogs st)
  = set_first_unsync_change
      (set_db_sync_state
         (set_by_category st (by_category (fst (do_save_top_dialogs st))))
         SyncOk)
      None.
Proof.
  unfold do_save_top_dialogs.
  pose proof (save_categories_frame all_categories st) as H.
  destruct (save_categories all_categories st) as [st' effs]. simpl in *.
  rewrite H at 1. reflexivity.
Qed.

(** [loop] on an active manager, as the composition of its parts. *)
Lemma loop_active_stages cfg env st :
  is_active st = true ->
  let st0 := set_pending_get_top_dialogs st [] in
  let r1 := loop_server_timeout cfg env st0 in
  let r2 := loop_server_sync (fst r1) (snd r1) in
  let r3 := loop_db_timeout cfg env (fst (fst r2)) in
  let r4 := loop_db_sync (fst r3) (snd (fst r2)) (snd r3) in
  loop cfg env st
  = (fst (fst r4),
     map (do_get_top_dialogs cfg st) (pending_get_top_dialogs st)
       ++ snd r2 ++ snd r4 ++ loop_timer env (snd (fst r4))).
Proof.
  intros A. unfold loop. rewrite A. simpl.
  destruct (loop_server_timeout cfg env _) as [st1 t1]. simpl.
  destruct (loop_server_sync st1 t1) as [[st2 w2] e2]. simpl.
  destruct (loop_db_timeout cfg env st2) as [st3 t3]. simpl.
  now destruct (loop_db_sync st3 w2 t3) as [[st4 w4] e4].
Qed.

(** The remote part: either a fetch is due, is issued, and the state
    becomes [Pending]; or none is due and none is issued. *)
Lemma loop_server_stage cfg env st :
  let r1 := loop_server_timeout cfg env st in
  let r2 := loop_server_sync (fst r1) (snd r1) in
  (fetch_due cfg env st
   /\ snd r2 = [Log LogSendGetTopPeers; SendGetTopPeers (fetch_ids st)]
   /\ server_sync_state (fst (fst r2)) = SyncPending
   /\ snd (fst r2) = None)
  \/ (~ fetch_due cfg env st
      /\ snd r2 = []
      /\ ((server_fresh cfg env st
           /\ server_sync_state (fst (fst r2)) = SyncOk
           /\ snd (fst r2)
              = Some (Timestamp_at (last_server_sync st)
                      + SERVER_SYNC_DELAY cfg)%R)
          \/ (~ server_fresh cfg env st
              /\ server_sync_state (fst (fst r2)) <> SyncOk
              /\ (server_sync_state st = SyncPending ->
                  server_sync_state (fst (fst r2)) = SyncPending)
              /\ snd (fst r2) = None))).
Proof.
  unfold fetch_due, server_fresh, loop_server_timeout, loop_server_sync,
    is_in_past.
  destruct (server_sync_state st) eqn:S; simpl; rewrite ?S; simpl.
  - destruct (was_first_sync st) eqn:W; simpl.
    + left. repeat split; auto.
    + right. rewrite S. intuition (try congruence).
  - right. rewrite S. intuition (try congruence).
  - destruct (Rleb _ _) eqn:E; simpl.
    + apply Rleb_true in E. destruct (was_first_sync st) eqn:W; simpl.
      * left. repeat split; auto.
      * right. intuition (try congruence; try lra).
    + apply Rleb_false in E. rewrite ?S. simpl. right.
      intuition (try congruence; try lra).
Qed.

(** The durable part: a flush that is due is made when the remote state is
    [Ok] and otherwise leaves the durable state [None]; when none is due
    nothing happens but the relaxing of the wake-up. *)
Lemma loop_db_stage cfg env st w :
  let r3 := loop_db_timeout cfg env st in
  let r4 := loop_db_sync (fst r3) w (snd r3) in
  (flush_due cfg env st
   /\ server_sync_state st = SyncOk
   /\ fst (fst r4) = fst (do_save_top_dialogs (set_db_sync_state st SyncNone))
   /\ snd r4 = snd (do_save_top_dialogs (set_db_sync_state st SyncNone))
   /\ snd (fst r4) = w)
  \/ (flush_due cfg env st
      /\ server_sync_state st <> SyncOk
      /\ fst (fst r4) = set_db_sync_state st SyncNone
      /\ snd r4 = []
      /\ snd (fst r4) = w)
  \/ (~ flush_due cfg env st
      /\ fst (fst r4) = st
      /\ snd r4 = []
      /\ snd (fst r4)
         = match db_sync_state st, first_unsync_change st with
           | SyncOk, Some t => Timestamp_relax w (Some (t + DB_SYNC_DELAY cfg)%R)
           | _, _ => w
           end).
Proof.
  assert (Hnone : db_sync_state st = SyncNone ->
                  set_db_sync_state st SyncNone = st)
    by (intros H; destruct st; simpl in *; now subst).
  unfold flush_due, loop_db_timeout, loop_db_sync, is_in_past.
  destruct (db_sync_state st) eqn:D; simpl; rewrite ?D; simpl.
  - rewrite (Hnone eq_refl).
    destruct (server_sync_state st) eqn:S.
    + right. left. intuition congruence.
    + right. left. intuition congruence.
    + left. destruct (do_save_top_dialogs st). simpl. intuition.
  - right. right. intuition congruence.
  - destruct (first_unsync_change st) as [t|] eqn:F; simpl.
    + destruct (Rleb _ _) eqn:E; simpl.
      * apply Rleb_true in E.
        assert (Hdue : SyncOk = SyncNone
                       \/ SyncOk = SyncOk
                          /\ (exists t0, Some t = Some t0
                                /\ (t0 + DB_SYNC_DELAY cfg
                                    <= Time_now_cached env)%R))
          by (right; split; [reflexivity | exists t; auto]).
        destruct (server_sync_state st) eqn:S.
        -- right. left. intuition congruence.
        -- right. left. intuition congruence.
        -- left.
           destruct (do_save_top_dialogs (set_db_sync_state st SyncNone)).
           simpl. intuition.
      * apply Rleb_false in E. rewrite ?D. simpl. right. right.
        split; [| repeat split].
        intros [H | (_ & t0 & H & Ht)]; [discriminate |].
        inversion H; subst. lra.
    + rewrite ?D. simpl. right. right. split; [| repeat split].
      intros [H | (_ & t0 & H & _)]; discriminate.
Qed.

Lemma loop_pending cfg env st :
  is_active st = true ->
  pending_get_top_dialogs (fst (loop cfg env st)) = [].
Proof.
  intros A. rewrite (@loop_active_stages cfg env st A). simpl.
  unfold loop_db_sync, loop_db_timeout, loop_server_sync,
    loop_server_timeout.
  repeat match goal with
         | |- context [do_save_top_dialogs ?s] =>
             let H := fresh "H" in
             pose proof (do_save_top_dialogs_frame s) as H;
             destruct (do_save_top_dialogs s); simpl in H; rewrite H; simpl
         | |- context [match ?x with _ => _ end] => destruct x; simpl
         end; reflexivity.
Qed.

Lemma do_save_top_dialogs_effect_kind st :
  Forall (fun e => effect_kind e = StoreEffect) (snd (do_save_top_dialogs st)).
Proof.
  rewrite do_save_top_dialogs_effects. constructor; [reflexivity |].
  apply Forall_forall. intros e He. apply in_map_iff in He.
  now destruct He as (c & <- & _).
Qed.

(** The durable part keeps the remote state and issues store effects
    only. *)
Lemma loop_db_stage_quiet cfg env st w :
  let r3 := loop_db_timeout cfg env st in
  let r4 := loop_db_sync (fst r3) w (snd r3) in
  server_sync_state (fst (fst r4)) = server_sync_state st
  /\ last_server_sync (fst (fst r4)) = last_server_sync st
  /\ Forall (fun e => effect_kind e = StoreEffect) (snd r4).
Proof.
  intros r3 r4.
  destruct (loop_db_stage cfg env st w)
    as [(_ & _ & H1 & H2 & _) | [(_ & _ & H1 & H2 & _) | (_ & H1 & H2 & _)]];
    fold r3 in H1, H2; fold r4 in H1, H2; rewrite H1, H2.
  - destruct (do_save_top_dialogs_members (set_db_sync_state st SyncNone))
      as (_ & _ & _ & Hs & Hl).
    split; [exact Hs |]. split; [exact Hl |].
    apply do_save_top_dialogs_effect_kind.
  - repeat split. constructor.
  - repeat split. constructor.
Qed.

Lemma loop_queries_effect_kind cfg st queries :
  Forall (fun e => effect_kind e = QueryEffect)
    (map (do_get_top_dialogs cfg st) queries).
Proof.
  apply Forall_forall. intros e He. apply in_map_iff in He.
  now destruct He as (q & <- & _).
Qed.

Lemma loop_timer_effect_kind env w :
  Forall (fun e => effect_kind e = TimerEffect) (loop_timer env w).
Proof. destruct w; simpl; repeat constructor. Qed.

Lemma filter_none {A : Type} (f : A -> bool) (l : list A) :
  Forall (fun x => f x = false) l -> filter f l = [].
Proof.
  induction 1 as [|x l Hx _ IH]; simpl; [reflexivity |]. now rewrite Hx.
Qed.

Lemma Forall_kind_not_fetch (k : EffectKind) (l : list Effect) :
  k <> FetchEffect ->
  Forall (fun e => effect_kind e = k) l ->
  Forall (fun e => is_fetch e = false) l.
Proof.
  intros Hk H. eapply Forall_impl; [| exact H].
  intros e He. destruct e; try reflexivity. simpl in He. congruence.
Qed.

(** When [loop] sends a fetch, and what it leaves behind. *)
Lemma loop_fetch_cases cfg env st (Hactive : is_active st = true) :
  let st' := fst (loop cfg env st) in
  let effects := snd (loop cfg env st) in
  (fetch_due cfg env st ->
   In (SendGetTopPeers (fetch_ids st)) effects
   /\ server_sync_state st' = SyncPending)
  /\ (~ fetch_due cfg env st ->
      forall ids, ~ In (SendGetTopPeers ids) effects)
  /\ (server_sync_state st = SyncPending ->
      server_sync_state st' = SyncPending
      /\ forall ids, ~ In (SendGetTopPeers ids) effects)
  /\ length (filter is_fetch effects) <= 1.
Proof.
  intros st' effects. subst st' effects.
  rewrite (@loop_active_stages cfg env st Hactive). cbv zeta. simpl fst.
  simpl snd.
  set (st0 := set_pending_get_top_dialogs st []).
  pose proof (loop_server_stage cfg env st0) as HS. cbv zeta in HS.
  change (fetch_due cfg env st0) with (fetch_due cfg env st) in HS.
  change (server_fresh cfg env st0) with (server_fresh cfg env st) in HS.
  change (fetch_ids st0) with (fetch_ids st) in HS.
  change (server_sync_state st0) with (server_sync_state st) in HS.
  set (r2 := loop_server_sync (fst (loop_server_timeout cfg env st0))
               (snd (loop_server_timeout cfg env st0))) in *.
  pose proof (loop_db_stage_quiet cfg env (fst (fst r2)) (snd (fst r2)))
    as HD. cbv zeta in HD.
  set (r4 := loop_db_sync (fst (loop_db_timeout cfg env (fst (fst r2))))
               (snd (fst r2)) (snd (loop_db_timeout cfg env (fst (fst r2)))))
    in *.
  destruct HD as (Hsrv & _ & Hk4).
  pose proof (loop_queries_effect_kind cfg st (pending_get_top_dialogs st))
    as Hkq.
  pose proof (loop_timer_effect_kind env (snd (fst r4))) as Hkt.
  assert (Hnf : forall l k, k <> FetchEffect ->
                  Forall (fun e => effect_kind e = k) l ->
                  forall ids, ~ In (SendGetTopPeers ids) l).
  { intros l k Hk H ids Hin. rewrite Forall_forall in H.
    apply H in Hin. simpl in Hin. congruence. }
  assert (NQ : QueryEffect <> FetchEffect) by discriminate.
  assert (NS : StoreEffect <> FetchEffect) by discriminate.
  assert (NT : TimerEffect <> FetchEffect) by discriminate.
  assert (Hq := Hnf _ _ NQ Hkq).
  assert (H4 := Hnf _ _ NS Hk4).
  assert (Ht := Hnf _ _ NT Hkt).
  assert (Hlen : forall e2, length (filter is_fetch e2) <= 1 ->
            length
              (filter is_fetch
                 (map (do_get_top_dialogs cfg st) (pending_get_top_dialogs st)
                    ++ e2 ++ snd r4 ++ loop_timer env (snd (fst r4))))
            <= 1).
  { intros e2 H2. rewrite !filter_app, !length_app.
    rewrite (filter_none is_fetch (Forall_kind_not_fetch NQ Hkq)).
    rewrite (filter_none is_fetch (Forall_kind_not_fetch NS Hk4)).
    rewrite (filter_none is_fetch (Forall_kind_not_fetch NT Hkt)).
    simpl. lia. }
  rewrite Hsrv.
  destruct HS as [(Hdue & He2 & Hst & _)
                 | (Hnd & He2 & [(Hfr & Hst & _) | (_ & Hst & Hp & _)])];
    rewrite He2.
  - split; [intros _; split; [| exact Hst] |].
    { apply in_or_app. right. simpl. auto. }
    split; [intros H; contradiction |].
    split; [| apply Hlen; simpl; lia].
    intros Hpend. destruct Hdue as (_ & [H | [H _]]); congruence.
  - split; [intros H; contradiction |].
    assert (Hno : forall ids,
               ~ In (SendGetTopPeers ids)
                   (map (do_get_top_dialogs cfg st)
                      (pending_get_top_dialogs st)
                    ++ [] ++ snd r4 ++ loop_timer env (snd (fst r4)))).
    { intros ids Hin. rewrite !in_app_iff in Hin.
      destruct Hin as [H | [[] | [H | H]]];
        [apply (Hq ids H) | apply (H4 ids H) | apply (Ht ids H)]. }
    split; [intros _; exact Hno |].
    split; [| apply Hlen; simpl; lia].
    intros Hpend. destruct Hfr as [Hfr _]. congruence.
  - split; [intros H; contradiction |].
    assert (Hno : forall ids,
               ~ In (SendGetTopPeers ids)
                   (map (do_get_top_dialogs cfg st)
                      (pending_get_top_dialogs st)
                    ++ [] ++ snd r4 ++ loop_timer env (snd (fst r4)))).
    { intros ids Hin. rewrite !in_app_iff in Hin.
      destruct Hin as [H | [[] | [H | H]]];
        [apply (Hq ids H) | apply (H4 ids H) | apply (Ht ids H)]. }
    split; [intros _; exact Hno |].
    split; [| apply Hlen; simpl; lia].
    intros Hpend. split; [now apply Hp | exact Hno].
Qed.

(** X12.  On an active manager [loop] sends a fetch of the top peers exactly
    when one is due: the first sync has been signalled and the remote state
    is [None], or [Ok] with [SERVER_SYNC_DELAY] elapsed since the last sync.
    The fetch covers the identifiers of all categories and leaves the remote
    state [Pending]; while the state is [Pending] no further fetch is sent,
    and one pass never sends more than one. *)
Theorem loop_fetch_single_flight cfg env st (Hactive : is_active st = true) :
  let st' := fst (loop cfg env st) in
  let effects := snd (loop cfg env st) in
  (fetch_due cfg env st ->
   In (SendGetTopPeers (fetch_ids st)) effects
   /\ server_sync_state st' = SyncPending)
  /\ (~ fetch_due cfg env st ->
      forall ids, ~ In (SendGetTopPeers ids) effects)
  /\ (server_sync_state st = SyncPending ->
      server_sync_state st' = SyncPending
      /\ forall ids, ~ In (SendGetTopPeers ids) effects)
  /\ length (filter is_fetch effects) <= 1.
Proof. intros st' effects. now apply loop_fetch_cases. Qed.

Lemma loop_fetch_single_flight_witness :
  is_active (example_state SyncNone) = true
  /\ fetch_due example_config example_env (example_state SyncNone)
  /\ In (SendGetTopPeers (fetch_ids (example_state SyncNone)))
       (snd (loop example_config example_env (example_state SyncNone)))
  /\ server_sync_state
       (fst (loop example_config example_env (example_state SyncNone)))
     = SyncPending.
Proof.
  assert (Hdue : fetch_due example_config example_env
                   (example_state SyncNone))
    by (split; [reflexivity | now left]).
  split; [reflexivity |]. split; [exact Hdue |].
  exact (proj1 (@loop_fetch_single_flight example_config example_env
                  (example_state SyncNone) eq_refl) Hdue).
Defined.

(** The state handed to the durable part agrees with the state [loop]
    started from on everything the durable part reads, except for the
    remote state, which is [Ok] exactly when it was fresh. *)
Lemma loop_server_stages_frame cfg env st :
  let st0 := set_pending_get_top_dialogs st [] in
  let r1 := loop_server_timeout cfg env st0 in
  let r2 := loop_server_sync (fst r1) (snd r1) in
  db_sync_state (fst (fst r2)) = db_sync_state st
  /\ first_unsync_change (fst (fst r2)) = first_unsync_change st
  /\ by_category (fst (fst r2)) = by_category st
  /\ last_server_sync (fst (fst r2)) = last_server_sync st
  /\ (server_sync_state (fst (fst r2)) = SyncOk <-> server_fresh cfg env st)
  /\ Forall (fun e => effect_kind e = FetchEffect) (snd r2).
Proof.
  intros st0 r1 r2.
  destruct (loop_server_timeout_sync cfg env st0) as (D1 & F1 & _).
  destruct (loop_server_sync_sync (fst r1) (snd r1)) as (D2 & F2 & _).
  pose proof (loop_server_timeout_by_category cfg env st0) as B1.
  pose proof (loop_server_sync_by_category (fst r1) (snd r1)) as B2.
  destruct (loop_server_timeout_members cfg env st0) as (_ & _ & _ & L1).
  destruct (loop_server_sync_members (fst r1) (snd r1)) as (_ & _ & _ & L2).
  fold r1 in D1, F1, B1, L1. fold r2 in D2, F2, B2, L2.
  split; [now rewrite D2, D1 |]. split; [now rewrite F2, F1 |].
  split; [now rewrite B2, B1 |]. split; [now rewrite L2, L1 |].
  pose proof (loop_server_stage cfg env st0) as HS. cbv zeta in HS.
  fold r1 in HS. fold r2 in HS.
  change (fetch_due cfg env st0) with (fetch_due cfg env st) in HS.
  change (server_fresh cfg env st0) with (server_fresh cfg env st) in HS.
  destruct HS as [(Hdue & He2 & Hst & _)
                 | (Hnd & He2 & [(Hfr & Hst & _) | (Hnf & Hst & _)])];
    rewrite He2.
  - split; [| repeat constructor]. split; [congruence |].
    intros [Hok Hlt]. destruct Hdue as (_ & [H | [_ H]]); [congruence | lra].
  - split; [tauto | constructor].
  - split; [tauto | constructor].
Qed.

(** When [loop] flushes, and what it leaves behind when it does not. *)
Lemma loop_flush_cases cfg env st (Hactive : is_active st = true) :
  let st' := fst (loop cfg env st) in
  let effects := snd (loop cfg env st) in
  (flush_ran effects <-> server_fresh cfg env st /\ flush_due cfg env st)
  /\ (flush_due cfg env st -> ~ server_fresh cfg env st ->
      db_sync_state st' = SyncNone
      /\ by_category st' = by_category st
      /\ first_unsync_change st' = first_unsync_change st
      /\ forall key value, ~ In (PmcSet key value) effects)
  /\ (~ flush_due cfg env st ->
      db_sync_state st' = db_sync_state st
      /\ by_category st' = by_category st
      /\ first_unsync_change st' = first_unsync_change st
      /\ forall key value, ~ In (PmcSet key value) effects).
Proof.
  intros st' effects. subst st' effects.
  rewrite (@loop_active_stages cfg env st Hactive). cbv zeta. simpl fst.
  simpl snd.
  destruct (loop_server_stages_frame cfg env st)
    as (D2 & F2 & B2 & _ & S2 & K2).
  set (r2 := loop_server_sync
               (fst (loop_server_timeout cfg env
                       (set_pending_get_top_dialogs st [])))
               (snd (loop_server_timeout cfg env
                       (set_pending_get_top_dialogs st [])))) in *.
  pose proof (loop_db_stage cfg env (fst (fst r2)) (snd (fst r2))) as HD.
  cbv zeta in HD.
  set (r4 := loop_db_sync (fst (loop_db_timeout cfg env (fst (fst r2))))
               (snd (fst r2)) (snd (loop_db_timeout cfg env (fst (fst r2)))))
    in *.
  assert (Hdue : flush_due cfg env (fst (fst r2)) <-> flush_due cfg env st)
    by (unfold flush_due; rewrite D2, F2; tauto).
  pose proof (loop_queries_effect_kind cfg st (pending_get_top_dialogs st))
    as Hkq.
  pose proof (loop_timer_effect_kind env (snd (fst r4))) as Hkt.
  assert (Hquiet :
            snd r4 = [] ->
            ~ flush_ran
                (map (do_get_top_dialogs cfg st) (pending_get_top_dialogs st)
                   ++ snd r2 ++ snd r4 ++ loop_timer env (snd (fst r4)))
            /\ forall key value,
                 ~ In (PmcSet key value)
                     (map (do_get_top_dialogs cfg st)
                        (pending_get_top_dialogs st)
                      ++ snd r2 ++ snd r4 ++ loop_timer env (snd (fst r4)))).
  { intros ->. rewrite Forall_forall in Hkq, K2, Hkt. unfold flush_ran.
    split; [| intros key value]; intros Hin; rewrite !in_app_iff in Hin;
      destruct Hin as [H | [H | [[] | H]]];
      [apply Hkq in H | apply K2 in H | apply Hkt in H
      | apply Hkq in H | apply K2 in H | apply Hkt in H];
      discriminate H. }
  destruct HD as [(Hd & Hs & H1 & H2 & _)
                 | [(Hd & Hs & H1 & H2 & _) | (Hnd & H1 & H2 & _)]].
  - apply Hdue in Hd. apply S2 in Hs. split; [| split].
    + split; [tauto |]. intros _. unfold flush_ran.
      apply in_or_app. right. apply in_or_app. right. apply in_or_app. left.
      rewrite H2.
      apply (proj1 (do_save_top_dialogs_spec
                      (set_db_sync_state (fst (fst r2)) SyncNone))).
    + intros _ N. contradiction.
    + intros N. contradiction.
  - apply Hdue in Hd. rewrite S2 in Hs.
    destruct (Hquiet H2) as [Hnf Hnw]. rewrite H1. simpl. split; [| split].
    + split; [intros H; contradiction | tauto].
    + intros _ _. auto.
    + intros N. contradiction.
  - rewrite Hdue in Hnd.
    destruct (Hquiet H2) as [Hnf Hnw]. rewrite H1. split; [| split].
    + split; [intros H; contradiction | tauto].
    + intros H. contradiction.
    + intros _. auto.
Qed.

(** X13.  On an active manager [loop] makes the durable flush exactly when
    the remote state is [Ok] with its deadline ahead and a flush is due: the
    durable state is [None], or it is [Ok] and [DB_SYNC_DELAY] has passed
    since the first unsaved change.  A flush that is due while the remote
    state is not fresh is not made: the durable state is left [None] and the
    dirty data and [first_unsync_change_] stay.  When no flush is due the
    durable state, the dirty data and [first_unsync_change_] stay as they
    are.  In both cases nothing is written to the store. *)
Theorem loop_flush_condition cfg env st (Hactive : is_active st = true) :
  let st' := fst (loop cfg env st) in
  let effects := snd (loop cfg env st) in
  (flush_ran effects <-> server_fresh cfg env st /\ flush_due cfg env st)
  /\ (flush_due cfg env st -> ~ server_fresh cfg env st ->
      db_sync_state st' = SyncNone
      /\ by_category st' = by_category st
      /\ first_unsync_change st' = first_unsync_change st
      /\ forall key value, ~ In (PmcSet key value) effects)
  /\ (~ flush_due cfg env st ->
      db_sync_state st' = db_sync_state st
      /\ by_category st' = by_category st
      /\ first_unsync_change st' = first_unsync_change st
      /\ forall key value, ~ In (PmcSet key value) effects).
Proof. intros st' effects. now apply loop_flush_cases. Qed.

Lemma loop_flush_condition_witness :
  is_active debounced_state = true
  /\ ~ flush_due example_config example_env debounced_state
  /\ db_sync_state (fst (loop example_config example_env debounced_state))
     = SyncOk
  /\ forall key value,
       ~ In (PmcSet key value)
           (snd (loop example_config example_env debounced_state)).
Proof.
  assert (Hnd : ~ flush_due example_config example_env debounced_state).
  { intros [H | (_ & t & H & Ht)]; [discriminate |].
    inversion H; subst. simpl in Ht. lra. }
  destruct (proj2 (proj2 (@loop_flush_condition example_config example_env
                            debounced_state eq_refl)) Hnd)
    as (H1 & _ & _ & H4).
  split; [reflexivity |]. split; [exact Hnd |]. split; [exact H1 | exact H4].
Defined.

(** ** Scheduler: the wake-up timer *)

Lemma Timestamp_relax_some (a b : Timestamp) (t : R) :
  Timestamp_relax a b = Some t -> a = Some t \/ b = Some t.
Proof.
  destruct a as [x|], b as [y|]; simpl; auto.
  destruct (Rltb y x); auto.
Qed.

Lemma Timestamp_relax_le_l (a b : Timestamp) (x : R) :
  a = Some x -> exists t, Timestamp_relax a b = Some t /\ (t <= x)%R.
Proof.
  intros ->. destruct b as [y|]; simpl.
  - destruct (Rltb y x) eqn:E.
    + apply Rltb_true in E. exists y. split; [reflexivity | lra].
    + exists x. split; [reflexivity | lra].
  - exists x. split; [reflexivity | lra].
Qed.

Lemma Timestamp_relax_le_r (a b : Timestamp) (y : R) :
  b = Some y -> exists t, Timestamp_relax a b = Some t /\ (t <= y)%R.
Proof.
  intros ->. destruct a as [x|]; simpl.
  - destruct (Rltb y x) eqn:E.
    + exists y. split; [reflexivity | lra].
    + apply Rltb_false in E. exists x. split; [reflexivity | lra].
  - exists y. split; [reflexivity | lra].
Qed.

Lemma Timestamp_relax_none (a b : Timestamp) :
  Timestamp_relax a b = None <-> a = None /\ b = None.
Proof.
  destruct a as [x|], b as [y|]; simpl; try destruct (Rltb y x);
    intuition discriminate.
Qed.

(** The wake-up [loop] ends with: the earlier of the remote deadline, which
    counts when the remote state is [Ok], and the debounce deadline, which
    counts when the durable state is [Ok] and a change is unsaved.  The
    deadlines that count lie ahead. *)
Lemma loop_wakeup cfg env st :
  is_active st = true ->
  let st' := fst (loop cfg env st) in
  exists pre ws wd,
    snd (loop cfg env st) = pre ++ loop_timer env (Timestamp_relax ws wd)
    /\ Forall (fun e => effect_kind e <> TimerEffect) pre
    /\ ((ws = Some (Timestamp_at (last_server_sync st')
                    + SERVER_SYNC_DELAY cfg)%R
         /\ server_sync_state st' = SyncOk
         /\ (Time_now_cached env
             < Timestamp_at (last_server_sync st') + SERVER_SYNC_DELAY cfg)%R)
        \/ (ws = None /\ server_sync_state st' <> SyncOk))
    /\ ((exists u,
           wd = Some (u + DB_SYNC_DELAY cfg)%R
           /\ db_sync_state st' = SyncOk
           /\ first_unsync_change st' = Some u
           /\ (Time_now_cached env < u + DB_SYNC_DELAY cfg)%R)
        \/ (wd = None
            /\ (db_sync_state st' <> SyncOk
                \/ first_unsync_change st' = None))).
Proof.
  intros A st'. subst st'.
  rewrite (@loop_active_stages cfg env st A). cbv zeta. simpl fst. simpl snd.
  destruct (loop_server_stages_frame cfg env st)
    as (D2 & F2 & B2 & L2 & S2 & K2).
  pose proof (loop_server_stage cfg env (set_pending_get_top_dialogs st []))
    as HS. cbv zeta in HS.
  change (server_fresh cfg env (set_pending_get_top_dialogs st []))
    with (server_fresh cfg env st) in HS.
  change (last_server_sync (set_pending_get_top_dialogs st []))
    with (last_server_sync st) in HS.
  set (r2 := loop_server_sync
               (fst (loop_server_timeout cfg env
                       (set_pending_get_top_dialogs st [])))
               (snd (loop_server_timeout cfg env
                       (set_pending_get_top_dialogs st [])))) in *.
  pose proof (loop_db_stage cfg env (fst (fst r2)) (snd (fst r2))) as HD.
  pose proof (loop_db_stage_quiet cfg env (fst (fst r2)) (snd (fst r2)))
    as HQ.
  cbv zeta in HD, HQ.
  set (r4 := loop_db_sync (fst (loop_db_timeout cfg env (fst (fst r2))))
               (snd (fst r2)) (snd (loop_db_timeout cfg env (fst (fst r2)))))
    in *.
  destruct HQ as (Hsrv & Hlast & K4).
  assert (Hws : (snd (fst r2)
                 = Some (Timestamp_at (last_server_sync (fst (fst r4)))
                         + SERVER_SYNC_DELAY cfg)%R
                 /\ server_sync_state (fst (fst r4)) = SyncOk
                 /\ (Time_now_cached env
                     < Timestamp_at (last_server_sync (fst (fst r4)))
                       + SERVER_SYNC_DELAY cfg)%R)
                \/ (snd (fst r2) = None
                    /\ server_sync_state (fst (fst r4)) <> SyncOk)).
  { rewrite Hsrv, Hlast, L2.
    destruct HS as [(_ & _ & Hst & Hw)
                   | (_ & _ & [(Hfr & Hst & Hw) | (_ & Hst & _ & Hw)])].
    - right. split; [exact Hw | congruence].
    - left. destruct Hfr. auto.
    - right. auto. }
  exists (map (do_get_top_dialogs cfg st) (pending_get_top_dialogs st)
          ++ snd r2 ++ snd r4).
  assert (Hpre : Forall (fun e => effect_kind e <> TimerEffect)
                   (map (do_get_top_dialogs cfg st)
                      (pending_get_top_dialogs st)
                    ++ snd r2 ++ snd r4)).
  { rewrite !Forall_app. repeat split.
    - eapply Forall_impl;
        [| apply (loop_queries_effect_kind cfg st
                    (pending_get_top_dialogs st))].
      intros e He. rewrite He. discriminate.
    - eapply Forall_impl; [| exact K2]. intros e He. rewrite He.
      discriminate.
    - eapply Forall_impl; [| exact K4]. intros e He. rewrite He.
      discriminate. }
  destruct HD as [(_ & _ & H1 & _ & Hw)
                 | [(_ & _ & H1 & _ & Hw) | (Hnd & H1 & _ & Hw)]].
  - exists (snd (fst r2)), None. rewrite Hw at 1. simpl Timestamp_relax.
    split; [now rewrite <- !app_assoc; destruct (snd (fst r2)) |].
    split; [exact Hpre |]. split; [exact Hws |]. right. split; [reflexivity |].
    right. rewrite H1.
    apply (do_save_top_dialogs_spec
             (set_db_sync_state (fst (fst r2)) SyncNone)).
  - exists (snd (fst r2)), None. rewrite Hw at 1.
    split; [now rewrite <- !app_assoc; destruct (snd (fst r2)) |].
    split; [exact Hpre |]. split; [exact Hws |]. right. split; [reflexivity |].
    left. rewrite H1. simpl. discriminate.
  - rewrite H1 in *. rewrite D2, F2 in Hw. rewrite D2, F2, Hw.
    destruct (db_sync_state st) eqn:D.
    + exfalso. apply Hnd. left. now rewrite D2.
    + exists (snd (fst r2)), None.
      split; [now rewrite <- !app_assoc; destruct (snd (fst r2)) |].
      split; [exact Hpre |]. split; [exact Hws |]. right.
      split; [reflexivity |]. left. discriminate.
    + destruct (first_unsync_change st) as [u|] eqn:F.
      * exists (snd (fst r2)), (Some (u + DB_SYNC_DELAY cfg)%R).
        split; [now rewrite <- !app_assoc |].
        split; [exact Hpre |]. split; [exact Hws |]. left. exists u.
        repeat split; auto.
        apply Rnot_le_lt. intros Hle. apply Hnd. right.
        rewrite D2, F2. split; [reflexivity |]. exists u. auto.
      * exists (snd (fst r2)), None.
        split; [now rewrite <- !app_assoc; destruct (snd (fst r2)) |].
        split; [exact Hpre |]. split; [exact Hws |]. right.
        split; [reflexivity |]. now right.
Qed.

Lemma In_loop_timer_set env pre w t :
  Forall (fun e => effect_kind e <> TimerEffect) pre ->
  In (SetTimeoutAt t) (pre ++ loop_timer env w) <-> w = Some t.
Proof.
  intros Hpre. rewrite in_app_iff. split.
  - intros [H | H].
    + rewrite Forall_forall in Hpre. now elim (Hpre _ H).
    + destruct w; simpl in H; destruct H as [H | [H | []]];
        try discriminate. now inversion H.
  - intros ->. right. simpl. auto.
Qed.

Lemma In_loop_timer_cancel env pre w :
  Forall (fun e => effect_kind e <> TimerEffect) pre ->
  In CancelTimeout (pre ++ loop_timer env w) <-> w = None.
Proof.
  intros Hpre. rewrite in_app_iff. split.
  - intros [H | H].
    + rewrite Forall_forall in Hpre. now elim (Hpre _ H).
    + destruct w; simpl in H; destruct H as [H | [H | []]];
        try discriminate. reflexivity.
  - intros ->. right. simpl. auto.
Qed.

(** X14.  On an active manager [loop] never arms its timer for an instant
    that has passed.  When the remote state is [Ok] afterwards the timer is
    set no later than the deadline of the next remote sync, and when the
    durable state is [Ok] with an unsaved change it is set no later than the
    end of the debounce delay; the timer is cancelled exactly when neither
    deadline is pending. *)
Theorem loop_timer_ahead cfg env st (Hactive : is_active st = true) :
  let st' := fst (loop cfg env st) in
  let effects := snd (loop cfg env st) in
  (forall t, In (SetTimeoutAt t) effects -> (Time_now_cached env < t)%R)
  /\ (server_sync_state st' = SyncOk ->
      exists t,
        In (SetTimeoutAt t) effects
        /\ (t <= Timestamp_at (last_server_sync st')
                 + SERVER_SYNC_DELAY cfg)%R)
  /\ (forall u,
        db_sync_state st' = SyncOk -> first_unsync_change st' = Some u ->
        exists t,
          In (SetTimeoutAt t) effects /\ (t <= u + DB_SYNC_DELAY cfg)%R)
  /\ (In CancelTimeout effects
      <-> server_sync_state st' <> SyncOk
          /\ (db_sync_state st' <> SyncOk
              \/ first_unsync_change st' = None)).
Proof.
  intros st' effects. subst effects.
  destruct (@loop_wakeup cfg env st Hactive)
    as (pre & ws & wd & -> & Hpre & Hs & Hd).
  fold st' in Hs, Hd. split; [| split; [| split]].
  - intros t Hin. apply (In_loop_timer_set env _ t Hpre) in Hin.
    apply Timestamp_relax_some in Hin.
    destruct Hin as [H | H].
    + destruct Hs as [(Hw & _ & Hlt) | (Hw & _)]; [| congruence].
      rewrite Hw in H. inversion H; subst. exact Hlt.
    + destruct Hd as [(u & Hw & _ & _ & Hlt) | (Hw & _)]; [| congruence].
      rewrite Hw in H. inversion H; subst. exact Hlt.
  - intros Hok. destruct Hs as [(Hw & _ & _) | (_ & Hn)]; [| contradiction].
    destruct (Timestamp_relax_le_l wd Hw) as (t & Ht & Hle).
    exists t. split; [| exact Hle].
    now apply (In_loop_timer_set env _ t Hpre).
  - intros u Hok Hu.
    destruct Hd as [(u' & Hw & _ & Hu' & _) | (_ & [Hn | Hn])];
      [| contradiction | congruence].
    assert (u' = u) by congruence. subst u'.
    destruct (Timestamp_relax_le_r ws Hw) as (t & Ht & Hle).
    exists t. split; [| exact Hle].
    now apply (In_loop_timer_set env _ t Hpre).
  - rewrite (In_loop_timer_cancel env _ Hpre), Timestamp_relax_none.
    split.
    + intros [Hws Hwd].
      destruct Hs as [(Hw & _) | (_ & Hn)]; [congruence |].
      destruct Hd as [(u & Hw & _) | (_ & Hn')]; [congruence |]. auto.
    + intros [Hn Hn'].
      destruct Hs as [(_ & Hok & _) | (Hw & _)]; [contradiction |].
      destruct Hd as [(u & _ & Hok & Hu & _) | (Hw' & _)]; [| auto].
      destruct Hn'; [contradiction | congruence].
Qed.

Lemma loop_timer_ahead_witness :
  is_active debounced_state = true
  /\ forall t,
       In (SetTimeoutAt t)
         (snd (loop example_config example_env debounced_state)) ->
       (Time_now_cached example_env < t)%R.
Proof.
  split; [reflexivity |].
  exact (proj1 (@loop_timer_ahead example_config example_env debounced_state
                  eq_refl)).
Defined.

(** ** Query service: queued queries *)

(** X15.  A query put to an active manager is answered in the same call:
    [loop] hands every queued query, the new one last, to [load_dialogs]
    with the identifiers of its category in ranking order and the limit
    [min(limit, MAX_TOP_DIALOGS_LIMIT, size)], all read from the rankings as
    they are at the call; no other effect of the call concerns a query, the
    queue is empty afterwards and no ranking has changed. *)
Theorem get_top_dialogs_is_answered cfg env st category limit promise
    (Hactive : is_active st = true) :
  let st' := fst (get_top_dialogs cfg env st category limit promise) in
  let effects := snd (get_top_dialogs cfg env st category limit promise) in
  pending_get_top_dialogs st' = []
  /\ (forall c, entries st' c = entries st c)
  /\ exists rest,
       effects
       = map (do_get_top_dialogs cfg st) (pending_get_top_dialogs st)
         ++ LoadDialogs
              (map dialog_id (dialogs (by_category st category)))
              (Nat.min limit
                 (Nat.min (MAX_TOP_DIALOGS_LIMIT cfg)
                    (length (dialogs (by_category st category)))))
              promise
            :: rest
       /\ Forall (fun e => effect_kind e <> QueryEffect) rest.
Proof.
  intros st' effects. subst st' effects. unfold get_top_dialogs.
  rewrite Hactive. simpl negb. cbv iota.
  set (st_q := set_pending_get_top_dialogs st
                 (pending_get_top_dialogs st
                  ++ [mkQuery category limit promise])).
  assert (A : is_active st_q = true) by exact Hactive.
  split; [now apply loop_pending |].
  split; [intros c; now rewrite loop_entries |].
  rewrite (@loop_active_stages cfg env st_q A). cbv zeta. simpl snd.
  destruct (loop_server_stages_frame cfg env st_q)
    as (_ & _ & _ & _ & _ & K2).
  set (r2 := loop_server_sync
               (fst (loop_server_timeout cfg env
                       (set_pending_get_top_dialogs st_q [])))
               (snd (loop_server_timeout cfg env
                       (set_pending_get_top_dialogs st_q [])))) in *.
  destruct (loop_db_stage_quiet cfg env (fst (fst r2)) (snd (fst r2)))
    as (_ & _ & K4).
  eexists. split.
  - unfold st_q at 2. simpl pending_get_top_dialogs. rewrite map_app.
    rewrite <- app_assoc. reflexivity.
  - rewrite !Forall_app. repeat split.
    + eapply Forall_impl; [| exact K2]. intros e He. rewrite He.
      discriminate.
    + eapply Forall_impl; [| exact K4]. intros e He. rewrite He.
      discriminate.
    + eapply Forall_impl; [| apply loop_timer_effect_kind].
      intros e He. simpl in He. rewrite He. discriminate.
Qed.

Lemma get_top_dialogs_is_answered_witness :
  is_active ranked_state = true
  /\ pending_get_top_dialogs
       (fst (get_top_dialogs example_config example_env ranked_state Group
               2 9))
     = []
  /\ exists rest,
       snd (get_top_dialogs example_config example_env ranked_state Group
              2 9)
       = LoadDialogs [user 1; chat 7; user 2] 2 9 :: rest
       /\ Forall (fun e => effect_kind e <> QueryEffect) rest.
Proof.
  destruct (@get_top_dialogs_is_answered example_config example_env
              ranked_state Group 2 9 eq_refl) as (H1 & _ & H3).
  split; [reflexivity |]. split; [exact H1 | exact H3].
Defined.

(** ** Remote sync client: a response with content *)

Lemma replace_categories_frame categories st :
  fold_left replace_category categories st
  = set_by_category st
      (by_category (fold_left replace_category categories st)).
Proof.
  revert st. induction categories as [|a l IH]; intros st; simpl.
  - now destruct st.
  - rewrite IH at 1. reflexivity.
Qed.

Lemma replace_categories_by_category categories st c :
  by_category (fold_left replace_category categories st) c
  = match response_for categories c with
    | Some category =>
        mkTopDialogs true (rating_timestamp (by_category st c))
          (peers_as_dialogs category)
    | None => by_category st c
    end.
Proof.
  unfold response_for.
  induction categories as [|a l IH] using rev_ind; [reflexivity |].
  rewrite fold_left_app, rev_app_distr. simpl.
  destruct (TopDialogCategory_eqb
              (top_dialog_category_from_telegram_api (category_ a)) c)
    eqn:E.
  - apply TopDialogCategory_eqb_eq in E. subst c.
    rewrite TopDialogCategory_eqb_refl. unfold peers_as_dialogs.
    f_equal. rewrite IH.
    now destruct (find _ (rev l)).
  - assert (E' : TopDialogCategory_eqb c
                   (top_dialog_category_from_telegram_api (category_ a))
                 = false).
    { destruct c, (top_dialog_category_from_telegram_api (category_ a));
        simpl in *; congruence. }
    rewrite E'. exact IH.
Qed.

(** X16.  A fetch response with content (link token other than 1) replaces
    the entry list of every category the response names by the peers and
    ratings of the response, as sent and in the order sent (the last entry
    counts when a category is named twice); a category the response does not
    name keeps its entries, rescaled.  Every category gets the server time
    as rating timestamp.  On an active manager whose new sync deadline lies
    ahead the call ends with the result flushed: remote and durable state
    [Ok] and no dirty flag set. *)
Theorem on_result_replaces_categories cfg env st link_token categories
    (Htoken : link_token <> 1%Z) :
  let st' := fst (on_result cfg env st link_token (TopPeers categories)) in
  let effects := snd (on_result cfg env st link_token (TopPeers categories)) in
  (forall c,
      entries st' c
      = (server_time_cached env,
         match response_for categories c with
         | Some category => peers_as_dialogs category
         | None => normalized_dialogs env st c
         end))
  /\ last_server_sync st' = Some (Time_now env)
  /\ (is_active st = true ->
      (Time_now_cached env < Time_now env + SERVER_SYNC_DELAY cfg)%R ->
      flush_ran effects
      /\ server_sync_state st' = SyncOk
      /\ db_sync_state st' = SyncOk
      /\ first_unsync_change st' = None
      /\ (forall c, is_dirty (by_category st' c) = false)).
Proof.
  intros st' effects. subst st' effects. unfold on_result.
  apply Z.eqb_neq in Htoken. rewrite Htoken.
  set (st3 := set_db_sync_state
                (fold_left replace_category categories
                   (set_server_sync_state
                      (set_last_server_sync (normalize_rating env st)
                         (Some (Time_now env)))
                      SyncOk))
                SyncNone).
  assert (F : st3
              = set_db_sync_state
                  (set_by_category
                     (set_server_sync_state
                        (set_last_server_sync (normalize_rating env st)
                           (Some (Time_now env)))
                        SyncOk)
                     (by_category st3))
                  SyncNone).
  { unfold st3. rewrite replace_categories_frame at 1. reflexivity. }
  assert (P : is_active st3 = is_active st
              /\ server_sync_state st3 = SyncOk
              /\ db_sync_state st3 = SyncNone
              /\ last_server_sync st3 = Some (Time_now env))
    by (rewrite F; simpl; auto).
  destruct P as (P1 & P2 & P3 & P4).
  pose proof (loop_entries cfg env st3) as Le.
  pose proof (loop_members cfg env st3) as Lm.
  pose proof (@loop_flushes cfg env st3) as Lf.
  rewrite P1, P4 in Lf.
  destruct (loop cfg env st3) as [st' effs]. cbn [fst snd] in *.
  split; [| split].
  - intros c. rewrite Le. unfold entries, st3. simpl.
    rewrite replace_categories_by_category.
    now destruct (response_for categories c).
  - destruct Lm as (_ & _ & _ & H). now rewrite H.
  - intros A T. destruct (Lf A P2 P3 T) as (H1 & H2 & H3 & H4 & H5).
    repeat split; auto.
    unfold flush_ran in *. simpl. auto.
Qed.

Lemma on_result_replaces_categories_witness :
  0%Z <> 1%Z
  /\ entries
       (fst (on_result example_config later_env ranked_state 0
               (TopPeers sample_response)))
       Group
     = (2000%R, [])
  /\ entries
       (fst (on_result example_config later_env ranked_state 0
               (TopPeers sample_response)))
       Channel
     = (2000%R, [mkTopDialog (mkDialogId DT_Channel 42) 8]).
Proof.
  assert (Htoken : 0%Z <> 1%Z) by discriminate.
  destruct (@on_result_replaces_categories example_config later_env
              ranked_state 0 sample_response Htoken) as (E & _).
  split; [exact Htoken |]. split; [exact (E Group) | exact (E Channel)].
Defined.

(** ** Query service: the result *)

(** X17.  For a positive requested limit, with [MAX_TOP_DIALOGS_LIMIT]
    positive, the result of a query is the first
    [min(limit, MAX_TOP_DIALOGS_LIMIT, size)] identifiers of the category, in
    ranking order, among those that are not a deleted user and not the own
    user: it never holds more than that many, it holds that many whenever
    enough identifiers are kept (skipped ones do not use up the limit), and
    it holds no deleted user and not the own user. *)
Theorem get_top_dialogs_result_bounded cfg env st query
    (Hlimit : 0 < query_limit query)
    (Hmax : 0 < MAX_TOP_DIALOGS_LIMIT cfg) :
  let result := get_top_dialogs_result cfg env st query in
  let limit := top_dialogs_limit cfg st query in
  let kept :=
    filter (keep_dialog env)
      (map dialog_id (dialogs (by_category st (query_category query)))) in
  result = firstn limit kept
  /\ length result <= limit
  /\ (limit <= length kept -> length result = limit)
  /\ (forall d, In d result -> get_type d = DT_User ->
        is_user_deleted env (get_user_id d) = false
        /\ get_my_id env <> get_user_id d).
Proof.
  intros result limit kept.
  assert (E : result = firstn limit kept).
  { subst result limit kept. unfold get_top_dialogs_result.
    rewrite collect_top_dialogs_spec.
    destruct (top_dialogs_limit cfg st query) as [|n] eqn:L; [| reflexivity].
    unfold top_dialogs_limit in L.
    destruct (dialogs (by_category st (query_category query))) as [|x l];
      [reflexivity |].
    simpl length in L. lia. }
  rewrite E. split; [reflexivity |]. split; [apply firstn_le_length |].
  split; [intros H; now apply firstn_length_le |].
  intros d Hd T. apply In_firstn in Hd. apply filter_In in Hd.
  now apply keep_dialog_user.
Qed.

Lemma get_top_dialogs_result_bounded_witness :
  0 < query_limit (mkQuery Group 2 0)
  /\ 0 < MAX_TOP_DIALOGS_LIMIT example_config
  /\ get_top_dialogs_result example_config all_deleted_env ranked_state
       (mkQuery Group 2 0)
     = firstn 2
         (filter (keep_dialog all_deleted_env)
            (map dialog_id (dialogs (by_category ranked_state Group)))).
Proof.
  assert (H1 : 0 < query_limit (mkQuery Group 2 0)) by (simpl; lia).
  assert (H2 : 0 < MAX_TOP_DIALOGS_LIMIT example_config) by (simpl; lia).
  split; [exact H1 |]. split; [exact H2 |].
  exact (proj1 (@get_top_dialogs_result_bounded example_config
                  all_deleted_env ranked_state (mkQuery Group 2 0) H1 H2)).
Defined.

(** ** Start-up: what it leaves behind *)

Lemma load_categories_frame env cs st st' :
  load_categories env cs st = Done st' ->
  st' = set_by_category st (by_category st').
Proof.
  revert st. induction cs as [|a cs IH]; intros st; simpl.
  - intros H. inversion H; subst. now destruct st'.
  - destruct (pmc_get env (top_dialogs_key a)) as [|f value].
    + intros H. apply IH in H. rewrite H at 1. reflexivity.
    + destruct (log_event_parse _ (f :: value)); [| discriminate].
      intros H. apply IH in H. rewrite H at 1. reflexivity.
Qed.

(** X18.  A [start_up] that completes on a manager that has not seen the
    first sync and has no unsaved change activates the manager and asks to
    be told of the first sync, but neither sends a fetch nor writes a
    ranking to the store.  It leaves every category normalised to the
    server time and marked dirty, with the durable state [Ok] and
    [first_unsync_change_] unset: nothing is flushed before the next change
    or remote response. *)
Theorem start_up_is_quiet cfg env st st' effects
    (Hdb : use_chat_info_db env = true)
    (Hfirst : was_first_sync st = false)
    (Hunsaved : first_unsync_change st = None)
    (Hdone : start_up cfg env st = Done (st', effects)) :
  is_active st' = true
  /\ db_sync_state st' = SyncOk
  /\ first_unsync_change st' = None
  /\ (forall c,
        is_dirty (by_category st' c) = true
        /\ rating_timestamp (by_category st' c) = server_time_cached env)
  /\ In WaitFirstSync effects
  /\ (forall ids, ~ In (SendGetTopPeers ids) effects)
  /\ (forall key value, ~ In (PmcSet key value) effects).
Proof.
  unfold start_up in Hdone. rewrite Hdb in Hdone. cbn [negb] in Hdone.
  match type of Hdone with
  | context [load_categories env all_categories ?s] => set (st3 := s) in *
  end.
  assert (P3 : is_active st3 = true /\ was_first_sync st3 = false
               /\ first_unsync_change st3 = None).
  { unfold st3, update_rating_e_decay.
    destruct (pmc_top_dialogs_ts env); simpl;
      try match goal with
          | |- context [is_in_past ?e ?t] => destruct (is_in_past e t)
          end; simpl;
      destruct (option_rating_e_decay env); simpl; auto. }
  destruct P3 as (A3 & W3 & U3).
  destruct (load_categories env all_categories st3) as [st4|] eqn:L;
    [| discriminate].
  apply load_categories_frame in L.
  set (st5 := set_db_sync_state (normalize_rating env st4) SyncOk) in *.
  assert (P5 : is_active st5 = true /\ was_first_sync st5 = false
               /\ first_unsync_change st5 = None
               /\ db_sync_state st5 = SyncOk
               /\ forall c,
                    is_dirty (by_category st5 c) = true
                    /\ rating_timestamp (by_category st5 c)
                       = server_time_cached env).
  { unfold st5. rewrite L. simpl. repeat split; auto. }
  destruct P5 as (A5 & W5 & U5 & D5 & B5).
  assert (Hnf : ~ fetch_due cfg env st5)
    by (intros [H _]; congruence).
  assert (Hnd : ~ flush_due cfg env st5).
  { intros [H | (_ & t & H & _)]; congruence. }
  pose proof (proj1 (proj2 (@loop_fetch_cases cfg env st5 A5)) Hnf) as Hfetch.
  pose proof (proj2 (proj2 (@loop_flush_cases cfg env st5 A5)) Hnd)
    as (Hdb' & Hby & Hun & Hw).
  destruct (loop_members cfg env st5) as (Hact & _).
  destruct (loop cfg env st5) as [st6 effs]. cbn [fst snd] in *.
  inversion Hdone; subst st' effects.
  split; [congruence |]. split; [congruence |]. split; [congruence |].
  split; [intros c; rewrite Hby; apply B5 |].
  split; [now left |].
  split.
  - intros ids [H | H]; [discriminate | now apply (Hfetch ids)].
  - intros key value [H | H]; [discriminate | now apply (Hw key value)].
Qed.

Lemma start_up_is_quiet_witness :
  use_chat_info_db example_env = true
  /\ was_first_sync fresh_state = false
  /\ first_unsync_change fresh_state = None
  /\ exists st' effects,
       start_up example_config example_env fresh_state = Done (st', effects)
       /\ db_sync_state st' = SyncOk
       /\ forall key value, ~ In (PmcSet key value) effects.
Proof.
  split; [reflexivity |]. split; [reflexivity |]. split; [reflexivity |].
  destruct (start_up example_config example_env fresh_state)
    as [[st' effects]|] eqn:S.
  - exists st', effects. split; [reflexivity |].
    destruct (@start_up_is_quiet example_config example_env fresh_state
                st' effects eq_refl eq_refl eq_refl S)
      as (_ & H2 & _ & _ & _ & _ & H7).
    split; [exact H2 | exact H7].
  - exfalso.
    assert (Hok : forall c,
               stored example_env c = []
               \/ decode_snapshot (stored example_env c) <> None)
      by (intros c; now left).
    destruct (@load_categories_done example_env all_categories
                (update_rating_e_decay example_env
                   (set_is_active fresh_state true))
                all_categories_NoDup (fun c _ => Hok c))
      as (st4 & L & _).
    unfold start_up in S. simpl use_chat_info_db in S. cbn [negb] in S.
    simpl pmc_top_dialogs_ts in S. cbv iota in S. rewrite L in S.
    destruct (loop example_config example_env _) in S. discriminate S.
Defined.

(** ** Scheduler: a second pass *)

(** A state in which [loop] has nothing to do. *)
Lemma loop_idle cfg env st :
  is_active st = true ->
  pending_get_top_dialogs st = [] ->
  ~ fetch_due cfg env st ->
  (server_sync_state st = SyncOk -> server_fresh cfg env st) ->
  (~ flush_due cfg env st
   \/ (db_sync_state st = SyncNone /\ server_sync_state st <> SyncOk)) ->
  fst (loop cfg env st) = st
  /\ Forall (fun e => effect_kind e = TimerEffect) (snd (loop cfg env st)).
Proof.
  intros A P Hnf Hfresh Hdb.
  rewrite (@loop_active_stages cfg env st A). cbv zeta. simpl fst. simpl snd.
  assert (E0 : set_pending_get_top_dialogs st [] = st)
    by (destruct st; simpl in *; now subst).
  rewrite E0, P. simpl map.
  assert (E2 : fst (fst (loop_server_sync
                           (fst (loop_server_timeout cfg env st))
                           (snd (loop_server_timeout cfg env st)))) = st
               /\ snd (loop_server_sync
                         (fst (loop_server_timeout cfg env st))
                         (snd (loop_server_timeout cfg env st))) = []).
  { unfold fetch_due, server_fresh in *.
    unfold loop_server_timeout, loop_server_sync, is_in_past.
    destruct (server_sync_state st) eqn:S; simpl; rewrite ?S; simpl.
    - destruct (was_first_sync st); simpl; [| auto].
      exfalso. apply Hnf. auto.
    - auto.
    - destruct (Hfresh eq_refl) as [_ Hlt]. apply Rleb_false in Hlt.
      rewrite Hlt. simpl. rewrite S. auto. }
  destruct E2 as [E2 E2'].
  set (r2 := loop_server_sync (fst (loop_server_timeout cfg env st))
               (snd (loop_server_timeout cfg env st))) in *.
  rewrite E2, E2'.
  destruct (loop_db_stage cfg env st (snd (fst r2)))
    as [(Hd & Hs & _) | [(Hd & Hs & H1 & H2 & _) | (Hnd & H1 & H2 & _)]].
  - exfalso. destruct Hdb as [H | [_ H]]; contradiction.
  - rewrite H1, H2. simpl. split; [| apply loop_timer_effect_kind].
    destruct Hdb as [H | [H _]]; [contradiction |].
    destruct st; simpl in *; now subst.
  - rewrite H1, H2. simpl. split; [reflexivity |].
    apply loop_timer_effect_kind.
Qed.

Lemma fetch_due_dec cfg env st :
  fetch_due cfg env st \/ ~ fetch_due cfg env st.
Proof.
  unfold fetch_due.
  destruct (was_first_sync st); [| right; intros [H _]; discriminate].
  destruct (server_sync_state st).
  - left. auto.
  - right. intros [_ [H | [H _]]]; discriminate.
  - destruct (Rle_lt_dec
                (Timestamp_at (last_server_sync st) + SERVER_SYNC_DELAY cfg)
                (Time_now_cached env)) as [H | H].
    + left. auto.
    + right. intros [_ [H' | [_ H']]]; [discriminate | lra].
Qed.

Lemma server_fresh_dec cfg env st :
  server_fresh cfg env st \/ ~ server_fresh cfg env st.
Proof.
  unfold server_fresh.
  destruct (server_sync_state st);
    try (right; intros [H _]; discriminate).
  destruct (Rle_lt_dec
              (Timestamp_at (last_server_sync st) + SERVER_SYNC_DELAY cfg)
              (Time_now_cached env)) as [H | H].
  - right. intros [_ H']. lra.
  - left. auto.
Qed.

Lemma flush_due_dec cfg env st :
  flush_due cfg env st \/ ~ flush_due cfg env st.
Proof.
  unfold flush_due. destruct (db_sync_state st).
  - left. auto.
  - right. intros [H | [H _]]; discriminate.
  - destruct (first_unsync_change st) as [t|].
    + destruct (Rle_lt_dec (t + DB_SYNC_DELAY cfg) (Time_now_cached env))
        as [H | H].
      * left. right. split; [reflexivity |]. exists t. auto.
      * right. intros [H' | (_ & t' & Ht & H')]; [discriminate |].
        inversion Ht; subst. lra.
    + right. intros [H | (_ & t & H & _)]; discriminate.
Qed.

(** After one pass nothing is left to do. *)
Lemma loop_settles cfg env st :
  is_active st = true ->
  let st' := fst (loop cfg env st) in
  ~ fetch_due cfg env st'
  /\ (server_sync_state st' = SyncOk -> server_fresh cfg env st')
  /\ (~ flush_due cfg env st'
      \/ (db_sync_state st' = SyncNone /\ server_sync_state st' <> SyncOk)).
Proof.
  intros A st'.
  destruct (@loop_wakeup cfg env st A) as (_ & ws & _ & _ & _ & Hs & _).
  fold st' in Hs.
  assert (Hfr : server_sync_state st' = SyncOk -> server_fresh cfg env st').
  { intros Hok. split; [exact Hok |].
    destruct Hs as [(_ & _ & Hlt) | (_ & Hn)]; [exact Hlt | contradiction]. }
  destruct (loop_members cfg env st) as (_ & Hw & _ & Hl). fold st' in Hw, Hl.
  destruct (@loop_fetch_cases cfg env st A) as (F1 & _ & F3 & _).
  fold st' in F1, F3.
  split; [| split; [exact Hfr |]].
  - intros (W' & Hdue').
    destruct (fetch_due_dec cfg env st) as [Hdue | Hnd].
    + destruct (F1 Hdue) as [_ Hp].
      destruct Hdue' as [H | [H _]]; congruence.
    + destruct Hdue' as [H | [Hok Hle]].
      * (* the remote state ended [None]: it was not pending, and a fetch
           would have been due *)
        destruct (server_sync_state st) eqn:S.
        -- apply Hnd. split; [congruence | left; exact S].
        -- destruct (F3 eq_refl) as [Hp _]. congruence.
        -- destruct Hs as [(_ & Hok' & _) | (_ & Hn)]; [congruence |].
           apply Hnd. split; [congruence |]. right. split; [exact S |].
           destruct (Rle_lt_dec
                       (Timestamp_at (last_server_sync st)
                        + SERVER_SYNC_DELAY cfg) (Time_now_cached env))
             as [Hle | Hlt]; [exact Hle |].
           exfalso. apply Hn.
           destruct (loop_server_stages_frame cfg env st)
             as (_ & _ & _ & _ & S2 & _).
           pose proof (@loop_active_stages cfg env st A) as Hst.
           cbv zeta in Hst.
           destruct (loop_db_stage_quiet cfg env
                       (fst (fst (loop_server_sync
                                    (fst (loop_server_timeout cfg env
                                            (set_pending_get_top_dialogs
                                               st [])))
                                    (snd (loop_server_timeout cfg env
                                            (set_pending_get_top_dialogs
                                               st []))))))
                       (snd (fst (loop_server_sync
                                    (fst (loop_server_timeout cfg env
                                            (set_pending_get_top_dialogs
                                               st [])))
                                    (snd (loop_server_timeout cfg env
                                            (set_pending_get_top_dialogs
                                               st [])))))))
             as (Q & _).
           unfold st'. rewrite Hst. simpl fst. rewrite Q.
           apply S2. split; [exact S | exact Hlt].
      * destruct (Hfr Hok) as [_ Hlt]. lra.
  - destruct (@loop_flush_cases cfg env st A) as (G1 & G2 & G3).
    fold st' in G2, G3.
    destruct (flush_due_dec cfg env st) as [Hdue | Hnd].
    + destruct (server_fresh_dec cfg env st) as [Hf | Hnf].
      * left.
        destruct (loop_cases cfg env st)
          as [(_ & _ & N) | (st3 & _ & _ & _ & E & _)].
        -- apply not_flush_effects_no_flush in N. destruct N as [N _].
           exfalso. apply N. apply G1. auto.
        -- fold st' in E.
           destruct (do_save_top_dialogs_spec st3) as (_ & D & U & _).
           rewrite <- E in D, U.
           intros [H | (_ & t & H & _)]; congruence.
      * right. destruct (G2 Hdue Hnf) as (D & _). split; [exact D |].
        intros Hok. apply Hnf. destruct (Hfr Hok) as [_ Hlt].
        destruct (loop_server_stages_frame cfg env st)
          as (_ & _ & _ & _ & S2 & _).
        pose proof (@loop_active_stages cfg env st A) as Hst.
        cbv zeta in Hst.
        destruct (loop_db_stage_quiet cfg env
                    (fst (fst (loop_server_sync
                                 (fst (loop_server_timeout cfg env
                                         (set_pending_get_top_dialogs
                                            st [])))
                                 (snd (loop_server_timeout cfg env
                                         (set_pending_get_top_dialogs
                                            st []))))))
                    (snd (fst (loop_server_sync
                                 (fst (loop_server_timeout cfg env
                                         (set_pending_get_top_dialogs
                                            st [])))
                                 (snd (loop_server_timeout cfg env
                                         (set_pending_get_top_dialogs
                                            st [])))))))
          as (Q & _).
        apply S2. rewrite <- Q. unfold st' in Hok. rewrite Hst in Hok.
        exact Hok.
    + left. destruct (G3 Hnd) as (D & _ & U & _).
      unfold flush_due. rewrite D, U. exact Hnd.
Qed.

(** X19.  On an active manager one pass of [loop] settles the state: a second
    pass in the same environment returns the state unchanged and only
    re-arms or cancels the timer. *)
Theorem loop_second_pass_is_idle cfg env st (Hactive : is_active st = true) :
  fst (loop cfg env (fst (loop cfg env st))) = fst (loop cfg env st)
  /\ Forall (fun e => effect_kind e = TimerEffect)
       (snd (loop cfg env (fst (loop cfg env st)))).
Proof.
  destruct (@loop_settles cfg env st Hactive) as (H1 & H2 & H3).
  apply loop_idle; auto.
  - destruct (loop_members cfg env st) as (H & _). now rewrite H.
  - now apply loop_pending.
Qed.

Lemma loop_second_pass_is_idle_witness :
  is_active unsaved_state = true
  /\ fst (loop example_config example_env
            (fst (loop example_config example_env unsaved_state)))
     = fst (loop example_config example_env unsaved_state).
Proof.
  split; [reflexivity |].
  exact (proj1 (@loop_second_pass_is_idle example_config example_env
                  unsaved_state eq_refl)).
Defined.

(** ** Scheduler: the remote state after a pass, and the kinds of effects *)

Lemma loop_server_ok_iff cfg env st :
  is_active st = true ->
  server_sync_state (fst (loop cfg env st)) = SyncOk
  <-> server_fresh cfg env st.
Proof.
  intros A. rewrite (@loop_active_stages cfg env st A). cbv zeta. simpl fst.
  destruct (loop_server_stages_frame cfg env st) as (_ & _ & _ & _ & S2 & _).
  set (r2 := loop_server_sync
               (fst (loop_server_timeout cfg env
                       (set_pending_get_top_dialogs st [])))
               (snd (loop_server_timeout cfg env
                       (set_pending_get_top_dialogs st [])))) in *.
  destruct (loop_db_stage_quiet cfg env (fst (fst r2)) (snd (fst r2)))
    as (Q & _).
  now rewrite Q.
Qed.

Lemma loop_effect_kinds cfg env st :
  Forall (fun e => effect_kind e <> OtherEffect) (snd (loop cfg env st)).
Proof.
  destruct (is_active st) eqn:A.
  - rewrite (@loop_active_stages cfg env st A). cbv zeta. simpl snd.
    destruct (loop_server_stages_frame cfg env st)
      as (_ & _ & _ & _ & _ & K2).
    set (r2 := loop_server_sync
                 (fst (loop_server_timeout cfg env
                         (set_pending_get_top_dialogs st [])))
                 (snd (loop_server_timeout cfg env
                         (set_pending_get_top_dialogs st [])))) in *.
    destruct (loop_db_stage_quiet cfg env (fst (fst r2)) (snd (fst r2)))
      as (_ & _ & K4).
    rewrite !Forall_app. repeat split.
    + eapply Forall_impl;
        [| apply (loop_queries_effect_kind cfg st
                    (pending_get_top_dialogs st))].
      intros e He. rewrite He. discriminate.
    + eapply Forall_impl; [| exact K2]. intros e He. rewrite He.
      discriminate.
    + eapply Forall_impl; [| exact K4]. intros e He. rewrite He.
      discriminate.
    + eapply Forall_impl; [| apply loop_timer_effect_kind].
      intros e He. simpl in He. rewrite He. discriminate.
  - unfold loop. rewrite A. constructor.
Qed.

(** X20.  The first-sync signal, on an active manager whose remote state is
    [None] or is [Ok] with its deadline passed, sends the fetch of the top
    peers and leaves the remote state [Pending]; when the remote state is
    [Pending], or [Ok] with its deadline ahead, the signal sends nothing.
    In both cases the signal is remembered. *)
Theorem on_first_sync_starts_fetch cfg env st
    (Hactive : is_active st = true) :
  let st' := fst (on_first_sync cfg env st) in
  let effects := snd (on_first_sync cfg env st) in
  was_first_sync st' = true
  /\ (server_sync_state st = SyncNone
      \/ (server_sync_state st = SyncOk
          /\ (Timestamp_at (last_server_sync st) + SERVER_SYNC_DELAY cfg
              <= Time_now_cached env)%R) ->
      In (SendGetTopPeers (fetch_ids st)) effects
      /\ server_sync_state st' = SyncPending)
  /\ (server_sync_state st = SyncPending \/ server_fresh cfg env st ->
      forall ids, ~ In (SendGetTopPeers ids) effects).
Proof.
  intros st' effects. subst st' effects. unfold on_first_sync.
  set (st1 := set_was_first_sync st true).
  assert (A : is_active st1 = true) by exact Hactive.
  destruct (@loop_fetch_cases cfg env st1 A) as (F1 & F2 & _).
  destruct (loop_members cfg env st1) as (_ & W & _).
  split; [now rewrite W |]. split.
  - intros Hstale. apply F1. split; [reflexivity | exact Hstale].
  - intros Hquiet. apply F2. intros (_ & Hdue). simpl in Hdue.
    destruct Hquiet as [H | [H Hlt]], Hdue as [H' | [H' Hle]];
      try congruence. lra.
Qed.

Lemma on_first_sync_starts_fetch_witness :
  is_active (example_state SyncNone) = true
  /\ was_first_sync
       (fst (on_first_sync example_config example_env
               (example_state SyncNone)))
     = true
  /\ server_sync_state
       (fst (on_first_sync example_config example_env
               (example_state SyncNone)))
     = SyncPending.
Proof.
  destruct (@on_first_sync_starts_fetch example_config example_env
              (example_state SyncNone) eq_refl) as (H1 & H2 & _).
  split; [reflexivity |]. split; [exact H1 |].
  exact (proj2 (H2 (or_introl eq_refl))).
Defined.

(** X21.  A [start_up] that completes on a manager whose remote state was
    [None] ends with the remote state [Ok] exactly when the store holds a
    sync time that is not in the future and less than [SERVER_SYNC_DELAY]
    old. *)
Theorem start_up_restores_remote_state cfg env st st' effects
    (Hdb : use_chat_info_db env = true)
    (Hserver : server_sync_state st = SyncNone)
    (Hdone : start_up cfg env st = Done (st', effects)) :
  server_sync_state st' = SyncOk
  <-> exists ts,
        pmc_top_dialogs_ts env = Some ts
        /\ (IZR ts <= Clocks_system env)%R
        /\ (Clocks_system env - IZR ts < SERVER_SYNC_DELAY cfg)%R.
Proof.
  unfold start_up in Hdone. rewrite Hdb in Hdone. cbn [negb] in Hdone.
  match type of Hdone with
  | context [load_categories env all_categories ?s] => set (st3 := s) in *
  end.
  assert (P3 : is_active st3 = true
               /\ (server_fresh cfg env st3
                   <-> exists ts,
                         pmc_top_dialogs_ts env = Some ts
                         /\ (IZR ts <= Clocks_system env)%R
                         /\ (Clocks_system env - IZR ts
                             < SERVER_SYNC_DELAY cfg)%R)).
  { unfold st3, update_rating_e_decay, server_fresh.
    destruct (pmc_top_dialogs_ts env) as [ts|]; simpl.
    - unfold is_in_past. simpl.
      destruct (Rleb _ _) eqn:E; simpl;
        destruct (option_rating_e_decay env); simpl;
        (split; [reflexivity |]).
      + apply Rleb_true in E. split.
        * intros [_ H]. exists ts. repeat split; lra.
        * intros (ts' & H & H1 & H2). inversion H; subst.
          split; [reflexivity | lra].
      + apply Rleb_true in E. split.
        * intros [_ H]. exists ts. repeat split; lra.
        * intros (ts' & H & H1 & H2). inversion H; subst.
          split; [reflexivity | lra].
      + apply Rleb_false in E. rewrite Hserver. split.
        * intros [H _]. discriminate.
        * intros (ts' & H & H1 & H2). inversion H; subst. lra.
      + apply Rleb_false in E. rewrite Hserver. split.
        * intros [H _]. discriminate.
        * intros (ts' & H & H1 & H2). inversion H; subst. lra.
    - destruct (option_rating_e_decay env); simpl; rewrite Hserver;
        (split; [reflexivity |]);
        (split; [intros [H _]; discriminate
                | intros (ts & H & _); discriminate]). }
  destruct P3 as (A3 & Hfresh).
  destruct (load_categories env all_categories st3) as [st4|] eqn:L;
    [| discriminate].
  apply load_categories_frame in L.
  set (st5 := set_db_sync_state (normalize_rating env st4) SyncOk) in *.
  assert (P5 : is_active st5 = true
               /\ (server_fresh cfg env st5 <-> server_fresh cfg env st3)).
  { unfold st5, server_fresh. rewrite L. simpl. split; [exact A3 | tauto]. }
  destruct P5 as (A5 & F5).
  pose proof (@loop_server_ok_iff cfg env st5 A5) as Hok.
  destruct (loop cfg env st5) as [st6 effs]. cbn [fst] in Hok.
  inversion Hdone; subst st' effects.
  rewrite Hok, F5. exact Hfresh.
Qed.

Lemma start_up_example_done :
  exists st' effects,
    start_up example_config example_env fresh_state = Done (st', effects).
Proof.
  assert (Hok : forall c,
             stored example_env c = []
             \/ decode_snapshot (stored example_env c) <> None)
    by (intros c; now left).
  destruct (@load_categories_done example_env all_categories
              (update_rating_e_decay example_env
                 (set_is_active fresh_state true))
              all_categories_NoDup (fun c _ => Hok c))
    as (st4 & L & _).
  unfold start_up. simpl use_chat_info_db. cbn [negb].
  simpl pmc_top_dialogs_ts. cbv iota. rewrite L.
  destruct (loop example_config example_env _) as [st' effects].
  now exists st', (WaitFirstSync :: effects).
Qed.

Lemma start_up_restores_remote_state_witness :
  use_chat_info_db example_env = true
  /\ server_sync_state fresh_state = SyncNone
  /\ exists st' effects,
       start_up example_config example_env fresh_state = Done (st', effects)
       /\ server_sync_state st' <> SyncOk.
Proof.
  split; [reflexivity |]. split; [reflexivity |].
  destruct start_up_example_done as (st' & effects & S).
  exists st', effects. split; [exact S |]. intros Hok.
  apply (@start_up_restores_remote_state example_config example_env
           fresh_state st' effects eq_refl eq_refl S) in Hok.
  destruct Hok as (ts & H & _). discriminate H.
Defined.

(** ** Handlers: what reaches the store and the network *)

(** X22.  On an active manager [remove_dialog] sends the reset of the
    remote rating exactly when it is given an input peer, once, and whether
    or not the entity is in the category; the rest of the call sends no
    reset. *)
Theorem remove_dialog_sends_reset cfg env st category id input_peer
    (Hactive : is_active st = true) :
  exists rest,
    snd (remove_dialog cfg env st category id input_peer)
    = Log (LogRemoveRating category id)
      :: match input_peer with
         | Some p => [SendResetTopPeerRating category p]
         | None => []
         end
      ++ rest
    /\ Forall (fun e => forall c p, e <> SendResetTopPeerRating c p) rest.
Proof.
  unfold remove_dialog. rewrite Hactive. simpl negb. cbv iota.
  destruct (find_if id [] (dialogs (by_category st category))) as [it|].
  - pose proof (loop_effect_kinds cfg env (erase_dialog env st category it))
      as K.
    destruct (loop cfg env (erase_dialog env st category it))
      as [st' effs]. simpl in *.
    exists effs. split; [reflexivity |].
    eapply Forall_impl; [| exact K].
    intros e He c p ->. now apply He.
  - exists []. simpl. rewrite app_nil_r. split; [reflexivity | constructor].
Qed.

Lemma remove_dialog_sends_reset_witness :
  is_active two_users_state = true
  /\ exists rest,
       snd (remove_dialog example_config example_env two_users_state Group
              (chat 99) (Some 5%Z))
       = Log (LogRemoveRating Group (chat 99))
         :: [SendResetTopPeerRating Group 5%Z] ++ rest
       /\ Forall (fun e => forall c p, e <> SendResetTopPeerRating c p) rest.
Proof.
  split; [reflexivity |].
  exact (@remove_dialog_sends_reset example_config example_env
           two_users_state Group (chat 99) (Some 5%Z) eq_refl).
Defined.

(** X23.  A usage event on an active manager is never lost: when the call
    returns, the category is marked dirty and [first_unsync_change_] is
    set, or the call has flushed and has written the ranking it returns for
    the category to the store under the category's key. *)
Theorem on_dialog_used_is_saved_or_dirty cfg env st category id date
    (Hactive : is_active st = true) :
  let st' := fst (on_dialog_used cfg env st category id date) in
  let effects := snd (on_dialog_used cfg env st category id date) in
  (is_dirty (by_category st' category) = true
   /\ Timestamp_bool (first_unsync_change st') = true)
  \/ (flush_ran effects
      /\ In (PmcSet (top_dialogs_key category)
               (log_event_store (by_category st' category)))
            effects).
Proof.
  intros st' effects. subst st' effects. unfold on_dialog_used.
  rewrite Hactive. simpl negb. cbv iota. cbv zeta.
  set (st_m := stamp_first_unsync_change env
                 (update_category st category
                    (use_dialog cfg (rating_e_decay st)
                       (by_category st category) id date))).
  assert (Dm : is_dirty (by_category st_m category) = true).
  { unfold st_m. rewrite (proj1 (stamp_first_unsync_change_spec env _)).
    rewrite update_category_same. unfold use_dialog.
    now destruct (find_if _ _ _) as [[[? ?] ?]|]. }
  assert (Um : Timestamp_bool (first_unsync_change st_m) = true).
  { unfold st_m. rewrite (proj2 (stamp_first_unsync_change_spec env _)).
    now destruct (first_unsync_change _). }
  pose proof (loop_entries cfg env st_m category) as Le.
  pose proof (loop_cases cfg env st_m) as Lc.
  destruct (loop cfg env st_m) as [st' effs]. simpl in *.
  destruct Lc as [(B & Fu & _) | (st3 & B3 & _ & _ & -> & Hincl)].
  - left. now rewrite B, Fu.
  - right.
    destruct (do_save_top_dialogs_spec st3) as (Fr & _ & _ & _ & _ & W).
    split; [unfold flush_ran; right; now apply Hincl |].
    right. apply Hincl. specialize (W category). rewrite B3 in W.
    specialize (W Dm).
    replace (@log_event_store Field _
               (by_category (fst (do_save_top_dialogs st3)) category))
      with (@log_event_store Field _
              (mkTopDialogs false
                 (rating_timestamp (by_category st_m category))
                 (dialogs (by_category st_m category)))); [exact W |].
    unfold entries in Le. inversion Le as [[Ets Eds]].
    unfold log_event_store, store_TopDialogs. simpl.
    now rewrite Ets, Eds.
Qed.

Lemma on_dialog_used_is_saved_or_dirty_witness :
  is_active two_users_state = true
  /\ ((is_dirty
         (by_category
            (fst (on_dialog_used example_config example_env two_users_state
                    Group (user 2) 1000))
            Group)
       = true
       /\ Timestamp_bool
            (first_unsync_change
               (fst (on_dialog_used example_config example_env
                       two_users_state Group (user 2) 1000)))
          = true)
      \/ (flush_ran
            (snd (on_dialog_used example_config example_env two_users_state
                    Group (user 2) 1000))
          /\ In (PmcSet (top_dialogs_key Group)
                   (log_event_store
                      (by_category
                         (fst (on_dialog_used example_config example_env
                                 two_users_state Group (user 2) 1000))
                         Group)))
                (snd (on_dialog_used example_config example_env
                        two_users_state Group (user 2) 1000)))).
Proof.
  split; [reflexivity |].
  exact (@on_dialog_used_is_saved_or_dirty example_config example_env
           two_users_state Group (user 2) 1000 eq_refl).
Defined.
